(** * Query selection for constrained clustering: robustclust/active_learning.py

    A shallow embedding of [get_constraints], [FFQS], [MMFFQS] and
    [active_class_discovery], and the properties of the written
    specification that hold (or fail) on them.

    Conventions of the embedding.
    - Point indices, neighbourhood labels and query counters are [nat];
      true class labels and the entries of the returned matrices are [Z]
      (a numpy matrix is a [list (list Z)], one inner list per row).
    - Python 3 numbers that reach a shape argument are [pynum]: [N/2] is
      true division and yields a float, and numpy refuses a float where a
      dimension is expected.
    - Exceptions are the [Err] results of the [result] type; code that
      draws random numbers or calls a library on the data runs in the
      monad [M], whose [world] holds the pseudo-random tape, the position
      reached in it and the trace of library calls made so far.  The world
      survives an exception, as the side effects of Python code do.
    - The data enters the strategies only through library results, which
      are the fields of [dataset]; the order that [np.argsort] gives equal
      keys, which numpy does not fix, is one of them. *)

From Stdlib Require Import ZArith QArith Lqa String Lia.
From stdpp Require Import base list sorting.

Local Open Scope string_scope.
Local Open Scope nat_scope.
Local Open Scope list_scope.

(** ** Exceptions and the two monads *)

Inductive exn : Type :=
| AssertionError (msg : string)
| TypeError
| ValueError
| IndexError
| OutOfFuel.

Inductive result (A : Type) : Type :=
| Ok (a : A)
| Err (e : exn).
Arguments Ok {A} a.
Arguments Err {A} e.

Definition rbind {A B} (r : result A) (k : A → result B) : result B :=
  match r with
  | Ok a => k a
  | Err e => Err e
  end.

Notation "'let*' x ':=' e 'in' k" := (rbind e (λ x, k))
  (at level 10, x pattern, e at level 100, k at level 200).

(** Library calls on the data, recorded in the order they are made. *)
Inductive event : Type :=
| EvPdist
| EvAffinity
| EvAgglomerative.

Record world : Type := World {
  tape : nat → nat;        (* the pseudo-random source *)
  pos : nat;               (* draws consumed so far *)
  trace : list event       (* library calls made so far, oldest first *)
}.

Definition M (A : Type) : Type := world → result A * world.

Definition mret {A} (a : A) : M A := λ w, (Ok a, w).

Definition mbind {A B} (m : M A) (k : A → M B) : M B :=
  λ w, match m w with
       | (Ok a, w') => k a w'
       | (Err e, w') => (Err e, w')
       end.

Definition lift {A} (r : result A) : M A := λ w, (r, w).

Definition raise {A} (e : exn) : M A := λ w, (Err e, w).

Definition emit (ev : event) : M unit :=
  λ w, (Ok tt, World (tape w) (pos w) (trace w ++ [ev])).

Notation "'let!' x ':=' e 'in' k" := (mbind e (λ x, k))
  (at level 10, x pattern, e at level 100, k at level 200).

(** ** Python and numpy primitives *)

Inductive pynum : Type :=
| PyInt (z : Z)
| PyFloat (q : Q).

(** A dimension of a shape tuple ([np.zeros((n, 3))], the size of
    [np.random.randint], a slice bound): an int, and not negative. *)
Definition shape_dim (n : pynum) : result nat :=
  match n with
  | PyInt z => if (z <? 0)%Z then Err ValueError else Ok (Z.to_nat z)
  | PyFloat _ => Err TypeError
  end.

(** [N/2] of Python 3. *)
Definition true_div2 (n : nat) : pynum := PyFloat (Z.of_nat n # 2).

Abbreviation matrix := (list (list Z)).

(** [l[i]] for an index array entry [i]: negative indices count from the end. *)
Definition getitem {A} (l : list A) (i : Z) : result A :=
  let j := if (i <? 0)%Z then (Z.of_nat (length l) + i)%Z else i in
  if (j <? 0)%Z then Err IndexError
  else match l !! Z.to_nat j with
       | Some x => Ok x
       | None => Err IndexError
       end.

(** [l[i]] for a counter [i] that is never negative. *)
Definition at_index {A} (l : list A) (i : nat) : result A :=
  match l !! i with
  | Some x => Ok x
  | None => Err IndexError
  end.

(** [mat[i, :] = row]. *)
Definition set_row (mat : matrix) (i : nat) (row : list Z) : result matrix :=
  if decide (i < length mat) then Ok (<[i := row]> mat) else Err IndexError.

Definition zeros (rows cols : nat) : matrix := replicate rows (replicate cols 0%Z).

Definition Z_of_bool (b : bool) : Z := if b then 1%Z else 0%Z.

Fixpoint mapM {A B} (f : A → result B) (l : list A) : result (list B) :=
  match l with
  | [] => Ok []
  | x :: l' => let* y := f x in let* ys := mapM f l' in Ok (y :: ys)
  end.

(** [np.random.randint(lo, hi)]: one draw in [lo, hi). *)
Definition randint (lo hi : nat) : M nat :=
  λ w, if decide (lo < hi)
       then (Ok (lo + tape w (pos w) mod (hi - lo)),
             World (tape w) (S (pos w)) (trace w))
       else (Err ValueError, w).

(** [np.random.randint(0, hi, (rows, 2))], drawn row by row; with no row
    to draw the empty matrix comes back, also over an empty range. *)
Fixpoint randint_pairs (hi rows : nat) : M matrix :=
  match rows with
  | 0 => mret []
  | S r =>
      let! i := randint 0 hi in
      let! j := randint 0 hi in
      let! rest := randint_pairs hi r in
      mret ([Z.of_nat i; Z.of_nat j] :: rest)
  end.

(** [np.random.choice(a)] for a one-dimensional array [a]. *)
Definition choice_of (a : list nat) : M nat :=
  let! k := randint 0 (length a) in
  lift (at_index a k).

(** A uniform sample of [0, 1): 53 random bits, as numpy's doubles. *)
Definition random_sample : M Q :=
  λ w, (Ok ((Z.of_nat (tape w (pos w)) mod 2 ^ 53)%Z # Pos.pow 2 53),
        World (tape w) (S (pos w)) (trace w)).

(** [np.random.choice(2, n, p=[1 - err_rate, err_rate]).astype('bool')]:
    numpy checks that [p] is a probability vector, then looks each uniform
    sample up in the cumulative sums [1 - err_rate; 1] from the right. *)
Fixpoint bernoulli_draws (err_rate : Q) (n : nat) : M (list bool) :=
  match n with
  | 0 => mret []
  | S k =>
      let! u := random_sample in
      let! rest := bernoulli_draws err_rate k in
      mret (Qle_bool (1 - err_rate) u :: rest)
  end.

Definition choice2 (n : pynum) (err_rate : Q) : M (list bool) :=
  let! k := lift (shape_dim n) in
  if Qle_bool 0 err_rate && Qle_bool err_rate 1
  then bernoulli_draws err_rate k
  else raise ValueError.

(** [np.min(block, axis=0)] and [np.max(block, axis=0)]: a reduction over
    zero rows has no identity and raises. *)
Definition qmin (a b : Q) : Q := if Qle_bool a b then a else b.
Definition qmax (a b : Q) : Q := if Qle_bool a b then b else a.

Definition reduce_axis0 (f : Q → Q → Q) (block : list (list Q)) : result (list Q) :=
  match block with
  | [] => Err ValueError
  | r :: rs => Ok (foldl (zip_with f) r rs)
  end.

(** [np.argmax] and [np.argmin] of a vector: the first position of the
    extreme value; an empty vector raises. *)
Fixpoint arg_best (better : Q → Q → bool) (best : Q) (besti i : nat) (v : list Q) : nat :=
  match v with
  | [] => besti
  | x :: v' =>
      if better x best then arg_best better x i (S i) v'
      else arg_best better best besti (S i) v'
  end.

Definition argmax (v : list Q) : result nat :=
  match v with
  | [] => Err ValueError
  | x :: v' => Ok (arg_best (λ a b, negb (Qle_bool a b)) x 0 1 v')
  end.

Definition argmin (v : list Q) : result nat :=
  match v with
  | [] => Err ValueError
  | x :: v' => Ok (arg_best (λ a b, negb (Qle_bool b a)) x 0 1 v')
  end.

(** [np.unique]: the sorted distinct values. *)
Definition np_unique (l : list nat) : list nat := merge_sort le (remove_dups l).

(** [np.argsort(-v)]: the positions of [v] by decreasing value.  numpy
    promises no order among equal values (its default sort is not stable,
    and the order changes with the build), so the order is read from
    [guess], the answer numpy gives: every arrangement of the positions by
    decreasing value is taken as it is.  Where [guess] is no such
    arrangement, the order of a merge sort stands in. *)
Definition key_ge {A} (leb : A → A → bool) (d : A) (v : list A) (i j : nat) : Prop :=
  Is_true (leb (default d (v !! j)) (default d (v !! i))).

Global Instance key_ge_dec {A} (leb : A → A → bool) d v : RelDecision (key_ge leb d v).
Proof. intros i j. unfold key_ge. apply _. Defined.

Definition is_argsort {A} (leb : A → A → bool) (d : A) (v : list A) (guess : list nat)
    : Prop :=
  length guess = length v ∧ NoDup guess ∧ Forall (λ i, i < length v) guess ∧
  StronglySorted (key_ge leb d v) guess.

Global Instance is_argsort_dec {A} (leb : A → A → bool) d v guess :
  Decision (is_argsort leb d v guess).
Proof. unfold is_argsort. apply _. Defined.

Definition argsort_desc {A} (leb : A → A → bool) (d : A) (guess : list nat) (v : list A)
    : list nat :=
  if decide (is_argsort leb d v guess) then guess
  else merge_sort (key_ge leb d v) (seq 0 (length v)).

(** ** The data, as the strategies see it *)

(** The data and what the libraries answer on it. *)
Record dataset : Type := Dataset {
  n_points : nat;               (* data.shape[0] *)
  dist : nat → nat → Q;         (* pdist(data), read by pair of points *)
  aff : nat → nat → Q;          (* affinity(pdist(data)), read by pair of points *)
  children : list (nat * nat);  (* AgglomerativeClustering(linkage='average').fit(data).children_ *)
  np_argsort : list Q → list nat  (* np.argsort, read by the array it is given *)
}.

(** Modelled from the spec: [pdist_block] of robustclust/utils.py, which is
    not among the sources; "extraction of a distance sub-block between two
    index sets", one row per point of the first set. *)
Definition pdist_block (d : nat → nat → Q) (rows cols : list nat) : list (list Q) :=
  (λ a, d a <$> cols) <$> rows.

(** Modelled from the spec: [all_pairwise] of robustclust/utils.py, which is
    not among the sources; 1 for two points that share a nonzero label, 0
    for two different nonzero labels and wherever a point is unassigned. *)
Definition all_pairwise (clus_label : list nat) : matrix :=
  (λ a, (λ b, Z_of_bool (bool_decide (a ≠ 0 ∧ a = b))) <$> clus_label) <$> clus_label.

(** [ind[nbr_label ...]]: the points whose label satisfies a test. *)
Definition ind_where (P : nat → Prop) `{!∀ c, Decision (P c)} (nbr : list nat) : list nat :=
  filter (λ i, P (default 0 (nbr !! i))) (seq 0 (length nbr)).

(** ** Farthest-first query search *)

Record ffqs_state : Type := FfqsState {
  nbr_label : list nat;
  quer_cnt : nat;
  constraint_mat : matrix;
  found_all : bool
}.

Section Strategies.
Variable data : dataset.
Variable labels : list Z.

(** The inner [while] of FFQS: the new point against the first member of
    each neighbourhood in turn.  The oracle is asked, and the counter
    advances, also when the budget is spent; only the row is not written. *)
Fixpoint ffqs_scan (fuel : nat) (n : nat) (nbr : list nat) (new_pt : nat)
    (constraint : bool) (nbr_cnt qcnt : nat) (mat : matrix)
    : result (bool * nat * nat * matrix) :=
  if negb constraint && bool_decide (nbr_cnt ≤ max_list nbr) then
    match fuel with
    | 0 => Err OutOfFuel
    | S fuel' =>
        let this_hood := ind_where (λ c, c = nbr_cnt) nbr in
        let* lp := at_index labels new_pt in
        let* rep := at_index this_hood 0 in
        let* lr := at_index labels rep in
        let constraint' := bool_decide (lp = lr) in
        let* mat' :=
          if decide (qcnt < n)
          then set_row mat qcnt [Z.of_nat new_pt; Z.of_nat rep; Z_of_bool constraint']
          else Ok mat in
        ffqs_scan fuel' n nbr new_pt constraint' (S nbr_cnt) (S qcnt) mat'
    end
  else Ok (constraint, nbr_cnt, qcnt, mat).

(** One turn of the outer [while] of FFQS. *)
Definition ffqs_body (n num_class : nat) (s : ffqs_state) : result ffqs_state :=
  let nbr := nbr_label s in
  let nbr_ind := ind_where (λ c, 0 < c) nbr in
  let cand_ind := ind_where (λ c, c = 0) nbr in
  let block := pdist_block (dist data) nbr_ind cand_ind in
  let* min_dist := reduce_axis0 qmin block in
  let* far_ind := argmax min_dist in
  let* new_pt := at_index cand_ind far_ind in
  let* (constraint, nbr_cnt, qcnt, mat) :=
    ffqs_scan (max_list nbr) n nbr new_pt false 1 (quer_cnt s) (constraint_mat s) in
  let nbr' :=
    if constraint then <[new_pt := nbr_cnt - 1]> nbr
    else <[new_pt := max_list nbr + 1]> nbr in
  let unique_nbr := filter (λ c, c ≠ 0) (np_unique nbr') in
  Ok (FfqsState nbr' qcnt mat
        (if decide (length unique_nbr = num_class) then true else found_all s)).

Definition ffqs_guard (n : nat) (s : ffqs_state) : bool :=
  bool_decide (quer_cnt s < n) && negb (found_all s).

Fixpoint ffqs_loop (fuel : nat) (n num_class : nat) (s : ffqs_state) : result ffqs_state :=
  if ffqs_guard n s then
    match fuel with
    | 0 => Err OutOfFuel
    | S fuel' => let* s' := ffqs_body n num_class s in ffqs_loop fuel' n num_class s'
    end
  else Ok s.

Definition ffqs_init (seed n : nat) : ffqs_state :=
  FfqsState (<[seed := 1]> (replicate (length labels) 0)) 0 (zeros n 3) false.

Definition FFQS (n_constraints : pynum) : M (matrix * list nat) :=
  let num_class := length (remove_dups labels) in
  let! seed := randint 0 (length labels) in
  let! n := lift (shape_dim n_constraints) in
  let! s := lift (ffqs_loop n n num_class (ffqs_init seed n)) in
  mret (constraint_mat s, nbr_label s).

(** ** Minimax farthest-first query search *)

(** [constraint_mat[constraint_mat[:,0] != 0, 0:2]]: the rows whose first
    entry is not zero, cut to the pair. *)
Definition explore_rows (mat : matrix) : matrix :=
  take 2 <$> filter (λ r, r !! 0 ≠ Some 0%Z) mat.

(** The first [for] of a turn: for the neighbourhood [c], its member most
    affine to [q] and that affinity. *)
Definition best_rep (clus_label : list nat) (q c : nat) : result (Q * nat) :=
  let ind_k := ind_where (λ x, x = c) clus_label in
  let row := aff data q <$> ind_k in
  let* sim_ind := argmax row in
  let* sim := at_index row sim_ind in
  let* rep := at_index ind_k sim_ind in
  Ok (sim, rep).

(** The second [for] of a turn, over [k in range(num_clus)]. *)
Fixpoint mm_queries (n : nat) (clus ind_vec : list nat) (q : nat) (ks : list nat)
    (clus_label : list nat) (query_cnt : nat) (mat : matrix)
    : result (list nat * nat * matrix) :=
  match ks with
  | [] => Ok (clus_label, query_cnt, mat)
  | k :: ks' =>
      let* lq := at_index labels q in
      let* rep := at_index ind_vec k in
      let* lr := at_index labels rep in
      let link := bool_decide (lq = lr) in
      let* mat' := set_row mat query_cnt [Z.of_nat q; Z.of_nat rep; Z_of_bool link] in
      let query_cnt' := S query_cnt in
      if link then
        let* c := at_index clus_label rep in
        Ok (<[q := c]> clus_label, query_cnt', mat')
      else
        let clus_label' :=
          if decide (k = length clus) then <[q := max_list clus + 1]> clus_label
          else clus_label in
        if decide (query_cnt' = n) then Ok (clus_label', query_cnt', mat')
        else mm_queries n clus ind_vec q ks' clus_label' query_cnt' mat'
  end.

Record mm_state : Type := MmState {
  clus_label : list nat;
  query_cnt : nat;
  mm_mat : matrix;
  skeleton_ind : list nat
}.

(** One turn of the [while] of MMFFQS. *)
Definition mm_body (n : nat) (clus : list nat) (s : mm_state) : M mm_state :=
  let all_ind := seq 0 (length labels) in
  let candidate_ind := filter (λ i, i ∉ skeleton_ind s) all_ind in
  let! q :=
    match candidate_ind with
    | _ :: _ =>
        lift (let* sims := reduce_axis0 qmax
                             (pdist_block (aff data) (skeleton_ind s) candidate_ind) in
              let* q_ind := argmin sims in
              at_index candidate_ind q_ind)
    | [] => randint 0 (length labels)
    end in
  let num_clus := length clus in
  let! reps := lift (mapM (best_rep (clus_label s) q) clus) in
  let sim_vec := fst <$> reps in
  let ind_vec := snd <$> reps in
  let sort_ind := argsort_desc Qle_bool 0%Q (np_argsort data (Qopp <$> sim_vec)) sim_vec in
  let! ind_vec' := lift (mapM (at_index ind_vec) sort_ind) in
  let! (cl, qc, mat) :=
    lift (mm_queries n clus ind_vec' q (seq 0 num_clus)
            (clus_label s) (query_cnt s) (mm_mat s)) in
  mret (MmState cl qc mat (skeleton_ind s ++ [q])).

Fixpoint mm_loop (fuel : nat) (n : nat) (clus : list nat) (s : mm_state) : M mm_state :=
  if bool_decide (query_cnt s < n) then
    match fuel with
    | 0 => raise OutOfFuel
    | S fuel' => let! s' := mm_body n clus s in mm_loop fuel' n clus s'
    end
  else mret s.

Definition mm_init (mat : matrix) (clus_label : list nat) : mm_state :=
  let explore_constraints := explore_rows mat in
  MmState clus_label (length explore_constraints) mat
    (np_unique (Z.to_nat <$> concat explore_constraints)).

Definition MMFFQS (n_constraints : pynum) : M (matrix * list nat) :=
  let! _ := emit EvAffinity in
  let! (mat, cl) := FFQS n_constraints in
  let! n := lift (shape_dim n_constraints) in
  let clus := np_unique (filter (λ c, c ≠ 0) cl) in
  let! s := mm_loop n n clus (mm_init mat cl) in
  mret (take 2 <$> mm_mat s, clus_label s).
End Strategies.

(** ** Active class discovery *)

Record merge_walk_state : Type := MergeWalk {
  clus_mem : list (list nat);
  merge_history : list (list nat * list nat);
  merge_size : list nat
}.

(** The state before the walk: [clus_mem] holds the singletons,
    [merge_history] is empty, [merge_size] is [np.zeros(N-1)]. *)
Definition merge_walk_init (N : nat) : merge_walk_state :=
  MergeWalk ((λ x, [x]) <$> seq 0 N) [] (replicate (N - 1) 0).

(** The walk over the merge tree, [for i in range(N-1)]. *)
Fixpoint merge_walk (ch : list (nat * nat)) (steps : list nat) (s : merge_walk_state)
    : result merge_walk_state :=
  match steps with
  | [] => Ok s
  | i :: steps' =>
      let* (group1, group2) := at_index ch i in
      let* m1 := at_index (clus_mem s) group1 in
      let* m2 := at_index (clus_mem s) group2 in
      merge_walk ch steps'
        (MergeWalk (clus_mem s ++ [m1 ++ m2])
                   (merge_history s ++ [(m1, m2)])
                   (<[i := length m1 `min` length m2]> (merge_size s)))
  end.

(** [select_idx]: the merges by decreasing smaller side, those under
    [min_samples] dropped, cut to the budget. *)
Definition acd_select (argsort : list Q → list nat) (sizes : list nat)
    (min_samples : option Z) (n : nat) : list nat :=
  let select_idx :=
    argsort_desc Nat.leb 0 (argsort ((λ s, (- inject_Z (Z.of_nat s))%Q) <$> sizes)) sizes in
  let select_idx :=
    match min_samples with
    | None => select_idx
    | Some m => filter (λ idx, (m ≤ Z.of_nat (default 0%nat (sizes !! idx)))%Z) select_idx
    end in
  take n select_idx.

(** [for i, idx in enumerate(select_idx)]: one random point of each side. *)
Fixpoint acd_fill (hist : list (list nat * list nat)) (sel : list nat) (i : nat)
    (query_mat : matrix) : M matrix :=
  match sel with
  | [] => mret query_mat
  | idx :: sel' =>
      let! (group1, group2) := lift (at_index hist idx) in
      let! a := choice_of group1 in
      let! b := choice_of group2 in
      let! query_mat' := lift (set_row query_mat i [Z.of_nat a; Z.of_nat b]) in
      acd_fill hist sel' (S i) query_mat'
  end.

Definition active_class_discovery (data : dataset) (n_constraints : pynum)
    (min_samples : option Z) : M matrix :=
  let N := n_points data in
  let! _ := emit EvAgglomerative in
  (* sklearn refuses to fit fewer than two samples *)
  if decide (N < 2) then raise ValueError else
  let! w := lift (merge_walk (children data) (seq 0 (N - 1)) (merge_walk_init N)) in
  let! n := lift (shape_dim n_constraints) in
  let select_idx := acd_select (np_argsort data) (merge_size w) min_samples n in
  let! query_mat := acd_fill (merge_history w) select_idx 0 (zeros n 2) in
  if decide (length select_idx < n) then
    let! pad := randint_pairs N (n - length select_idx) in
    mret (take (length select_idx) query_mat ++ pad)
  else mret query_mat.

(** ** The constraint assembler *)

(** [2 - np.power(2, link)], the flip of a noise-selected link. *)
Definition flip (link : Z) : Z := (2 - 2 ^ link)%Z.

(** [link[error_ind,:] = 2 - np.power(2, link[error_ind,:])]; a boolean
    mask of another length than the array raises. *)
Definition flip_masked (error_ind : list bool) (link : list Z) : result (list Z) :=
  if decide (length error_ind = length link)
  then Ok (zip_with (λ (e : bool) l, if e then flip l else l) error_ind link)
  else Err IndexError.

(** [(labels[query_mat[:,0]] == labels[query_mat[:,1]]) + 0], row by row. *)
Definition true_link (labels : list Z) (row : list Z) : result Z :=
  let* i := at_index row 0 in
  let* j := at_index row 1 in
  let* li := getitem labels i in
  let* lj := getitem labels j in
  Ok (Z_of_bool (bool_decide (li = lj))).

(** [np.append(query_mat, link, axis=1)]. *)
Definition append_col (query_mat : matrix) (link : list Z) : matrix :=
  zip_with (λ row l, row ++ [l]) query_mat link.

(** The tail of [get_constraints], from the query pairs on. *)
Definition assemble (labels : list Z) (n_constraints : pynum) (err_rate : Q)
    (query_mat : matrix) : M matrix :=
  let! link := lift (mapM (true_link labels) query_mat) in
  let! error_ind := choice2 n_constraints err_rate in
  let! link := lift (flip_masked error_ind link) in
  mret (append_col query_mat link).

Definition get_constraints (data : dataset) (labels : list Z) (method : string)
    (n_constraints : option pynum) (err_rate : Q) (min_samples : option Z)
    : M (matrix * option matrix) :=
  let N := length labels in
  let! _ := emit EvPdist in
  let n_constraints := match n_constraints with
                       | None => true_div2 N
                       | Some n => n
                       end in
  let! (query_mat, big_constraint_mat) :=
    if String.eqb method "acd" then
      let! query_mat := active_class_discovery data n_constraints min_samples in
      mret (query_mat, None)
    else if String.eqb method "mmffqs" then
      let! (query_mat, clus_label) := MMFFQS data labels n_constraints in
      mret (query_mat, Some (all_pairwise clus_label))
    else if String.eqb method "ffqs" then
      let! (query_mat, clus_label) := FFQS data labels n_constraints in
      mret (query_mat, Some (all_pairwise clus_label))
    else if String.eqb method "rand" then
      let! n := lift (shape_dim n_constraints) in
      let! query_mat := randint_pairs N n in
      mret (query_mat, None)
    else raise (AssertionError "no such method") in
  let! constraint_mat := assemble labels n_constraints err_rate query_mat in
  mret (constraint_mat, big_constraint_mat).

(** ** Vocabulary of the properties *)

(** What a returned row says: entries 0 and 1 are a pair of points, and
    the last entry is [v] applied to the truth of "same class". *)
Definition row_reports (labels : list Z) (v : bool → Z) (row : list Z) : Prop :=
  ∃ i j li lj,
    row !! 0 = Some i ∧ row !! 1 = Some j ∧
    getitem labels i = Ok li ∧ getitem labels j = Ok lj ∧
    last row = Some (v (bool_decide (li = lj))).

(** ** Concrete inputs *)

(** Points on a line: distances are the gaps, affinities [1 / (1 + gap)];
    equal keys are sorted as the merge sort leaves them. *)
Definition line_data (xs : list Z) (ch : list (nat * nat)) : dataset :=
  let gap i j := Z.abs (default 0%Z (xs !! i) - default 0%Z (xs !! j)) in
  Dataset (length xs)
    (λ i j, inject_Z (gap i j))
    (λ i j, (1 # Pos.succ (Z.to_pos (gap i j)))%Q)
    ch
    (λ _, []).

(** A fresh world whose random source plays the given draws, then zeros. *)
Definition world_of (draws : list nat) : world :=
  World (λ k, default 0 (draws !! k)) 0 [].

Definition two_pairs : dataset := line_data [0; 1; 10; 11]%Z [(0, 1); (2, 3); (4, 5)].

Definition known_methods : list string := ["rand"; "ffqs"; "mmffqs"; "acd"].

(** A row [i, j] of point indices of a dataset of [N] points. *)
Definition pair_row (N : nat) (row : list Z) : Prop :=
  ∃ i j, row = [Z.of_nat i; Z.of_nat j] ∧ i < N ∧ j < N.

(** A row that starts with two point indices of a dataset of [N] points. *)
Definition starts_with_pair (N : nat) (row : list Z) : Prop :=
  ∃ i j, row !! 0 = Some (Z.of_nat i) ∧ row !! 1 = Some (Z.of_nat j) ∧ i < N ∧ j < N.

(** A row that ends with a link, 0 or 1. *)
Definition ends_with_link (row : list Z) : Prop :=
  last row = Some 0%Z ∨ last row = Some 1%Z.

(** Two points with the same nonzero neighbourhood label have the same
    true label. *)
Definition class_pure (labels : list Z) (nbr : list nat) : Prop :=
  ∀ p q c, nbr !! p = Some c → nbr !! q = Some c → c ≠ 0 →
    labels !! p = labels !! q.

(** The first member of neighbourhood [c], [ind[nbr_label == c][0]]. *)
Definition first_member (nbr : list nat) (c : nat) : option nat :=
  head (ind_where (λ x, x = c) nbr).

(** What one run of the inner [while] of FFQS, started at neighbourhood
    [k] with no match yet, leaves behind. *)
Record scan_post (labels : list Z) (n : nat) (nbr : list nat) (p k qc : nat)
    (mat : matrix) (c' : bool) (k' qc' : nat) (mat' : matrix) : Prop := ScanPost {
  sp_counts : k ≤ k' ∧ qc' = qc + (k' - k);
  sp_bound : k ≤ max_list nbr + 1 → k' ≤ max_list nbr + 1;
  sp_length : length mat' = length mat;
  sp_cols : Forall (λ row, length row = 3) mat → Forall (λ row, length row = 3) mat';
  sp_frame : ∀ r, r < qc ∨ qc' ≤ r ∨ n ≤ r → mat' !! r = mat !! r;
  sp_rows : ∀ j, k ≤ j < k' →
    ∃ rep lp lr, first_member nbr j = Some rep ∧
      labels !! p = Some lp ∧ labels !! rep = Some lr ∧
      (lp = lr ↔ c' = true ∧ S j = k') ∧
      (qc + (j - k) < n →
         mat' !! (qc + (j - k)) =
           Some [Z.of_nat p; Z.of_nat rep; Z_of_bool (bool_decide (lp = lr))]);
  sp_same : c' = true → k < k';
  sp_all : c' = false → max_list nbr < k'
}.

(** The number of distinct nonzero values of a label vector. *)
Definition distinct_nonzero (nbr : list nat) : nat :=
  length (remove_dups (filter (λ c, c ≠ 0) nbr)).

(** The states of the outer [while] of FFQS that a run from the seed
    [seed] passes through. *)
Inductive ffqs_reach (data : dataset) (labels : list Z) (n seed : nat)
    : ffqs_state → Prop :=
| reach_init : ffqs_reach data labels n seed (ffqs_init labels seed n)
| reach_turn s s' :
    ffqs_reach data labels n seed s →
    ffqs_guard n s = true →
    ffqs_body data labels n (length (remove_dups labels)) s = Ok s' →
    ffqs_reach data labels n seed s'.

(** What holds of every state of the run. *)
Record ffqs_inv (labels : list Z) (n seed : nat) (s : ffqs_state) : Prop := FfqsInv {
  fi_len : length (nbr_label s) = length labels;
  fi_seed : nbr_label s !! seed = Some 1;
  fi_rows : length (constraint_mat s) = n;
  fi_cols : Forall (λ row, length row = 3) (constraint_mat s);
  fi_pure : class_pure labels (nbr_label s);
  fi_distinct : ∀ p q c c', nbr_label s !! p = Some c → nbr_label s !! q = Some c' →
    c ≠ 0 → c' ≠ 0 → labels !! p = labels !! q → c = c';
  fi_hoods : ∀ c, 1 ≤ c ≤ max_list (nbr_label s) → ∃ q, nbr_label s !! q = Some c;
  fi_count : max_list (nbr_label s) ≤ S (quer_cnt s) ∧ max_list (nbr_label s) ≤ S n;
  fi_zero : ∀ r, quer_cnt s ≤ r < n → constraint_mat s !! r = Some [0; 0; 0]%Z
}.

(** The turn that starts in [s] places the unassigned point [p] into the
    existing neighbourhood [L]: the first member [q] of [L] answered
    "same", after [L] queries, and the row of that answer is at its place
    in [mat] when the budget reached that far. *)
Definition joins (labels : list Z) (n : nat) (s : ffqs_state) (mat : matrix)
    (p L : nat) : Prop :=
  ∃ q, first_member (nbr_label s) L = Some q ∧
    nbr_label s !! q = Some L ∧
    labels !! p = labels !! q ∧
    (quer_cnt s + L ≤ n →
       mat !! (quer_cnt s + L - 1) = Some [Z.of_nat p; Z.of_nat q; 1%Z]).

(** The turn that starts in [s] opens the next neighbourhood for [p]: no
    assigned point has the class of [p]. *)
Definition founds (labels : list Z) (s : ffqs_state) (p L : nat) : Prop :=
  L = max_list (nbr_label s) + 1 ∧
  ∀ q c, nbr_label s !! q = Some c → c ≠ 0 → labels !! p ≠ labels !! q.

(** What one turn of FFQS does, from [s] to [s']. *)
Record ffqs_turn (labels : list Z) (n : nat) (s s' : ffqs_state) (p L : nat)
    : Prop := FfqsTurn {
  ft_new : nbr_label s !! p = Some 0;
  ft_nbr : nbr_label s' = <[p := L]> (nbr_label s);
  ft_label : L ≠ 0;
  ft_progress : quer_cnt s < quer_cnt s';
  ft_frame : ∀ r, r < quer_cnt s → constraint_mat s' !! r = constraint_mat s !! r;
  ft_placed :
    (joins labels n s (constraint_mat s') p L ∧ quer_cnt s' = quer_cnt s + L) ∨
    founds labels s p L
}.

(** One turn of the run from [seed], the turn from [s] to [s'], placed the
    point [p]: it found [p] unassigned and left it with the label [L],
    every other point as it was.  On that turn [p] either joined [L] on a
    "same" answer (recorded in [mat] when within budget) or opened it. *)
Definition placed_in_run (data : dataset) (labels : list Z) (n seed : nat)
    (mat : matrix) (p L : nat) : Prop :=
  ∃ s s', ffqs_reach data labels n seed s ∧ ffqs_guard n s = true ∧
    ffqs_body data labels n (length (remove_dups labels)) s = Ok s' ∧
    nbr_label s !! p = Some 0 ∧
    nbr_label s' = <[p := L]> (nbr_label s) ∧
    (joins labels n s mat p L ∨ founds labels s p L).

(** The same, with what is needed to carry it through later turns. *)
Definition ffqs_history (data : dataset) (labels : list Z) (n seed : nat)
    (cur : ffqs_state) : Prop :=
  ∀ p L, p ≠ seed → nbr_label cur !! p = Some L → L ≠ 0 →
    ∃ s s', ffqs_reach data labels n seed s ∧ ffqs_guard n s = true ∧
      ffqs_body data labels n (length (remove_dups labels)) s = Ok s' ∧
      nbr_label s !! p = Some 0 ∧
      nbr_label s' = <[p := L]> (nbr_label s) ∧
      ((joins labels n s (constraint_mat cur) p L ∧ quer_cnt s + L ≤ quer_cnt cur) ∨
       founds labels s p L).

(** The selected merges come by decreasing smaller side. *)
Definition decreasing_sizes (sizes sel : list nat) : Prop :=
  ∀ i j a b, i < j → sel !! i = Some a → sel !! j = Some b →
    default 0 (sizes !! b) ≤ default 0 (sizes !! a).

(** A merge that the [min_samples] filter keeps: its smaller side has at
    least [min_samples] points; every merge, when no [min_samples] is
    given. *)
Definition kept (sizes : list nat) (min_samples : option Z) (idx : nat) : Prop :=
  ∃ sz, sizes !! idx = Some sz ∧ ∀ m, min_samples = Some m → (m ≤ Z.of_nat sz)%Z.

(** [sel] is a choice of the [n] largest kept merges: kept merges only and
    none of them twice; [n] of them, or all there are when they are fewer;
    and no kept merge that is left out is larger than one that is taken. *)
Record largest_kept (sizes : list nat) (min_samples : option Z) (n : nat)
    (sel : list nat) : Prop := LargestKept {
  lk_nodup : NoDup sel;
  lk_kept : ∀ idx, idx ∈ sel → kept sizes min_samples idx;
  lk_count : length sel = n ∨
             (length sel < n ∧ ∀ idx, kept sizes min_samples idx → idx ∈ sel);
  lk_top : ∀ a b, a ∈ sel → kept sizes min_samples b → b ∉ sel →
    default 0 (sizes !! b) ≤ default 0 (sizes !! a)
}.

(** Seven points on a line, in the groups 0-3 and 4-6; the merges have the
    smaller sides 1, 1, 1, 1, 2 and 3. *)
Definition seven_on_a_line : dataset :=
  line_data [0; 1; 4; 5; 20; 21; 23]%Z
    [(0, 1); (2, 3); (4, 5); (6, 9); (7, 8); (10, 11)].

(** A world whose random source always draws 1. *)
Definition world_of_ones : world := World (λ _, 1) 0 [].

(** The states of the [while] of MMFFQS that can follow [s0], whatever the
    random source draws. *)
Inductive mm_reach (data : dataset) (labels : list Z) (n : nat) (clus : list nat)
    (s0 : mm_state) : mm_state → Prop :=
| mm_reach_init : mm_reach data labels n clus s0 s0
| mm_reach_turn s s' w w' :
    mm_reach data labels n clus s0 s →
    mm_body data labels n clus s w = (Ok s', w') →
    mm_reach data labels n clus s0 s'.

(** Every nonzero label of [cl'] is a label of [cl]. *)
Definition no_new_label (cl cl' : list nat) : Prop :=
  ∀ x c, cl' !! x = Some c → c ≠ 0 → ∃ y, cl !! y = Some c.

(** Five points on a line, FFQS seeded at point 1. *)
Definition five_on_a_line : dataset := line_data [50; 0; 100; 25; 10]%Z [].

(** The loops of the model are bounded by a count of turns; a result is
    fuel-free when it is not the exhaustion of that count. *)
Definition fuel_free {A} (r : result A) : Prop := r ≠ Err OutOfFuel.

(** A merge tree as the agglomerative clustering of [N] points yields it:
    [N - 1] merges, the [i]-th of two nodes among the points and the
    earlier merges. *)
Definition valid_children (N : nat) (ch : list (nat * nat)) : Prop :=
  length ch = N - 1 ∧
  ∀ i g1 g2, ch !! i = Some (g1, g2) → g1 < N + i ∧ g2 < N + i.

(** A row that records one query of FFQS: a point [p] against another
    point [q], both assigned in [nbr], with the oracle's true answer. *)
Definition query_row (labels : list Z) (nbr : list nat) (row : list Z) : Prop :=
  ∃ p q lp lq,
    row = [Z.of_nat p; Z.of_nat q; Z_of_bool (bool_decide (lp = lq))] ∧ p ≠ q ∧
    labels !! p = Some lp ∧ labels !! q = Some lq ∧
    (∃ cp, nbr !! p = Some cp ∧ cp ≠ 0) ∧ (∃ cq, nbr !! q = Some cq ∧ cq ≠ 0).

(** The rows below the query counter are query rows. *)
Definition rows_recorded (labels : list Z) (s : ffqs_state) : Prop :=
  ∀ r row, r < quer_cnt s → constraint_mat s !! r = Some row →
    query_row labels (nbr_label s) row.

(** [np.setdiff1d(np.unique(nbr_label), [0]).size], the count that FFQS
    compares with the number of classes. *)
Definition unique_nbr_size (nbr : list nat) : nat :=
  length (filter (λ c, c ≠ 0) (np_unique nbr)).

(** A row [i, j, answer] whose first two entries are point indices of a
    dataset of [N] points. *)
Definition triple_row (N : nat) (row : list Z) : Prop :=
  ∃ i j l, row = [Z.of_nat i; Z.of_nat j; l] ∧ i < N ∧ j < N.

(** Among the labelled points, equal true labels force equal
    neighbourhood labels. *)
Definition one_hood_per_class (labels : list Z) (nbr : list nat) : Prop :=
  ∀ p q c c', nbr !! p = Some c → nbr !! q = Some c' → c ≠ 0 → c' ≠ 0 →
    labels !! p = labels !! q → c = c'.

(** * Properties *)

(** ** Reasoning about the monads *)

Lemma rbind_Ok {A B} (r : result A) (k : A → result B) b :
  rbind r k = Ok b → ∃ a, r = Ok a ∧ k a = Ok b.
Proof. destruct r as [a|e]; simpl; [eauto | discriminate]. Qed.

Lemma mbind_Ok {A B} (m : M A) (k : A → M B) w b w' :
  mbind m k w = (Ok b, w') → ∃ a w1, m w = (Ok a, w1) ∧ k a w1 = (Ok b, w').
Proof.
  unfold mbind. destruct (m w) as [[a|e] w1]; [eauto | discriminate].
Qed.

Lemma lift_Ok {A} (r : result A) w a w' :
  lift r w = (Ok a, w') → r = Ok a ∧ w' = w.
Proof. unfold lift. intros [= -> ->]. done. Qed.

Lemma mret_Ok {A} (a : A) w b w' : mret a w = (Ok b, w') → b = a ∧ w' = w.
Proof. unfold mret. intros [= -> ->]. done. Qed.

Lemma mapM_Ok_length {A B} (f : A → result B) l ys :
  mapM f l = Ok ys → length ys = length l.
Proof.
  revert ys. induction l as [|x l IH]; simpl; intros ys H.
  - by injection H as <-.
  - apply rbind_Ok in H as (y & _ & H). apply rbind_Ok in H as (ys' & Hys & H).
    injection H as <-. simpl. f_equal. eauto.
Qed.

Lemma mapM_Ok_lookup {A B} (f : A → result B) l ys i x :
  mapM f l = Ok ys → l !! i = Some x → ∃ y, ys !! i = Some y ∧ f x = Ok y.
Proof.
  revert ys i. induction l as [|x0 l IH]; simpl; intros ys i H Hi; [done|].
  apply rbind_Ok in H as (y & Hy & H). apply rbind_Ok in H as (ys' & Hys & H).
  injection H as <-. destruct i as [|i]; simpl in *.
  - injection Hi as ->. eauto.
  - eauto.
Qed.

(** ** The assembler: oracle answers and noise *)

Lemma flip_complement l : l = 0%Z ∨ l = 1%Z → flip l = (1 - l)%Z.
Proof. by intros [-> | ->]. Qed.

Lemma random_sample_range w u w' :
  random_sample w = (Ok u, w') → (0 <= u)%Q ∧ (u < 1)%Q.
Proof.
  unfold random_sample. intros [= <- <-].
  pose proof (Z.mod_pos_bound (Z.of_nat (tape w (pos w))) (2 ^ 53)%Z ltac:(done)) as [H0 H1].
  unfold Qle, Qlt. simpl. split; [lia|].
  rewrite Z.mul_1_r. exact H1.
Qed.

Lemma bernoulli_draws_run err n w :
  ∃ bs w', bernoulli_draws err n w = (Ok bs, w') ∧ length bs = n ∧
    ((err == 0)%Q → bs = replicate n false) ∧
    ((err == 1)%Q → bs = replicate n true).
Proof.
  revert w. induction n as [|n IH]; intros w; simpl.
  - exists [], w. done.
  - unfold mbind at 1.
    destruct (random_sample w) as [[u|e] w1] eqn:Hu; [|discriminate Hu].
    apply random_sample_range in Hu as [Hu0 Hu1].
    unfold mbind at 1. destruct (IH w1) as (bs & w2 & -> & Hlen & Hz & Ho).
    eexists _, _. split; [reflexivity|]. simpl. split; [by f_equal|]. split.
    + intros He. rewrite (Hz He). f_equal.
      destruct (Qle_bool (1 - err) u) eqn:Hle; [|done].
      apply Qle_bool_iff in Hle. lra.
    + intros He. rewrite (Ho He). f_equal.
      apply Qle_bool_iff. lra.
Qed.

Lemma choice2_Ok n err w bs w' :
  choice2 n err w = (Ok bs, w') →
  ((err == 0)%Q → bs = replicate (length bs) false) ∧
  ((err == 1)%Q → bs = replicate (length bs) true).
Proof.
  unfold choice2. intros H. apply mbind_Ok in H as (k & w1 & Hk & H).
  destruct (Qle_bool 0 err && Qle_bool err 1); [|discriminate H].
  destruct (bernoulli_draws_run err k w1) as (bs' & w2 & Hb & Hlen & Hz & Ho).
  rewrite Hb in H. injection H as <- <-. rewrite Hlen. done.
Qed.

Lemma flip_masked_none n link link' :
  flip_masked (replicate n false) link = Ok link' → link' = link.
Proof.
  unfold flip_masked. case_decide as Hlen; [|discriminate]. intros [= <-].
  rewrite length_replicate in Hlen. subst n.
  induction link as [|l link IH]; simpl; [done|]. by f_equal.
Qed.

Lemma flip_masked_all n link link' :
  flip_masked (replicate n true) link = Ok link' → link' = flip <$> link.
Proof.
  unfold flip_masked. case_decide as Hlen; [|discriminate]. intros [= <-].
  rewrite length_replicate in Hlen. subst n.
  induction link as [|l link IH]; simpl; [done|]. by f_equal.
Qed.

Lemma true_link_Ok labels row t :
  true_link labels row = Ok t →
  ∃ i j li lj, row !! 0 = Some i ∧ row !! 1 = Some j ∧
    getitem labels i = Ok li ∧ getitem labels j = Ok lj ∧
    t = Z_of_bool (bool_decide (li = lj)).
Proof.
  unfold true_link, at_index. intros H.
  apply rbind_Ok in H as (i & Hi & H). apply rbind_Ok in H as (j & Hj & H).
  apply rbind_Ok in H as (li & Hli & H). apply rbind_Ok in H as (lj & Hlj & H).
  injection H as <-.
  destruct (row !! 0) as [i'|] eqn:E0; [|discriminate]. injection Hi as ->.
  destruct (row !! 1) as [j'|] eqn:E1; [|discriminate]. injection Hj as ->.
  by exists i, j, li, lj.
Qed.

Lemma append_col_lookup query_mat link r row :
  append_col query_mat link !! r = Some row →
  ∃ q l, query_mat !! r = Some q ∧ link !! r = Some l ∧ row = q ++ [l].
Proof.
  unfold append_col. rewrite lookup_zip_with_Some.
  intros (q & l & -> & ? & ?). eauto.
Qed.

Lemma assemble_rows labels n err query_mat w cm w' :
  assemble labels n err query_mat w = (Ok cm, w') →
  ((err == 0)%Q → Forall (row_reports labels Z_of_bool) cm) ∧
  ((err == 1)%Q → Forall (row_reports labels (λ b, (1 - Z_of_bool b)%Z)) cm).
Proof.
  unfold assemble. intros H.
  apply mbind_Ok in H as (link & w1 & Hlink & H). apply lift_Ok in Hlink as [Hlink ->].
  apply mbind_Ok in H as (bs & w2 & Hbs & H). apply choice2_Ok in Hbs as [Hz Ho].
  apply mbind_Ok in H as (link' & w3 & Hf & H). apply lift_Ok in Hf as [Hf ->].
  apply mret_Ok in H as [-> _].
  assert (Hrow : ∀ r row, append_col query_mat link' !! r = Some row →
            ∃ q l t, link' !! r = Some l ∧ link !! r = Some t ∧ row = q ++ [l] ∧
              ∃ i j li lj, q !! 0 = Some i ∧ q !! 1 = Some j ∧
                getitem labels i = Ok li ∧ getitem labels j = Ok lj ∧
                t = Z_of_bool (bool_decide (li = lj))).
  { intros r row Hr. apply append_col_lookup in Hr as (q & l & Hq & Hl & ->).
    destruct (mapM_Ok_lookup _ _ _ _ _ Hlink Hq) as (t & Ht & Htl).
    exists q, l, t. repeat split; try done. by apply true_link_Ok. }
  split; intros He; apply Forall_lookup; intros r row Hr;
    destruct (Hrow r row Hr) as (q & l & t & Hl & Ht & -> & i & j & li & lj & H0 & H1 & Hi & Hj & ->);
    exists i, j, li, lj.
  - rewrite (Hz He) in Hf. apply flip_masked_none in Hf as ->.
    rewrite Ht in Hl. injection Hl as <-.
    rewrite !lookup_app_l by (by eapply lookup_lt_Some).
    rewrite last_snoc. done.
  - rewrite (Ho He) in Hf. apply flip_masked_all in Hf as ->.
    rewrite list_lookup_fmap, Ht in Hl. injection Hl as <-.
    rewrite !lookup_app_l by (by eapply lookup_lt_Some).
    rewrite last_snoc. repeat split; try done.
    f_equal. apply flip_complement. destruct (bool_decide (li = lj)); auto.
Qed.

Lemma get_constraints_Ok data labels method n err ms w cm big w' :
  get_constraints data labels method n err ms w = (Ok (cm, big), w') →
  ∃ n' query_mat w1, assemble labels n' err query_mat w1 = (Ok cm, w').
Proof.
  unfold get_constraints. intros H.
  apply mbind_Ok in H as (_ & w1 & _ & H).
  apply mbind_Ok in H as ([query_mat big'] & w2 & _ & H).
  apply mbind_Ok in H as (cm' & w3 & Ha & H).
  apply mret_Ok in H as [[= -> ->] ->]. eauto.
Qed.

(** C2.  The flip [2 - 2^link] is the complement [1 - link] on a link that
    is 0 or 1.  Hence whenever [get_constraints] returns, with an error
    rate of 0 the last entry of every row is the truth of "the two points
    of the row have the same label", and with an error rate of 1 it is the
    complement of that truth. *)
Theorem noise_extremes data labels method n err ms w cm big w' :
  get_constraints data labels method n err ms w = (Ok (cm, big), w') →
  (∀ l, l = 0%Z ∨ l = 1%Z → flip l = (1 - l)%Z) ∧
  ((err == 0)%Q → Forall (row_reports labels Z_of_bool) cm) ∧
  ((err == 1)%Q → Forall (row_reports labels (λ b, (1 - Z_of_bool b)%Z)) cm).
Proof.
  intros H. split; [apply flip_complement|].
  apply get_constraints_Ok in H as (n' & query_mat & w1 & H).
  by apply assemble_rows in H.
Qed.

Lemma noise_extremes_witness :
  Forall (row_reports [7; 7; 8; 8]%Z Z_of_bool)
    [[1; 2; 0]; [3; 0; 0]; [1; 1; 1]]%Z ∧
  Forall (row_reports [7; 7; 8; 8]%Z (λ b, (1 - Z_of_bool b)%Z))
    [[3; 1; 1]; [0; 1; 0]; [2; 3; 0]]%Z.
Proof.
  split.
  - eapply (noise_extremes two_pairs [7; 7; 8; 8]%Z "rand" (Some (PyInt 3)) 0%Q None
              (world_of [1; 2; 3; 0; 1; 1]) _ None _).
    + vm_compute. reflexivity.
    + reflexivity.
  - eapply (noise_extremes two_pairs [7; 7; 8; 8]%Z "mmffqs" (Some (PyInt 3)) 1%Q None
              (world_of [1]) _ _ _).
    + vm_compute. reflexivity.
    + reflexivity.
Defined.

(** ** Unknown strategy names *)

Lemma unknown_method_eqb method :
  method ∉ known_methods →
  String.eqb method "acd" = false ∧ String.eqb method "mmffqs" = false ∧
  String.eqb method "ffqs" = false ∧ String.eqb method "rand" = false.
Proof.
  unfold known_methods. intros H.
  repeat split; apply String.eqb_neq; intros ->; apply H; repeat constructor.
Qed.

(** C5, as the code has it.  An unknown strategy name makes the call fail
    with the assertion "no such method", after the pairwise distances were
    computed and before anything else: no strategy runs, no random number
    is drawn. *)
Theorem unknown_method_fails_after_pdist data labels method n err ms w :
  method ∉ known_methods →
  get_constraints data labels method n err ms w =
    (Err (AssertionError "no such method"),
     World (tape w) (pos w) (trace w ++ [EvPdist])).
Proof.
  intros H. apply unknown_method_eqb in H as (Ha & Hm & Hf & Hr).
  unfold get_constraints, mbind, emit. simpl. rewrite Ha, Hm, Hf, Hr. reflexivity.
Qed.

Lemma unknown_method_fails_after_pdist_witness :
  get_constraints two_pairs [7; 7; 8; 8]%Z "kmeans" (Some (PyInt 3)) 0%Q None (world_of []) =
    (Err (AssertionError "no such method"),
     World (tape (world_of [])) 0 [EvPdist]).
Proof.
  apply (unknown_method_fails_after_pdist two_pairs [7; 7; 8; 8]%Z "kmeans"
           (Some (PyInt 3)) 0%Q None (world_of [])).
  unfold known_methods. intros H. repeat (apply elem_of_cons in H as [H | H]; [discriminate H|]).
  by apply elem_of_nil in H.
Defined.

(** C5 as stated fails: the failing call does not leave the world as it
    found it, the distance computation has been made. *)
Lemma unknown_method_not_before_any_computation :
  ¬ (∀ data labels method n err ms w,
       method ∉ known_methods →
       ∃ e, get_constraints data labels method n err ms w = (Err e, w)).
Proof.
  intros H.
  destruct (H two_pairs [7; 7; 8; 8]%Z "kmeans" (Some (PyInt 3)) 0%Q None (world_of []))
    as [e He].
  - unfold known_methods. intros Hin.
    repeat (apply elem_of_cons in Hin as [Hin | Hin]; [discriminate Hin|]).
    by apply elem_of_nil in Hin.
  - vm_compute in He. discriminate He.
Qed.

(** ** Totality of the baseline and of the assembler *)

Lemma randint_run lo hi w :
  lo < hi →
  ∃ v, randint lo hi w = (Ok v, World (tape w) (S (pos w)) (trace w)) ∧ lo ≤ v < hi.
Proof.
  intros H. unfold randint. case_decide; [|lia].
  eexists. split; [reflexivity|].
  pose proof (Nat.mod_upper_bound (tape w (pos w)) (hi - lo)). lia.
Qed.

Lemma randint_pairs_run hi rows w :
  0 < hi →
  ∃ qm w', randint_pairs hi rows w = (Ok qm, w') ∧ length qm = rows ∧
    Forall (pair_row hi) qm ∧ tape w' = tape w ∧ trace w' = trace w.
Proof.
  intros Hhi. revert w. induction rows as [|r IH]; intros w; simpl.
  - exists [], w. by repeat split.
  - destruct (randint_run 0 hi w Hhi) as (i & Hi & Hir).
    unfold mbind at 1. rewrite Hi.
    destruct (randint_run 0 hi (World (tape w) (S (pos w)) (trace w)) Hhi) as (j & Hj & Hjr).
    unfold mbind at 1. rewrite Hj. simpl.
    destruct (IH (World (tape w) (S (S (pos w))) (trace w))) as (qm & w' & Hq & Hlen & Hrows & Ht & Htr).
    unfold mbind at 1. rewrite Hq. unfold mret.
    eexists _, _. split; [reflexivity|]. simpl. repeat split; try done; [by f_equal|].
    constructor; [|done]. exists i, j. repeat split; lia.
Qed.

Lemma getitem_nat {A} (l : list A) i :
  i < length l → ∃ x, getitem l (Z.of_nat i) = Ok x ∧ l !! i = Some x.
Proof.
  intros Hi. unfold getitem.
  destruct (Z.ltb_spec (Z.of_nat i) 0) as [?|_]; [lia|].
  destruct (Z.ltb_spec (Z.of_nat i) 0) as [?|_]; [lia|].
  rewrite Nat2Z.id. destruct (lookup_lt_is_Some_2 l i Hi) as [x Hx].
  rewrite Hx. eauto.
Qed.

Lemma true_link_run labels row :
  starts_with_pair (length labels) row →
  ∃ t, true_link labels row = Ok t ∧ (t = 0%Z ∨ t = 1%Z).
Proof.
  intros (i & j & H0 & H1 & Hi & Hj). unfold true_link, at_index.
  rewrite H0, H1. simpl.
  destruct (getitem_nat labels i Hi) as (li & -> & _).
  destruct (getitem_nat labels j Hj) as (lj & -> & _). simpl.
  eexists. split; [reflexivity|]. destruct (bool_decide (li = lj)); auto.
Qed.

Lemma mapM_run {A B} (f : A → result B) (P : A → Prop) (Q : B → Prop) l :
  (∀ x, P x → ∃ y, f x = Ok y ∧ Q y) → Forall P l →
  ∃ ys, mapM f l = Ok ys ∧ Forall Q ys.
Proof.
  intros Hf. induction 1 as [|x l Hx _ IH]; simpl.
  - by exists [].
  - destruct (Hf x Hx) as (y & -> & Hy). destruct IH as (ys & -> & Hys).
    simpl. exists (y :: ys). split; [done|]. by constructor.
Qed.

Lemma flip_masked_run error_ind link :
  length error_ind = length link → Forall (λ l, l = 0%Z ∨ l = 1%Z) link →
  ∃ link', flip_masked error_ind link = Ok link' ∧ length link' = length link ∧
    Forall (λ l, l = 0%Z ∨ l = 1%Z) link'.
Proof.
  intros Hlen Hl. unfold flip_masked. case_decide; [|done].
  eexists. split; [reflexivity|]. clear H.
  revert error_ind Hlen. induction Hl as [|l link Hl0 _ IH]; intros [|e es] Hlen;
    simpl in *; try done.
  injection Hlen as Hlen. destruct (IH es Hlen) as [IH1 IH2].
  split; [by f_equal|]. constructor; [|done].
  destruct e; [|done]. destruct Hl0 as [-> | ->]; auto.
Qed.

Lemma choice2_run n err w :
  (0 <= err)%Q → (err <= 1)%Q →
  ∃ bs w', choice2 (PyInt (Z.of_nat n)) err w = (Ok bs, w') ∧ length bs = n ∧
    tape w' = tape w ∧ trace w' = trace w.
Proof.
  intros H0 H1. unfold choice2, mbind, lift, shape_dim.
  destruct (Z.ltb_spec (Z.of_nat n) 0) as [?|_]; [lia|]. rewrite Nat2Z.id.
  apply Qle_bool_iff in H0, H1. rewrite H0, H1. simpl.
  clear H0 H1. revert w. induction n as [|n IH]; intros w; simpl.
  - exists [], w. done.
  - unfold mbind, random_sample. 
    destruct (IH (World (tape w) (S (pos w)) (trace w))) as (bs & w' & -> & Hlen & Ht & Htr).
    eexists _, _. split; [reflexivity|]. simpl. by rewrite Hlen.
Qed.

Lemma assemble_run labels n err query_mat w :
  (0 <= err)%Q → (err <= 1)%Q → length query_mat = n →
  Forall (starts_with_pair (length labels)) query_mat →
  ∃ cm w', assemble labels (PyInt (Z.of_nat n)) err query_mat w = (Ok cm, w') ∧
    length cm = n ∧ Forall ends_with_link cm ∧
    (∀ r row, cm !! r = Some row → ∃ q, query_mat !! r = Some q ∧ length row = S (length q)) ∧
    trace w' = trace w.
Proof.
  intros H0 H1 Hlen Hrows. unfold assemble.
  destruct (mapM_run (true_link labels) _ (λ l, l = 0%Z ∨ l = 1%Z) query_mat
              (true_link_run labels) Hrows) as (link & Hlink & Hl).
  unfold mbind at 1. unfold lift at 1. rewrite Hlink.
  destruct (choice2_run n err w H0 H1) as (bs & w' & Hbs & Hbl & Ht & Htr).
  unfold mbind at 1. rewrite Hbs.
  pose proof (mapM_Ok_length _ _ _ Hlink) as Hll.
  destruct (flip_masked_run bs link ltac:(lia) Hl) as (link' & Hf & Hfl & Hl').
  unfold mbind, lift, mret. rewrite Hf.
  eexists _, _. split; [reflexivity|].
  assert (Hr : ∀ r row, append_col query_mat link' !! r = Some row →
            ∃ q l, query_mat !! r = Some q ∧ link' !! r = Some l ∧ row = q ++ [l])
    by apply append_col_lookup.
  repeat split; try done.
  - unfold append_col. rewrite length_zip_with. lia.
  - apply Forall_lookup. intros r row Hrow.
    destruct (Hr r row Hrow) as (q & l & _ & Hl1 & ->).
    unfold ends_with_link. rewrite last_snoc.
    rewrite Forall_lookup in Hl'. destruct (Hl' r l Hl1) as [-> | ->]; auto.
  - intros r row Hrow. destruct (Hr r row Hrow) as (q & l & Hq & _ & ->).
    exists q. split; [done|]. rewrite length_app. simpl. lia.
Qed.

Lemma pair_row_starts N row : pair_row N row → starts_with_pair N row.
Proof. intros (i & j & -> & ? & ?). by exists i, j. Qed.

Lemma get_constraints_rand_run data labels n err ms w :
  0 < length labels → (0 <= err)%Q → (err <= 1)%Q →
  ∃ cm w', get_constraints data labels "rand" (Some (PyInt (Z.of_nat n))) err ms w
             = (Ok (cm, None), w') ∧
    length cm = n ∧ Forall (λ row, length row = 3) cm ∧ Forall ends_with_link cm.
Proof.
  intros HN H0 H1. unfold get_constraints. simpl String.eqb. cbv iota.
  unfold mbind at 1. unfold emit at 1.
  unfold mbind at 1. unfold mbind at 1. unfold lift at 1. unfold shape_dim.
  destruct (Z.ltb_spec (Z.of_nat n) 0) as [?|_]; [lia|]. rewrite Nat2Z.id.
  destruct (randint_pairs_run (length labels) n
              (World (tape w) (pos w) (trace w ++ [EvPdist])) HN)
    as (qm & w1 & Hq & Hlen & Hrows & _ & _).
  unfold mbind at 1. rewrite Hq. unfold mret at 1.
  destruct (assemble_run labels n err qm w1 H0 H1 Hlen) as (cm & w' & Ha & Hcl & Hlink & Hcols & _).
  { eapply Forall_impl; [exact Hrows|]. apply pair_row_starts. }
  unfold mbind, mret. rewrite Ha.
  eexists _, _. split; [reflexivity|]. repeat split; try done.
  apply Forall_lookup. intros r row Hrow.
  destruct (Hcols r row Hrow) as (q & Hq' & ->).
  rewrite Forall_lookup in Hrows. by destruct (Hrows r q Hq') as (i & j & -> & _).
Qed.

(** ** Degenerate input *)

(** C6, as the code has it.  The assembler checks neither the number of
    points nor the number of classes: with the strategy [rand], an integer
    budget [n >= 0] and an error rate in [0, 1] it returns [n] constraints
    for every label vector of at least one point, a single point and a
    single class included. *)
Theorem degenerate_input_accepted data labels n err ms w :
  0 < length labels → (0 <= err)%Q → (err <= 1)%Q →
  ∃ cm w', get_constraints data labels "rand" (Some (PyInt (Z.of_nat n))) err ms w
             = (Ok (cm, None), w') ∧ length cm = n.
Proof.
  intros HN H0 H1.
  destruct (get_constraints_rand_run data labels n err ms w HN H0 H1)
    as (cm & w' & H & Hlen & _). eauto.
Qed.

Lemma degenerate_input_accepted_witness :
  ∃ cm w', get_constraints (line_data [5]%Z []) [7]%Z "rand" (Some (PyInt 2)) 0%Q None
             (world_of [])
           = (Ok (cm, None), w') ∧ length cm = 2.
Proof.
  apply (degenerate_input_accepted (line_data [5]%Z []) [7]%Z 2 0%Q None (world_of []));
    [simpl; lia | done | done].
Defined.

(** C6 as stated fails: a single-class label vector, and a dataset of one
    point, both get a constraint set back. *)
Lemma degenerate_input_not_rejected :
  ¬ (∀ data labels method n err ms w,
       length labels < 2 ∨ length (remove_dups labels) = 1 →
       ∃ e w', get_constraints data labels method n err ms w = (Err e, w')).
Proof.
  intros H.
  destruct (H two_pairs [7; 7; 7; 7]%Z "rand" (Some (PyInt 2)) 0%Q None (world_of [1; 2; 3]))
    as (e & w' & He).
  - right. reflexivity.
  - vm_compute in He. discriminate He.
Qed.

(** ** The default budget *)

Lemma shape_dim_float q : shape_dim (PyFloat q) = Err TypeError.
Proof. reflexivity. Qed.

Lemma FFQS_float data labels q w :
  ∃ e w', FFQS data labels (PyFloat q) w = (Err e, w').
Proof.
  unfold FFQS, mbind. destruct (randint 0 (length labels) w) as [[seed|e] w1]; eauto.
Qed.

(** C8 fails on the code: with [n_constraints] omitted the budget is the
    float [N/2], which numpy refuses as a dimension, and every call raises
    whatever the strategy and the data. *)
Theorem default_budget_raises data labels method err ms w :
  ∃ e w', get_constraints data labels method None err ms w = (Err e, w').
Proof.
  unfold get_constraints. unfold mbind at 1. unfold emit at 1.
  set (w0 := World (tape w) (pos w) (trace w ++ [EvPdist])).
  unfold mbind at 1. unfold true_div2.
  destruct (String.eqb method "acd").
  { unfold active_class_discovery, mbind, emit. simpl.
    case_decide; [unfold raise; eauto|]. unfold lift.
    destruct (merge_walk _ _ _); eauto. }
  destruct (String.eqb method "mmffqs").
  { unfold MMFFQS, mbind at 1. unfold mbind at 1. unfold emit at 1.
    unfold mbind at 1.
    destruct (FFQS_float data labels (Z.of_nat (length labels) # 2)
                (World (tape w0) (pos w0) (trace w0 ++ [EvAffinity]))) as (e & w' & ->). eauto. }
  destruct (String.eqb method "ffqs").
  { unfold mbind at 1.
    destruct (FFQS_float data labels (Z.of_nat (length labels) # 2) w0) as (e & w' & ->). eauto. }
  destruct (String.eqb method "rand").
  { unfold mbind, lift. simpl. eauto. }
  unfold raise. eauto.
Qed.

(** ** Farthest-first query search: the inner scan *)

Section FFQS_scan.
Variable data : dataset.
Variable labels : list Z.

Lemma ffqs_scan_unfold fuel n nbr p c k qc mat :
  ffqs_scan labels fuel n nbr p c k qc mat =
    if negb c && bool_decide (k ≤ max_list nbr) then
      match fuel with
      | 0 => Err OutOfFuel
      | S fuel' =>
          let* lp := at_index labels p in
          let* rep := at_index (ind_where (λ x, x = k) nbr) 0 in
          let* lr := at_index labels rep in
          let* mat' :=
            if decide (qc < n)
            then set_row mat qc [Z.of_nat p; Z.of_nat rep; Z_of_bool (bool_decide (lp = lr))]
            else Ok mat in
          ffqs_scan labels fuel' n nbr p (bool_decide (lp = lr)) (S k) (S qc) mat'
      end
    else Ok (c, k, qc, mat).
Proof. destruct fuel; reflexivity. Qed.

Lemma at_index_Ok {A} (l : list A) i x : at_index l i = Ok x → l !! i = Some x.
Proof. unfold at_index. destruct (l !! i); [by intros [= ->] | discriminate]. Qed.

Lemma set_row_Ok mat i row mat' :
  set_row mat i row = Ok mat' → i < length mat ∧ mat' = <[i := row]> mat.
Proof. unfold set_row. case_decide; [by intros [= <-] | discriminate]. Qed.

Lemma ffqs_scan_spec fuel n nbr p k qc mat c' k' qc' mat' :
  ffqs_scan labels fuel n nbr p false k qc mat = Ok (c', k', qc', mat') →
  scan_post labels n nbr p k qc mat c' k' qc' mat'.
Proof.
  revert k qc mat. induction fuel as [|fuel IH]; intros k qc mat;
    rewrite ffqs_scan_unfold; simpl negb; rewrite andb_true_l;
    case_bool_decide as Hk.
  - discriminate.
  - intros [= <- <- <- <-]. split; try done; try lia; intros; lia.
  - intros H. cbv zeta in H.
    apply rbind_Ok in H as (lp & Hlp & H). apply at_index_Ok in Hlp.
    apply rbind_Ok in H as (rep & Hrep & H). apply at_index_Ok in Hrep.
    apply rbind_Ok in H as (lr & Hlr & H). apply at_index_Ok in Hlr.
    apply rbind_Ok in H as (mat1 & Hmat1 & H).
    assert (Hm1 : length mat1 = length mat ∧
              (Forall (λ row, length row = 3) mat → Forall (λ row, length row = 3) mat1) ∧
              (∀ r, r ≠ qc ∨ n ≤ r → mat1 !! r = mat !! r) ∧
              (qc < n → mat1 !! qc =
                 Some [Z.of_nat p; Z.of_nat rep; Z_of_bool (bool_decide (lp = lr))])).
    { destruct (decide (qc < n)) as [Hq|Hq].
      - apply set_row_Ok in Hmat1 as [Hlt ->]. rewrite length_insert.
        repeat split; try done.
        + intros Hc. by apply Forall_insert.
        + intros r [Hr | Hr]; [|assert (r ≠ qc) by lia]; by rewrite list_lookup_insert_ne.
        + intros _. by apply list_lookup_insert_eq.
      - injection Hmat1 as <-. repeat split; try done; intros; lia. }
    destruct Hm1 as (Hlen1 & Hcols1 & Hframe1 & Hrow1).
    destruct (bool_decide (lp = lr)) eqn:Hans.
    + (* a "same" answer ends the scan *)
      rewrite ffqs_scan_unfold in H. simpl in H. injection H as <- <- <- <-.
      apply bool_decide_eq_true in Hans.
      split; try done; try lia.
      * intros r Hr. apply Hframe1. lia.
      * intros j Hj. assert (j = k) as -> by lia.
        exists rep, lp, lr. unfold first_member.
        rewrite head_lookup. repeat split; try done.
        replace (qc + (k - k)) with qc by lia. intros Hq.
        rewrite (Hrow1 Hq). by rewrite bool_decide_eq_true_2.
    + apply IH in H as [Hc Hb Hl Hcs Hf Hr Hs Ha].
      apply bool_decide_eq_false in Hans.
      split; try done; try lia.
      * intros Hc0. eauto.
      * intros r Hr'. rewrite Hf by lia. apply Hframe1. lia.
      * intros j Hj. destruct (decide (j = k)) as [->|Hjk].
        -- exists rep, lp, lr. unfold first_member. rewrite head_lookup.
           repeat split; try done.
           ++ intros [Hc' Hk']. specialize (Hs Hc'). lia.
           ++ replace (qc + (k - k)) with qc by lia. intros Hq.
              rewrite Hf by lia. rewrite (Hrow1 Hq). by rewrite bool_decide_eq_false_2.
        -- destruct (Hr j ltac:(lia)) as (rep' & lp' & lr' & H1 & H2 & H3 & H4 & H5).
           exists rep', lp', lr'. split_and!; try done.
           replace (qc + (j - k)) with (S qc + (j - S k)) by lia. done.
  - intros [= <- <- <- <-]. split; try done; try lia; intros; lia.
Qed.
End FFQS_scan.

(** ** Label vectors *)

Lemma elem_of_ind_where (P : nat → Prop) `{!∀ c, Decision (P c)} nbr i :
  i ∈ ind_where P nbr ↔ ∃ c, nbr !! i = Some c ∧ P c.
Proof.
  unfold ind_where. rewrite list_elem_of_filter, elem_of_seq. split.
  - intros [HP Hi]. destruct (lookup_lt_is_Some_2 nbr i ltac:(lia)) as [c Hc].
    rewrite Hc in HP. eauto.
  - intros (c & Hc & HP). rewrite Hc. split; [done|].
    apply lookup_lt_Some in Hc. lia.
Qed.

Lemma first_member_Some nbr c q : first_member nbr c = Some q → nbr !! q = Some c.
Proof.
  unfold first_member. rewrite head_lookup. intros H.
  apply list_elem_of_lookup_2, elem_of_ind_where in H as (c' & Hq & ->). done.
Qed.

Lemma first_member_is_Some nbr c q : nbr !! q = Some c → is_Some (first_member nbr c).
Proof.
  intros H. unfold first_member.
  assert (Hin : q ∈ ind_where (λ x, x = c) nbr) by (apply elem_of_ind_where; eauto).
  destruct (ind_where (λ x, x = c) nbr); [by apply elem_of_nil in Hin | by eexists].
Qed.

Lemma lookup_le_max_list nbr i c : nbr !! i = Some c → c ≤ max_list nbr.
Proof. intros H. by apply max_list_elem_of_le, list_elem_of_lookup_2 with i. Qed.

Lemma max_list_insert_zero nbr p v :
  nbr !! p = Some 0 → max_list (<[p := v]> nbr) = max_list nbr `max` v.
Proof.
  revert p. induction nbr as [|x nbr IH]; intros [|p]; simpl; try done.
  - intros [= ->]. lia.
  - intros H. rewrite (IH p H). lia.
Qed.

Lemma distinct_nonzero_le_max nbr : distinct_nonzero nbr ≤ max_list nbr.
Proof.
  unfold distinct_nonzero.
  trans (length (seq 1 (max_list nbr))); [|by rewrite length_seq].
  apply submseteq_length, NoDup_submseteq; [apply NoDup_remove_dups|].
  intros x. rewrite elem_of_remove_dups, list_elem_of_filter, elem_of_seq.
  intros [Hx Hin]. apply max_list_elem_of_le in Hin. lia.
Qed.

Lemma class_pure_insert labels nbr p L :
  nbr !! p = Some 0 → class_pure labels nbr →
  (∀ q, nbr !! q = Some L → labels !! p = labels !! q) →
  class_pure labels (<[p := L]> nbr).
Proof.
  intros Hp Hpure Hnew a b c Ha Hb Hc.
  pose proof (lookup_lt_Some _ _ _ Hp) as Hlt.
  destruct (decide (a = p)) as [->|Hap]; destruct (decide (b = p)) as [->|Hbp]; try done.
  - rewrite list_lookup_insert_eq in Ha by done. injection Ha as ->.
    rewrite list_lookup_insert_ne in Hb by done. by apply Hnew.
  - rewrite list_lookup_insert_eq in Hb by done. injection Hb as ->.
    rewrite list_lookup_insert_ne in Ha by done. symmetry. by apply Hnew.
  - rewrite list_lookup_insert_ne in Ha, Hb by done. by eapply Hpure.
Qed.

(** ** Farthest-first query search: one turn *)

Section FFQS_turn.
Variable data : dataset.
Variable labels : list Z.

Lemma ffqs_body_turn n nc seed s s' :
  ffqs_inv labels n seed s →
  ffqs_guard n s = true →
  ffqs_body data labels n nc s = Ok s' →
  ffqs_inv labels n seed s' ∧ ∃ p L, ffqs_turn labels n s s' p L.
Proof.
  destruct s as [nbr qc mat0 fa].
  intros [Hlen Hseed Hrows Hcols Hpure Hdist Hhoods [Hcnt1 Hcnt2] Hzero] Hguard H.
  simpl in Hlen, Hseed, Hrows, Hcols, Hpure, Hdist, Hhoods, Hcnt1, Hcnt2, Hzero.
  unfold ffqs_guard in Hguard. apply andb_true_iff in Hguard as [Hbudget _].
  apply bool_decide_eq_true in Hbudget.
  unfold ffqs_body in H. cbv zeta in H.
  apply rbind_Ok in H as (min_dist & _ & H).
  apply rbind_Ok in H as (far_ind & _ & H).
  apply rbind_Ok in H as (p & Hp & H).
  apply at_index_Ok, list_elem_of_lookup_2, elem_of_ind_where in Hp as (c0 & Hp & ->).
  apply rbind_Ok in H as ([[[c k'] qc'] mat'] & Hscan & H).
  apply ffqs_scan_spec in Hscan as [[Hk' Hqc'] Hb Hl Hcs Hf Hr Hs Ha].
  specialize (Hb ltac:(lia)).
  injection H as <-. simpl in *.
  pose proof (lookup_le_max_list _ _ _ Hseed) as Hmax1.
  pose proof (lookup_lt_Some _ _ _ Hp) as Hplt.
  assert (Hpseed : p ≠ seed) by (intros ->; congruence).
  (* the label the new point gets, and what is known of it *)
  set (L := if c then k' - 1 else max_list nbr + 1).
  assert (HL : L ≠ 0 ∧ L ≤ max_list nbr + 1 ∧ qc < qc' ∧
            (c = true → L ≤ max_list nbr ∧ qc' = qc + L)).
  { unfold L. destruct c; [specialize (Hs eq_refl) | specialize (Ha eq_refl)]; lia. }
  destruct HL as (HL0 & HLmax & Hprog & HLc).
  set (s := FfqsState nbr qc mat0 fa).
  assert (Hplaced : (c = true ∧ joins labels n s mat' p L) ∨ (c = false ∧ founds labels s p L)).
  { destruct c; subst L; simpl in HL0, HLmax, HLc |- *.
    - left. split; [done|]. specialize (Hs eq_refl). destruct (HLc eq_refl) as [HLle HqL].
      assert (Hrange : 1 ≤ k' - 1 < k') by lia.
      destruct (Hr (k' - 1) Hrange) as (rep & lp & lr & Hrep & Hlp & Hlr & Hiff & Hrow).
      assert (Heq : lp = lr) by (apply Hiff; split; [done | lia]).
      exists rep. simpl. split_and!; try done.
      + by apply first_member_Some.
      + by rewrite Hlp, Hlr, Heq.
      + intros Hin. replace (qc + (k' - 1) - 1) with (qc + (k' - 1 - 1)) by lia.
        rewrite Hrow by lia. by rewrite bool_decide_eq_true_2.
    - right. split; [done|]. split; [done|]. intros q cq Hq Hcq Heq.
      unfold s in Hq. simpl in Hq. specialize (Ha eq_refl).
      pose proof (lookup_le_max_list _ _ _ Hq) as Hcle.
      assert (Hrange : 1 ≤ cq < k') by lia.
      destruct (Hr cq Hrange) as (rep & lp & lr & Hrep & Hlp & Hlr & Hiff & _).
      apply first_member_Some in Hrep.
      rewrite (Hpure q rep cq Hq Hrep Hcq), Hlp, Hlr in Heq.
      injection Heq as Heq. apply Hiff in Heq as [? _]. done. }
  assert (Hnbr' : (if c then <[p := k' - 1]> nbr else <[p := max_list nbr + 1]> nbr)
                  = <[p := L]> nbr) by (unfold L; by destruct c).
  rewrite Hnbr'.
  assert (Hsame : ∀ q cq, nbr !! q = Some cq → cq ≠ 0 →
            labels !! p = labels !! q → cq = L).
  { intros q cq Hq Hcq Heq. destruct Hplaced as [[_ (rep & _ & Hrep & Hprep & _)] | [_ [_ Hne]]].
    - apply (Hdist q rep cq L Hq Hrep Hcq HL0). congruence.
    - by destruct (Hne q cq Hq Hcq). }
  assert (Hmax' : max_list (<[p := L]> nbr) = max_list nbr `max` L)
    by by apply max_list_insert_zero.
  split.
  - split; simpl.
    + by rewrite length_insert.
    + by rewrite list_lookup_insert_ne.
    + congruence.
    + auto.
    + apply class_pure_insert; [done | done |].
      intros q Hq. destruct Hplaced as [[_ (rep & _ & Hrep & Hprep & _)] | [_ [HLeq _]]].
      * rewrite Hprep. symmetry. by apply (Hpure q rep L).
      * apply lookup_le_max_list in Hq. unfold s in HLeq. simpl in HLeq. lia.
    + intros a b ca cb Ha' Hb' Hca Hcb Heq.
      destruct (decide (a = p)) as [->|Hap]; destruct (decide (b = p)) as [->|Hbp].
      * congruence.
      * rewrite list_lookup_insert_eq in Ha' by done. injection Ha' as <-.
        rewrite list_lookup_insert_ne in Hb' by done. symmetry. by apply (Hsame b).
      * rewrite list_lookup_insert_eq in Hb' by done. injection Hb' as <-.
        rewrite list_lookup_insert_ne in Ha' by done. by apply (Hsame a).
      * rewrite list_lookup_insert_ne in Ha', Hb' by done. by apply (Hdist a b).
    + intros cq Hcq. rewrite Hmax' in Hcq.
      destruct (decide (cq ≤ max_list nbr)) as [Hle|Hgt].
      * destruct (Hhoods cq ltac:(lia)) as [q Hq]. exists q.
        rewrite list_lookup_insert_ne; [done|]. intros ->. rewrite Hp in Hq.
        injection Hq as <-. lia.
      * exists p. rewrite list_lookup_insert_eq by done. f_equal. lia.
    + rewrite Hmax'. lia.
    + intros r Hr'. rewrite Hf by lia. apply Hzero. lia.
  - exists p, L. split; simpl; try done.
    + intros r Hr'. apply Hf. lia.
    + destruct Hplaced as [[Hc Hj] | [_ Hfd]]; [left | by right].
      split; [done|]. by apply HLc.
Qed.
End FFQS_turn.

(** ** Farthest-first query search: the run *)

Section FFQS_run.
Variable data : dataset.
Variable labels : list Z.

Lemma max_list_replicate_zero N : max_list (replicate N 0) = 0.
Proof. induction N; simpl; lia. Qed.

Lemma init_label_lookup seed p c :
  <[seed := 1]> (replicate (length labels) 0) !! p = Some c → c ≠ 0 →
  p = seed ∧ c = 1.
Proof.
  intros H Hc. destruct (decide (p = seed)) as [->|Hne].
  - split; [done|]. pose proof (lookup_lt_Some _ _ _ H) as Hlt.
    rewrite length_insert in Hlt.
    rewrite list_lookup_insert_eq in H by done. congruence.
  - rewrite list_lookup_insert_ne in H by done.
    apply lookup_replicate in H as [-> _]. done.
Qed.

Lemma ffqs_init_inv n seed :
  seed < length labels → ffqs_inv labels n seed (ffqs_init labels seed n).
Proof.
  intros Hseed.
  assert (Hs0 : replicate (length labels) 0 !! seed = Some 0)
    by by apply lookup_replicate_2.
  assert (Hmax : max_list (<[seed := 1]> (replicate (length labels) 0)) = 1).
  { rewrite max_list_insert_zero by done. rewrite max_list_replicate_zero. done. }
  split; simpl.
  - by rewrite length_insert, length_replicate.
  - apply list_lookup_insert_eq. by rewrite length_replicate.
  - unfold zeros. by rewrite length_replicate.
  - unfold zeros. by apply Forall_replicate.
  - intros p q c Hp Hq Hc.
    apply init_label_lookup in Hp as [-> _]; [|done].
    apply init_label_lookup in Hq as [-> _]; done.
  - intros p q c c' Hp Hq Hc Hc' _.
    apply init_label_lookup in Hp as [_ ->]; [|done].
    apply init_label_lookup in Hq as [_ ->]; done.
  - rewrite Hmax. intros c Hc. exists seed. assert (c = 1) as -> by lia.
    apply list_lookup_insert_eq. by rewrite length_replicate.
  - rewrite Hmax. lia.
  - intros r Hr. unfold zeros. apply lookup_replicate_2. lia.
Qed.

Lemma ffqs_reach_inv n seed s :
  seed < length labels → ffqs_reach data labels n seed s → ffqs_inv labels n seed s.
Proof.
  intros Hseed. induction 1 as [|s s' _ IH Hg Hb].
  - by apply ffqs_init_inv.
  - by destruct (ffqs_body_turn data labels n _ seed s s' IH Hg Hb).
Qed.

Lemma ffqs_reach_history n seed s :
  seed < length labels → ffqs_reach data labels n seed s →
  ffqs_history data labels n seed s.
Proof.
  intros Hseed. induction 1 as [|cur cur' Hreach IH Hg Hb].
  - intros p L Hp HL HL0. simpl in HL.
    by apply init_label_lookup in HL as [-> _].
  - pose proof (ffqs_reach_inv n seed cur Hseed Hreach) as Hinv.
    destruct (ffqs_body_turn data labels n _ seed cur cur' Hinv Hg Hb)
      as [_ (p0 & L0 & [Hnew Hnbr HL0 Hprog Hframe Hplaced])].
    intros p L Hp HL HLne. rewrite Hnbr in HL.
    destruct (decide (p = p0)) as [->|Hne].
    + rewrite list_lookup_insert_eq in HL by by eapply lookup_lt_Some.
      injection HL as <-. exists cur, cur'. split_and!; try done.
      destruct Hplaced as [[Hj Hq] | Hf]; [left | by right]. split; [done | lia].
    + rewrite list_lookup_insert_ne in HL by done.
      destruct (IH p L Hp HL HLne) as (s & s' & Hs & Hgs & Hbs & Hps & Hns & Hpl).
      exists s, s'. split_and!; try done.
      destruct Hpl as [[(q & Hfm & Hq & Hlab & Hrow) Hle] | Hf]; [left | by right].
      split; [|lia]. exists q. split_and!; try done.
      intros Hin. rewrite Hframe by lia. by apply Hrow.
Qed.

Lemma ffqs_loop_reach fuel n seed s f :
  ffqs_reach data labels n seed s →
  ffqs_loop data labels fuel n (length (remove_dups labels)) s = Ok f →
  ffqs_reach data labels n seed f ∧ ffqs_guard n f = false.
Proof.
  revert s. induction fuel as [|fuel IH]; intros s Hs; simpl;
    destruct (ffqs_guard n s) eqn:Hg; try discriminate.
  - by intros [= <-].
  - intros H. apply rbind_Ok in H as (s' & Hb & H).
    apply (IH s'); [|done]. by apply reach_turn with s.
  - by intros [= <-].
Qed.

Lemma FFQS_Ok n_constraints w mat nbr w' :
  FFQS data labels n_constraints w = (Ok (mat, nbr), w') →
  ∃ n seed s, shape_dim n_constraints = Ok n ∧ seed < length labels ∧
    ffqs_reach data labels n seed s ∧ ffqs_guard n s = false ∧
    mat = constraint_mat s ∧ nbr = nbr_label s ∧
    tape w' = tape w ∧ pos w' = S (pos w) ∧ trace w' = trace w.
Proof.
  unfold FFQS. intros H.
  apply mbind_Ok in H as (seed & w1 & Hseed & H).
  unfold randint in Hseed. case_decide as Hlt; [|discriminate].
  injection Hseed as <- <-.
  apply mbind_Ok in H as (n & w2 & Hn & H). apply lift_Ok in Hn as [Hn ->].
  apply mbind_Ok in H as (s & w3 & Hs & H). apply lift_Ok in Hs as [Hs ->].
  apply mret_Ok in H as [[= -> ->] ->].
  remember (tape w (pos w) mod (length labels - 0)) as seed eqn:Eseed.
  assert (Hseedlt : seed < length labels).
  { subst seed. pose proof (Nat.mod_upper_bound (tape w (pos w)) (length labels - 0)). lia. }
  destruct (ffqs_loop_reach n n seed _ _ (reach_init data labels n seed) Hs) as [Hr Hg].
  exists n, seed, s. split_and!; done.
Qed.
End FFQS_run.

(** C4, as the code has it.  The label vector returned by FFQS holds at
    most [n_constraints + 1] distinct nonzero values.  Every point other
    than the seed that carries a nonzero label [L] was placed by one turn
    of the run: that turn found it unassigned, gave it the label [L] and
    changed no other label, and on it the point either got "same" from
    the first member of the existing neighbourhood [L], a row (point,
    member, 1) that is in the returned matrix when the budget reached that
    far, or found no assigned point of its class ("different" from every
    neighbourhood) and opened [L] as the next label. *)
Theorem ffqs_labels_bounded_and_placed data labels n_constraints w mat nbr w' :
  FFQS data labels n_constraints w = (Ok (mat, nbr), w') →
  ∃ n seed, shape_dim n_constraints = Ok n ∧
    distinct_nonzero nbr ≤ n + 1 ∧
    nbr !! seed = Some 1 ∧
    ∀ p L, p ≠ seed → nbr !! p = Some L → L ≠ 0 →
      placed_in_run data labels n seed mat p L.
Proof.
  intros H.
  apply FFQS_Ok in H as (n & seed & s & Hn & Hseed & Hreach & _ & -> & -> & _).
  pose proof (ffqs_reach_inv data labels n seed s Hseed Hreach) as Hinv.
  pose proof (ffqs_reach_history data labels n seed s Hseed Hreach) as Hhist.
  exists n, seed. split_and!; try done.
  - pose proof (distinct_nonzero_le_max (nbr_label s)).
    destruct (fi_count _ _ _ _ Hinv). lia.
  - apply (fi_seed _ _ _ _ Hinv).
  - intros p L Hp HL HL0.
    destruct (Hhist p L Hp HL HL0) as (s0 & s1 & Hs0 & Hg & Hb & Hp0 & Hn1 & Hpl).
    exists s0, s1. split_and!; try done.
    destruct Hpl as [[Hj _] | Hf]; [by left | by right].
Qed.

Lemma ffqs_labels_bounded_and_placed_witness :
  ∃ n seed, shape_dim (PyInt 5) = Ok n ∧
    distinct_nonzero [1; 2; 2; 3] ≤ n + 1 ∧
    [1; 2; 2; 3] !! seed = Some 1 ∧
    ∀ p L, p ≠ seed → [1; 2; 2; 3] !! p = Some L → L ≠ 0 →
      placed_in_run (line_data [0; 10; 5; 1]%Z []) [7; 8; 8; 9]%Z n seed
        [[1; 0; 0]; [2; 0; 0]; [2; 1; 1]; [3; 0; 0]; [3; 1; 0]]%Z p L.
Proof.
  apply (ffqs_labels_bounded_and_placed (line_data [0; 10; 5; 1]%Z []) [7; 8; 8; 9]%Z
           (PyInt 5) (world_of [0]) _ _ (World (tape (world_of [0])) 1 [])).
  vm_compute. reflexivity.
Defined.

(** C4 as stated fails: a point that opens a neighbourhood has only
    "different" rows.  Here the run from seed 1 puts point 3 in a second
    neighbourhood on the single row (3, 1, 0); whichever point is taken
    as the seed, some other labelled point has no "same" row. *)
Lemma ffqs_founder_has_no_same_row :
  ¬ (∀ data labels n_constraints w mat nbr w',
       FFQS data labels n_constraints w = (Ok (mat, nbr), w') →
       ∃ seed, ∀ p L, p ≠ seed → nbr !! p = Some L → L ≠ 0 →
         ∃ r q, mat !! r = Some [Z.of_nat p; Z.of_nat q; 1%Z] ∧ nbr !! q = Some L).
Proof.
  intros H.
  destruct (H two_pairs [7; 7; 8; 8]%Z (PyInt 1) (world_of [1])
              [[3; 1; 0]]%Z [0; 1; 0; 2] (World (tape (world_of [1])) 1 []))
    as [seed Hseed]; [vm_compute; reflexivity|].
  destruct (decide (seed = 3)) as [->|Hne].
  - destruct (Hseed 1 1) as (r & q & Hr & _); [done | done | done |].
    destruct r as [|r]; simpl in Hr; discriminate Hr.
  - destruct (Hseed 3 2) as (r & q & Hr & _); [done | done | done |].
    destruct r as [|r]; simpl in Hr; discriminate Hr.
Qed.

(** ** Active class discovery *)

Lemma StronglySorted_sublist {A} (R : relation A) l1 l2 :
  l1 `sublist_of` l2 → StronglySorted R l2 → StronglySorted R l1.
Proof.
  induction 1 as [|x l1 l2 Hsub IH|x l1 l2 Hsub IH]; intros Hs.
  - constructor.
  - apply StronglySorted_cons in Hs as [Hx Hs]. apply StronglySorted_cons.
    split; [|by apply IH].
    rewrite Forall_forall in Hx |- *. intros y Hy. apply Hx.
    by apply (sublist_subseteq _ _ Hsub).
  - apply StronglySorted_cons in Hs as [_ Hs]. by apply IH.
Qed.

Lemma StronglySorted_lookup {A} (R : relation A) l i j a b :
  StronglySorted R l → i < j → l !! i = Some a → l !! j = Some b → R a b.
Proof.
  intros Hs. revert i j. induction Hs as [|x l _ IH Hx]; intros i j Hij Hi Hj; [done|].
  destruct j as [|j]; [lia|]. simpl in Hj. destruct i as [|i]; simpl in Hi.
  - injection Hi as ->. rewrite Forall_forall in Hx. apply Hx.
    by apply list_elem_of_lookup_2 with j.
  - apply (IH i j); [lia | done | done].
Qed.

Global Instance key_ge_nat_trans d v : Transitive (key_ge Nat.leb d v).
Proof.
  intros i j k. unfold key_ge. rewrite !Is_true_true, !Nat.leb_le. lia.
Qed.

Global Instance key_ge_nat_total d v : Total (key_ge Nat.leb d v).
Proof.
  intros i j. unfold key_ge. rewrite !Is_true_true, !Nat.leb_le. lia.
Qed.

Lemma argsort_desc_Permutation {A} (leb : A → A → bool) d guess v :
  argsort_desc leb d guess v ≡ₚ seq 0 (length v).
Proof.
  unfold argsort_desc. case_decide as Hg; [|apply merge_sort_Permutation].
  destruct Hg as (Hlen & Hnd & Hlt & _).
  apply submseteq_length_Permutation; [|rewrite length_seq; lia].
  apply NoDup_submseteq; [done|]. intros i Hi. apply elem_of_seq.
  rewrite Forall_forall in Hlt. specialize (Hlt i Hi). lia.
Qed.

Lemma argsort_desc_sorted {A} (leb : A → A → bool) d guess v :
  Transitive (key_ge leb d v) → Total (key_ge leb d v) →
  StronglySorted (key_ge leb d v) (argsort_desc leb d guess v).
Proof.
  intros ??. unfold argsort_desc. case_decide as Hg.
  - by destruct Hg as (_ & _ & _ & ?).
  - by apply StronglySorted_merge_sort.
Qed.

(** Every arrangement of the positions by decreasing value can be the
    answer: the model takes it as numpy gives it. *)
Lemma argsort_desc_guess {A} (leb : A → A → bool) d guess v :
  is_argsort leb d v guess → argsort_desc leb d guess v = guess.
Proof. intros Hg. unfold argsort_desc. by rewrite decide_True. Qed.

Lemma elem_of_argsort_desc {A} (leb : A → A → bool) d guess v i :
  i ∈ argsort_desc leb d guess v ↔ i < length v.
Proof. rewrite argsort_desc_Permutation, elem_of_seq. lia. Qed.

Lemma acd_select_decreasing ans sizes ms n :
  decreasing_sizes sizes (acd_select ans sizes ms n).
Proof.
  intros i j a b Hij Hi Hj.
  assert (Hs : StronglySorted (key_ge Nat.leb 0 sizes) (acd_select ans sizes ms n)).
  { unfold acd_select. eapply StronglySorted_sublist; [apply sublist_take|].
    destruct ms as [m|].
    - eapply StronglySorted_sublist; [apply sublist_filter|].
      apply argsort_desc_sorted; apply _.
    - apply argsort_desc_sorted; apply _. }
  pose proof (StronglySorted_lookup _ _ i j a b Hs Hij Hi Hj) as HR.
  unfold key_ge in HR. by apply Is_true_true, Nat.leb_le in HR.
Qed.

Lemma acd_select_length ans sizes ms n : length (acd_select ans sizes ms n) ≤ n.
Proof. unfold acd_select. rewrite length_take. lia. Qed.

Lemma filter_none {A} (P : A → Prop) `{!∀ x, Decision (P x)} (l : list A) :
  (∀ x, x ∈ l → ¬ P x) → filter P l = [].
Proof.
  induction l as [|x l IH]; intros Hno; [done|].
  rewrite filter_cons_False by (apply Hno; constructor).
  apply IH. intros y Hy. apply Hno. by constructor.
Qed.

Lemma acd_select_filtered_out ans sizes m n :
  Forall (λ s, (Z.of_nat s < m)%Z) sizes → acd_select ans sizes (Some m) n = [].
Proof.
  intros Hall. unfold acd_select.
  rewrite filter_none; [by rewrite take_nil|].
  intros idx Hidx. apply elem_of_argsort_desc in Hidx.
  destruct (lookup_lt_is_Some_2 sizes idx Hidx) as [sz Hsz]. rewrite Hsz. simpl.
  rewrite Forall_lookup in Hall. specialize (Hall idx sz Hsz). simpl in Hall. lia.
Qed.

Lemma merge_walk_spec ch k i0 s s' :
  merge_walk ch (seq i0 k) s = Ok s' →
  length (merge_history s) = i0 →
  i0 + k ≤ length (merge_size s) →
  (∀ i g1 g2, merge_history s !! i = Some (g1, g2) →
     merge_size s !! i = Some (length g1 `min` length g2)) →
  length (merge_history s') = i0 + k ∧
  length (merge_size s') = length (merge_size s) ∧
  (∀ i g1 g2, merge_history s' !! i = Some (g1, g2) →
     merge_size s' !! i = Some (length g1 `min` length g2)).
Proof.
  revert i0 s. induction k as [|k IH]; intros i0 s; simpl.
  - intros [= <-] Hlen Hsz Hold. split_and!; [lia | done | done].
  - intros H Hlen Hsz Hold.
    apply rbind_Ok in H as ([group1 group2] & _ & H).
    apply rbind_Ok in H as (m1 & _ & H). apply rbind_Ok in H as (m2 & _ & H).
    apply IH in H as (Hl' & Hs' & Hnew); simpl.
    + simpl in Hs'. rewrite length_insert in Hs'. split_and!; [lia | done | done].
    + rewrite length_app. simpl. lia.
    + rewrite length_insert. lia.
    + intros i g1 g2 Hi. destruct (decide (i = i0)) as [->|Hne].
      * rewrite lookup_app_r in Hi by lia. rewrite Hlen, Nat.sub_diag in Hi.
        injection Hi as <- <-. apply list_lookup_insert_eq. lia.
      * rewrite list_lookup_insert_ne by done. apply Hold.
        rewrite lookup_app_l in Hi; [done|].
        apply lookup_lt_Some in Hi. rewrite length_app in Hi. simpl in Hi. lia.
Qed.

Lemma choice_of_Ok a w x w' :
  choice_of a w = (Ok x, w') → x ∈ a ∧ tape w' = tape w ∧ trace w' = trace w.
Proof.
  unfold choice_of. intros H. apply mbind_Ok in H as (k & w1 & Hk & H).
  apply lift_Ok in H as [H ->]. apply at_index_Ok, list_elem_of_lookup_2 in H.
  unfold randint in Hk. case_decide; [|discriminate]. by injection Hk as <- <-.
Qed.

Lemma acd_fill_spec hist sel i qm w qm' w' :
  acd_fill hist sel i qm w = (Ok qm', w') →
  length qm' = length qm ∧
  (Forall (λ row, length row = 2) qm → Forall (λ row, length row = 2) qm') ∧
  (∀ r, r < i ∨ i + length sel ≤ r → qm' !! r = qm !! r) ∧
  (∀ k idx, sel !! k = Some idx →
     ∃ g1 g2 a b, hist !! idx = Some (g1, g2) ∧ a ∈ g1 ∧ b ∈ g2 ∧
       qm' !! (i + k) = Some [Z.of_nat a; Z.of_nat b]) ∧
  tape w' = tape w ∧ trace w' = trace w.
Proof.
  revert i qm w. induction sel as [|idx sel IH]; intros i qm w; simpl.
  - intros H. apply mret_Ok in H as [-> ->]. split_and!; done.
  - intros H. apply mbind_Ok in H as ([g1 g2] & w1 & Hh & H).
    apply lift_Ok in Hh as [Hh ->]. apply at_index_Ok in Hh.
    apply mbind_Ok in H as (a & w2 & Ha & H). apply choice_of_Ok in Ha as (Ha & Ht2 & Htr2).
    apply mbind_Ok in H as (b & w3 & Hb & H). apply choice_of_Ok in Hb as (Hb & Ht3 & Htr3).
    apply mbind_Ok in H as (qm1 & w4 & Hs & H). apply lift_Ok in Hs as [Hs ->].
    apply set_row_Ok in Hs as [Hi ->].
    apply IH in H as (Hlen & Hcols & Hframe & Hrows & Ht & Htr).
    rewrite length_insert in Hlen.
    split_and!; try congruence.
    + intros Hc. apply Hcols. by apply Forall_insert.
    + intros r Hr. rewrite Hframe by lia. apply list_lookup_insert_ne. lia.
    + intros k idx' Hk. destruct k as [|k]; simpl in Hk.
      * injection Hk as <-. exists g1, g2, a, b. split_and!; try done.
        rewrite Nat.add_0_r. rewrite Hframe by lia. by apply list_lookup_insert_eq.
      * destruct (Hrows k idx' Hk) as (g1' & g2' & a' & b' & ? & ? & ? & Hrow).
        exists g1', g2', a', b'. split_and!; try done.
        by replace (i + S k) with (S i + k) by lia.
Qed.

Lemma randint_pairs_Ok hi rows w qm w' :
  randint_pairs hi rows w = (Ok qm, w') →
  (0 < hi ∨ rows = 0) ∧ length qm = rows ∧ Forall (pair_row hi) qm.
Proof.
  intros H. destruct rows as [|r].
  - simpl in H. apply mret_Ok in H as [-> _]. split_and!; [by right | done | constructor].
  - assert (Hhi : 0 < hi).
    { simpl in H. apply mbind_Ok in H as (i & w1 & Hi & _).
      unfold randint in Hi. by case_decide. }
    destruct (randint_pairs_run hi (S r) w Hhi) as (qm0 & w0 & H0 & Hlen & Hrows & _).
    rewrite H in H0. injection H0 as <- <-. split_and!; [by left | done | done].
Qed.

Lemma acd_select_take ans sizes ms n :
  ∃ l, acd_select ans sizes ms n = take n l ∧ NoDup l ∧
    StronglySorted (key_ge Nat.leb 0 sizes) l ∧
    ∀ idx, idx ∈ l ↔ kept sizes ms idx.
Proof.
  set (g := ans ((λ s, (- inject_Z (Z.of_nat s))%Q) <$> sizes)).
  assert (Hnd : NoDup (argsort_desc Nat.leb 0 g sizes)).
  { rewrite argsort_desc_Permutation. apply NoDup_seq. }
  assert (Hs : StronglySorted (key_ge Nat.leb 0 sizes) (argsort_desc Nat.leb 0 g sizes))
    by (apply argsort_desc_sorted; apply _).
  destruct ms as [m|].
  - exists (filter (λ idx, (m ≤ Z.of_nat (default 0%nat (sizes !! idx)))%Z)
              (argsort_desc Nat.leb 0 g sizes)).
    split_and!; [done | by apply NoDup_filter | |].
    + eapply StronglySorted_sublist; [apply sublist_filter | done].
    + intros idx. rewrite list_elem_of_filter, elem_of_argsort_desc. split.
      * intros [Hm Hlt]. destruct (lookup_lt_is_Some_2 sizes idx Hlt) as [sz Hsz].
        exists sz. split; [done|]. intros m' [= <-]. by rewrite Hsz in Hm.
      * intros (sz & Hsz & Hm). split; [|by eapply lookup_lt_Some].
        rewrite Hsz. simpl. by apply Hm.
  - exists (argsort_desc Nat.leb 0 g sizes). split_and!; try done.
    intros idx. rewrite elem_of_argsort_desc. split.
    + intros Hlt. destruct (lookup_lt_is_Some_2 sizes idx Hlt) as [sz Hsz].
      exists sz. split; [done|]. by intros m' [=].
    + intros (sz & Hsz & _). by eapply lookup_lt_Some.
Qed.

Lemma acd_select_largest_kept ans sizes ms n :
  largest_kept sizes ms n (acd_select ans sizes ms n).
Proof.
  destruct (acd_select_take ans sizes ms n) as (l & -> & Hnd & Hs & Hin).
  split.
  - eapply sublist_NoDup; [exact Hnd | apply sublist_take].
  - intros idx Hidx. apply Hin. eapply sublist_subseteq; [apply sublist_take | exact Hidx].
  - rewrite length_take. destruct (decide (n ≤ length l)) as [Hle|Hgt]; [left; lia|].
    right. split; [lia|]. intros idx Hidx. rewrite take_ge by lia. by apply Hin.
  - intros a b Ha Hb Hnb. apply Hin in Hb.
    apply list_elem_of_lookup in Ha as [i Hi]. apply list_elem_of_lookup in Hb as [j Hj].
    pose proof (lookup_lt_Some _ _ _ Hi) as Hilt. rewrite length_take in Hilt.
    rewrite lookup_take_lt in Hi by lia.
    assert (Hij : i < j).
    { destruct (decide (j < n)) as [Hjn|]; [|lia]. exfalso. apply Hnb.
      apply list_elem_of_lookup. exists j. by rewrite lookup_take_lt. }
    pose proof (StronglySorted_lookup _ _ i j a b Hs Hij Hi Hj) as HR.
    unfold key_ge in HR. by apply Is_true_true, Nat.leb_le in HR.
Qed.

(** What a successful call of [active_class_discovery] went through. *)
Lemma active_class_discovery_Ok data n_constraints ms w qm w' :
  active_class_discovery data n_constraints ms w = (Ok qm, w') →
  ∃ n wk qm0 w1,
    2 ≤ n_points data ∧ shape_dim n_constraints = Ok n ∧
    merge_walk (children data) (seq 0 (n_points data - 1)) (merge_walk_init (n_points data))
      = Ok wk ∧
    acd_fill (merge_history wk) (acd_select (np_argsort data) (merge_size wk) ms n) 0 (zeros n 2)
      (World (tape w) (pos w) (trace w ++ [EvAgglomerative])) = (Ok qm0, w1) ∧
    ((length (acd_select (np_argsort data) (merge_size wk) ms n) < n ∧
      ∃ pad, randint_pairs (n_points data) (n - length (acd_select (np_argsort data) (merge_size wk) ms n)) w1
               = (Ok pad, w') ∧
             qm = take (length (acd_select (np_argsort data) (merge_size wk) ms n)) qm0 ++ pad) ∨
     (length (acd_select (np_argsort data) (merge_size wk) ms n) = n ∧ qm = qm0 ∧ w' = w1)).
Proof.
  unfold active_class_discovery. intros H.
  apply mbind_Ok in H as ([] & w0 & Hw0 & H). injection Hw0 as <-.
  case_decide as HN; [discriminate|].
  apply mbind_Ok in H as (wk & w1 & Hwk & H). apply lift_Ok in Hwk as [Hwk ->].
  apply mbind_Ok in H as (n & w2 & Hn & H). apply lift_Ok in Hn as [Hn ->].
  apply mbind_Ok in H as (qm0 & w3 & Hfill & H).
  exists n, wk, qm0, w3. split_and!; try done; [lia|].
  pose proof (acd_select_length (np_argsort data) (merge_size wk) ms n) as Hle.
  case_decide as Hlt.
  - left. split; [done|].
    apply mbind_Ok in H as (pad & w4 & Hpad & H). apply mret_Ok in H as [-> ->]. eauto.
  - right. apply mret_Ok in H as [-> ->]. split_and!; [lia | done | done].
Qed.

(** C9.  Whenever [active_class_discovery] returns: each of the [N - 1]
    merges has its recorded size, the size of its smaller side; the merges
    used are a choice of the [n_constraints] largest that the [min_samples]
    filter keeps (all the kept ones when they are fewer), taken by
    non-increasing size, whatever order numpy gives equal sizes; row [k] of
    the result pairs a point of each side of the [k]-th of them, and the
    rows after them are pairs of points of the dataset; when [min_samples]
    leaves no merge, the whole result is one draw of random pairs over the
    dataset; and the result has [n_constraints] rows of two entries. *)
Theorem acd_order_fallback_shape data n_constraints ms w qm w' :
  active_class_discovery data n_constraints ms w = (Ok qm, w') →
  ∃ n wk, shape_dim n_constraints = Ok n ∧
    merge_walk (children data) (seq 0 (n_points data - 1)) (merge_walk_init (n_points data))
      = Ok wk ∧
    length (merge_history wk) = n_points data - 1 ∧
    length (merge_size wk) = n_points data - 1 ∧
    (∀ i g1 g2, merge_history wk !! i = Some (g1, g2) →
       merge_size wk !! i = Some (length g1 `min` length g2)) ∧
    largest_kept (merge_size wk) ms n
      (acd_select (np_argsort data) (merge_size wk) ms n) ∧
    decreasing_sizes (merge_size wk) (acd_select (np_argsort data) (merge_size wk) ms n) ∧
    (∀ k idx, acd_select (np_argsort data) (merge_size wk) ms n !! k = Some idx →
       ∃ g1 g2 a b, merge_history wk !! idx = Some (g1, g2) ∧ a ∈ g1 ∧ b ∈ g2 ∧
         qm !! k = Some [Z.of_nat a; Z.of_nat b]) ∧
    (∀ r, length (acd_select (np_argsort data) (merge_size wk) ms n) ≤ r < n →
       ∃ row, qm !! r = Some row ∧ pair_row (n_points data) row) ∧
    (∀ m, ms = Some m → Forall (λ sz, (Z.of_nat sz < m)%Z) (merge_size wk) →
       randint_pairs (n_points data) n
         (World (tape w) (pos w) (trace w ++ [EvAgglomerative])) = (Ok qm, w')) ∧
    length qm = n ∧ Forall (λ row, length row = 2) qm.
Proof.
  intros H.
  apply active_class_discovery_Ok in H as (n & wk & qm0 & w1 & HN & Hn & Hwk & Hfill & Hpad).
  exists n, wk. split; [done|]. split; [done|].
  pose proof Hwk as Hsizes. apply merge_walk_spec in Hsizes as (Hhl & Hsl & Hsizes);
    [| done | simpl; rewrite length_replicate; lia | done].
  simpl in Hhl, Hsl. rewrite length_replicate in Hsl.
  pose proof Hfill as Hspec.
  apply acd_fill_spec in Hspec as (Hlen & Hcols & _ & Hrows & _ & _).
  unfold zeros in Hlen, Hcols. rewrite length_replicate in Hlen.
  assert (Hcols0 : Forall (λ row : list Z, length row = 2) (replicate n (replicate 2 0%Z)))
    by by apply Forall_replicate.
  specialize (Hcols Hcols0). simpl in Hrows.
  pose proof (acd_select_largest_kept (np_argsort data) (merge_size wk) ms n) as Hlk.
  pose proof (acd_select_decreasing (np_argsort data) (merge_size wk) ms n) as Hdec.
  set (sel := acd_select (np_argsort data) (merge_size wk) ms n) in *.
  split; [done|]. split; [done|]. split; [done|]. split; [done|]. split; [done|].
  destruct Hpad as [(Hlt & pad & Hpad & ->) | (Hfull & -> & ->)].
  - pose proof Hpad as Hp. apply randint_pairs_Ok in Hp as (_ & Hpl & Hpr).
    assert (Htl : length (take (length sel) qm0) = length sel)
      by (rewrite length_take; lia).
    split_and!.
    + intros k idx Hk. destruct (Hrows k idx Hk) as (g1 & g2 & a & b & ? & ? & ? & Hrow).
      exists g1, g2, a, b. split_and!; try done.
      pose proof (lookup_lt_Some _ _ _ Hk) as Hklt.
      rewrite lookup_app_l by lia.
      by rewrite lookup_take_lt.
    + intros r Hr. rewrite lookup_app_r by lia. rewrite Htl.
      destruct (lookup_lt_is_Some_2 pad (r - length sel)) as [row Hrow]; [lia|].
      exists row. split; [done|]. rewrite Forall_lookup in Hpr. by apply (Hpr _ _ Hrow).
    + intros m -> Hall. fold sel in Hpad. revert Hfill Hpad. unfold sel.
      rewrite acd_select_filtered_out by done. simpl.
      intros Hfill Hpad. apply mret_Ok in Hfill as [_ ->].
      by rewrite Nat.sub_0_r in Hpad.
    + rewrite length_app. lia.
    + apply Forall_app. split.
      * by apply Forall_take.
      * eapply Forall_impl; [exact Hpr|]. by intros row (i & j & -> & _).
  - split_and!; try done.
    + intros r Hr. lia.
    + intros m -> Hall. revert Hfill Hfull. unfold sel.
      rewrite acd_select_filtered_out by done. simpl.
      intros Hfill <-. by apply mret_Ok in Hfill as [-> ->].
Qed.

Lemma acd_order_fallback_shape_witness :
  (∃ qm w' n wk, shape_dim (PyInt 3) = Ok n ∧
     merge_walk (children seven_on_a_line) (seq 0 (n_points seven_on_a_line - 1))
       (merge_walk_init (n_points seven_on_a_line)) = Ok wk ∧
     length (merge_history wk) = n_points seven_on_a_line - 1 ∧
     length (merge_size wk) = n_points seven_on_a_line - 1 ∧
     (∀ i g1 g2, merge_history wk !! i = Some (g1, g2) →
        merge_size wk !! i = Some (length g1 `min` length g2)) ∧
     largest_kept (merge_size wk) (Some 2%Z) n
       (acd_select (np_argsort seven_on_a_line) (merge_size wk) (Some 2%Z) n) ∧
     decreasing_sizes (merge_size wk)
       (acd_select (np_argsort seven_on_a_line) (merge_size wk) (Some 2%Z) n) ∧
     (∀ k idx,
        acd_select (np_argsort seven_on_a_line) (merge_size wk) (Some 2%Z) n !! k = Some idx →
        ∃ g1 g2 a b, merge_history wk !! idx = Some (g1, g2) ∧ a ∈ g1 ∧ b ∈ g2 ∧
          qm !! k = Some [Z.of_nat a; Z.of_nat b]) ∧
     (∀ r, length (acd_select (np_argsort seven_on_a_line) (merge_size wk) (Some 2%Z) n)
             ≤ r < n →
        ∃ row, qm !! r = Some row ∧ pair_row (n_points seven_on_a_line) row) ∧
     (∀ m, (Some 2%Z) = Some m → Forall (λ sz, (Z.of_nat sz < m)%Z) (merge_size wk) →
        randint_pairs (n_points seven_on_a_line) n
          (World (tape (world_of [1; 2; 3; 4; 5; 6])) (pos (world_of [1; 2; 3; 4; 5; 6]))
             (trace (world_of [1; 2; 3; 4; 5; 6]) ++ [EvAgglomerative])) = (Ok qm, w')) ∧
     length qm = n ∧ Forall (λ row, length row = 2) qm) ∧
  (∃ qm w' n wk, shape_dim (PyInt 2) = Ok n ∧
     merge_walk (children seven_on_a_line) (seq 0 (n_points seven_on_a_line - 1))
       (merge_walk_init (n_points seven_on_a_line)) = Ok wk ∧
     length (merge_history wk) = n_points seven_on_a_line - 1 ∧
     length (merge_size wk) = n_points seven_on_a_line - 1 ∧
     (∀ i g1 g2, merge_history wk !! i = Some (g1, g2) →
        merge_size wk !! i = Some (length g1 `min` length g2)) ∧
     largest_kept (merge_size wk) None n
       (acd_select (np_argsort seven_on_a_line) (merge_size wk) None n) ∧
     decreasing_sizes (merge_size wk)
       (acd_select (np_argsort seven_on_a_line) (merge_size wk) None n) ∧
     (∀ k idx,
        acd_select (np_argsort seven_on_a_line) (merge_size wk) None n !! k = Some idx →
        ∃ g1 g2 a b, merge_history wk !! idx = Some (g1, g2) ∧ a ∈ g1 ∧ b ∈ g2 ∧
          qm !! k = Some [Z.of_nat a; Z.of_nat b]) ∧
     (∀ r, length (acd_select (np_argsort seven_on_a_line) (merge_size wk) None n)
             ≤ r < n →
        ∃ row, qm !! r = Some row ∧ pair_row (n_points seven_on_a_line) row) ∧
     (∀ m, None = Some m → Forall (λ sz, (Z.of_nat sz < m)%Z) (merge_size wk) →
        randint_pairs (n_points seven_on_a_line) n
          (World (tape (world_of [1; 2; 3; 4])) (pos (world_of [1; 2; 3; 4]))
             (trace (world_of [1; 2; 3; 4]) ++ [EvAgglomerative])) = (Ok qm, w')) ∧
     length qm = n ∧ Forall (λ row, length row = 2) qm) ∧
  (∃ qm w',
     active_class_discovery seven_on_a_line (PyInt 2) (Some 4%Z) (world_of [1; 2; 3; 4])
       = (Ok qm, w') ∧
     randint_pairs (n_points seven_on_a_line) 2
       (World (tape (world_of [1; 2; 3; 4])) (pos (world_of [1; 2; 3; 4]))
          (trace (world_of [1; 2; 3; 4]) ++ [EvAgglomerative])) = (Ok qm, w')).
Proof.
  split_and!.
  - eexists _, _.
    eapply (acd_order_fallback_shape seven_on_a_line (PyInt 3) (Some 2%Z)
              (world_of [1; 2; 3; 4; 5; 6])).
    vm_compute. reflexivity.
  - eexists _, _.
    eapply (acd_order_fallback_shape seven_on_a_line (PyInt 2) None
              (world_of [1; 2; 3; 4])).
    vm_compute. reflexivity.
  - eexists _, _. split; [vm_compute; reflexivity|].
    destruct (acd_order_fallback_shape seven_on_a_line (PyInt 2) (Some 4%Z)
                (world_of [1; 2; 3; 4]) _ _ eq_refl)
      as (n & wk & Hn & Hwk & _ & _ & _ & _ & _ & _ & _ & Hfall & _).
    injection Hn as <-. vm_compute in Hwk. injection Hwk as <-.
    apply (Hfall 4%Z eq_refl).
    repeat (apply List.Forall_cons; [simpl; lia|]). apply List.Forall_nil.
Defined.

(** ** Runs that fall short of the budget *)

(** C7, as the code has it.  When FFQS stops early, the rows of its matrix
    from the number of queries made on are left at zero, and no random pair
    is drawn for them: the seed is the only draw of the call.  When
    [active_class_discovery] selects fewer merges
    than the budget, the rows from the number of selected merges on are
    one draw of random pairs over the whole dataset. *)
Theorem short_runs_zero_or_padded data labels n_constraints ms w :
  (∀ mat nbr w', FFQS data labels n_constraints w = (Ok (mat, nbr), w') →
     ∃ n seed s, shape_dim n_constraints = Ok n ∧
       ffqs_reach data labels n seed s ∧ ffqs_guard n s = false ∧
       mat = constraint_mat s ∧
       (∀ r, quer_cnt s ≤ r < n → mat !! r = Some [0; 0; 0]%Z) ∧
       pos w' = S (pos w)) ∧
  (∀ qm w', active_class_discovery data n_constraints ms w = (Ok qm, w') →
     ∃ n wk, shape_dim n_constraints = Ok n ∧
       merge_walk (children data) (seq 0 (n_points data - 1))
         (merge_walk_init (n_points data)) = Ok wk ∧
       (length (acd_select (np_argsort data) (merge_size wk) ms n) < n →
        ∃ pad w1, tape w1 = tape w ∧
          randint_pairs (n_points data) (n - length (acd_select (np_argsort data) (merge_size wk) ms n)) w1
            = (Ok pad, w') ∧
          drop (length (acd_select (np_argsort data) (merge_size wk) ms n)) qm = pad ∧
          Forall (pair_row (n_points data)) pad)).
Proof.
  split.
  - intros mat nbr w' H.
    apply FFQS_Ok in H as (n & seed & s & Hn & Hseed & Hreach & Hg & -> & -> & _ & Hpos & _).
    exists n, seed, s. split_and!; try done.
    apply (fi_zero _ _ _ _ (ffqs_reach_inv data labels n seed s Hseed Hreach)).
  - intros qm w' H.
    apply active_class_discovery_Ok in H as (n & wk & qm0 & w1 & HN & Hn & Hwk & Hfill & Hpad).
    exists n, wk. split_and!; try done. intros Hlt.
    destruct Hpad as [(_ & pad & Hpad & ->) | (Hfull & _)]; [|lia].
    apply acd_fill_spec in Hfill as (Hlen & _ & _ & _ & Ht & _).
    unfold zeros in Hlen. rewrite length_replicate in Hlen.
    exists pad, w1. split_and!; try done.
    + rewrite drop_app_length'; [done|]. rewrite length_take. lia.
    + by apply randint_pairs_Ok in Hpad as (_ & _ & ?).
Qed.

Lemma short_runs_zero_or_padded_witness :
  (∃ mat w' n seed s, shape_dim (PyInt 5) = Ok n ∧
     ffqs_reach two_pairs [7; 7; 8; 8]%Z n seed s ∧ ffqs_guard n s = false ∧
     mat = constraint_mat s ∧
     (∀ r, quer_cnt s ≤ r < n → mat !! r = Some [0; 0; 0]%Z) ∧
     pos w' = S (pos (world_of [1; 2; 3]))) ∧
  (∃ qm w' n wk, shape_dim (PyInt 5) = Ok n ∧
     merge_walk (children two_pairs) (seq 0 (n_points two_pairs - 1))
       (merge_walk_init (n_points two_pairs)) = Ok wk ∧
     (length (acd_select (np_argsort two_pairs) (merge_size wk) (Some 2%Z) n) < n →
      ∃ pad w1, tape w1 = tape (world_of [1; 2; 3]) ∧
        randint_pairs (n_points two_pairs)
          (n - length (acd_select (np_argsort two_pairs) (merge_size wk) (Some 2%Z) n)) w1 = (Ok pad, w') ∧
        drop (length (acd_select (np_argsort two_pairs) (merge_size wk) (Some 2%Z) n)) qm = pad ∧
        Forall (pair_row (n_points two_pairs)) pad)).
Proof.
  split.
  - eexists _, _.
    eapply (proj1 (short_runs_zero_or_padded two_pairs [7; 7; 8; 8]%Z (PyInt 5)
                     (Some 2%Z) (world_of [1; 2; 3]))).
    vm_compute. reflexivity.
  - eexists _, _.
    eapply (proj2 (short_runs_zero_or_padded two_pairs [7; 7; 8; 8]%Z (PyInt 5)
                     (Some 2%Z) (world_of [1; 2; 3]))).
    vm_compute. reflexivity.
Defined.

(** C7 as stated fails for FFQS.  With a random source that always draws
    1, every random pair over four points is (1, 1); the run below stops
    after one query with both classes found, and its unused rows hold the
    pair (0, 0), which no draw yields. *)
Lemma ffqs_unused_rows_not_random :
  ¬ (∀ data labels n seed s (w : world),
       ffqs_loop data labels n n (length (remove_dups labels)) (ffqs_init labels seed n) = Ok s →
       ∀ r row, quer_cnt s ≤ r < n → constraint_mat s !! r = Some row →
         ∃ k1 k2, take 2 row = [Z.of_nat (tape w k1 mod length labels);
                                Z.of_nat (tape w k2 mod length labels)]).
Proof.
  intros H.
  assert (Hrun : ffqs_loop two_pairs [7; 7; 8; 8]%Z 3 3
                   (length (remove_dups [7; 7; 8; 8]%Z)) (ffqs_init [7; 7; 8; 8]%Z 1 3)
                 = Ok (FfqsState [0; 1; 0; 2] 1 [[3; 1; 0]; [0; 0; 0]; [0; 0; 0]]%Z true))
    by (vm_compute; reflexivity).
  destruct (H _ _ _ _ _ world_of_ones Hrun 1 [0; 0; 0]%Z) as (k1 & k2 & Hk);
    [simpl; lia | done |].
  simpl in Hk. discriminate Hk.
Qed.

(** ** Minimax farthest-first query search *)

Lemma class_pure_update labels cl q c :
  class_pure labels cl →
  (∀ x, cl !! x = Some c → c ≠ 0 → labels !! q = labels !! x) →
  class_pure labels (<[q := c]> cl).
Proof.
  intros Hpure Hnew a b c' Ha Hb Hc.
  destruct (decide (q < length cl)) as [Hlt|Hge];
    [|rewrite list_insert_ge in Ha, Hb by lia; by eapply Hpure].
  destruct (decide (a = q)) as [->|Haq]; destruct (decide (b = q)) as [->|Hbq]; try done.
  - rewrite list_lookup_insert_eq in Ha by done. injection Ha as ->.
    rewrite list_lookup_insert_ne in Hb by done. by apply Hnew.
  - rewrite list_lookup_insert_eq in Hb by done. injection Hb as ->.
    rewrite list_lookup_insert_ne in Ha by done. symmetry. by apply Hnew.
  - rewrite list_lookup_insert_ne in Ha, Hb by done. by eapply Hpure.
Qed.

Section MMFFQS_turn.
Variable data : dataset.
Variable labels : list Z.

(** The queries of one turn leave the label vector as it was, or give [q]
    the label of a point of its own class.  The test [k == num_clus] never
    holds for [k] in [range(num_clus)], so no label is ever made up. *)
Lemma mm_queries_spec n clus ind_vec q ks cl qc mat cl' qc' mat' :
  Forall (λ k, k < length clus) ks →
  mm_queries labels n clus ind_vec q ks cl qc mat = Ok (cl', qc', mat') →
  (cl' = cl ∨
   ∃ rep c, cl' = <[q := c]> cl ∧ cl !! rep = Some c ∧ labels !! q = labels !! rep) ∧
  qc ≤ qc' ∧ (ks ≠ [] → qc < qc') ∧ length mat' = length mat.
Proof.
  intros Hks. revert cl qc mat.
  induction Hks as [|k ks Hk _ IH]; intros cl qc mat; simpl.
  - intros [= <- <- <-]. split_and!; [by left | lia | done | done].
  - intros H.
    apply rbind_Ok in H as (lq & Hlq & H). apply at_index_Ok in Hlq.
    apply rbind_Ok in H as (rep & Hrep & H).
    apply rbind_Ok in H as (lr & Hlr & H). apply at_index_Ok in Hlr.
    apply rbind_Ok in H as (mat1 & Hmat1 & H). apply set_row_Ok in Hmat1 as [_ ->].
    destruct (bool_decide (lq = lr)) eqn:Hlink.
    + apply bool_decide_eq_true in Hlink.
      apply rbind_Ok in H as (c & Hc & H). apply at_index_Ok in Hc.
      injection H as <- <- <-. rewrite length_insert. split_and!; [|lia|lia|done].
      right. exists rep, c. split_and!; [done | done | congruence].
    + destruct (decide (k = length clus)) as [->|_]; [lia|].
      destruct (decide (S qc = n)) as [_|_].
      * injection H as <- <- <-. rewrite length_insert. split_and!; [by left|lia|lia|done].
      * apply IH in H as (Hcl & Hqc & _ & Hlen). rewrite length_insert in Hlen.
        split_and!; [done | lia | lia | done].
Qed.

Lemma mm_body_spec n clus s w s' w' :
  mm_body data labels n clus s w = (Ok s', w') →
  (clus_label s' = clus_label s ∨
   ∃ q rep c, clus_label s' = <[q := c]> (clus_label s) ∧
     clus_label s !! rep = Some c ∧ labels !! q = labels !! rep) ∧
  query_cnt s ≤ query_cnt s' ∧ (clus ≠ [] → query_cnt s < query_cnt s') ∧
  length (mm_mat s') = length (mm_mat s).
Proof.
  unfold mm_body. intros H. cbv zeta in H.
  apply mbind_Ok in H as (q & w1 & _ & H).
  apply mbind_Ok in H as (reps & w2 & _ & H).
  apply mbind_Ok in H as (ind_vec & w3 & _ & H).
  apply mbind_Ok in H as ([[cl qc] mat] & w4 & Hq & H).
  apply lift_Ok in Hq as [Hq ->]. apply mret_Ok in H as [-> ->]. simpl.
  apply mm_queries_spec in Hq as (Hcl & Hqc & Hprog & Hlen).
  - split_and!; try done.
    + destruct Hcl as [->|(rep & c & -> & ? & ?)]; [by left | right].
      by exists q, rep, c.
    + intros Hne. apply Hprog. destruct clus; [done | discriminate].
  - apply Forall_forall. intros k Hk. apply elem_of_seq in Hk. lia.
Qed.

Lemma class_pure_mm_step cl cl' :
  class_pure labels cl →
  (cl' = cl ∨ ∃ q rep c, cl' = <[q := c]> cl ∧ cl !! rep = Some c ∧
     labels !! q = labels !! rep) →
  class_pure labels cl' ∧ no_new_label cl cl' ∧ length cl' = length cl.
Proof.
  intros Hpure [->|(q & rep & c & -> & Hrep & Hlab)].
  - split_and!; [done | | done]. intros x c Hx _. eauto.
  - split_and!.
    + apply class_pure_update; [done|]. intros x Hx Hc.
      rewrite Hlab. by apply (Hpure rep x c).
    + intros x c' Hx Hc'. destruct (decide (x = q)) as [->|Hne].
      * destruct (decide (q < length cl)) as [Hlt|Hge].
        -- rewrite list_lookup_insert_eq in Hx by done. injection Hx as <-. eauto.
        -- rewrite list_insert_ge in Hx by lia. eauto.
      * rewrite list_lookup_insert_ne in Hx by done. eauto.
    + by rewrite length_insert.
Qed.

Lemma mm_reach_pure n clus s0 s :
  class_pure labels (clus_label s0) →
  mm_reach data labels n clus s0 s →
  class_pure labels (clus_label s) ∧ no_new_label (clus_label s0) (clus_label s).
Proof.
  intros Hpure. induction 1 as [|s s' w w' _ [IHp IHn] Hb].
  - split; [done|]. intros x c Hx _. eauto.
  - apply mm_body_spec in Hb as (Hcl & _).
    destruct (class_pure_mm_step _ _ IHp Hcl) as (Hp' & Hn' & _).
    split; [done|]. intros x c Hx Hc.
    destruct (Hn' x c Hx Hc) as [y Hy]. by apply (IHn y c).
Qed.

Lemma mm_loop_reach fuel n clus s0 s w f w' :
  mm_reach data labels n clus s0 s →
  mm_loop data labels fuel n clus s w = (Ok f, w') →
  mm_reach data labels n clus s0 f ∧ n ≤ query_cnt f.
Proof.
  revert s w. induction fuel as [|fuel IH]; intros s w Hs; simpl;
    case_bool_decide as Hq; try discriminate.
  - intros H. apply mret_Ok in H as [-> _]. split; [done | lia].
  - intros H. apply mbind_Ok in H as (s' & w1 & Hb & H).
    apply (IH s' w1); [|done]. by apply mm_reach_turn with s w w1.
  - intros H. apply mret_Ok in H as [-> _]. split; [done | lia].
Qed.

Lemma MMFFQS_Ok n_constraints w qm cl w' :
  MMFFQS data labels n_constraints w = (Ok (qm, cl), w') →
  ∃ mat nbr w1 n s,
    FFQS data labels n_constraints (World (tape w) (pos w) (trace w ++ [EvAffinity]))
      = (Ok (mat, nbr), w1) ∧
    shape_dim n_constraints = Ok n ∧
    mm_reach data labels n (np_unique (filter (λ c, c ≠ 0) nbr)) (mm_init mat nbr) s ∧
    n ≤ query_cnt s ∧
    qm = take 2 <$> mm_mat s ∧ cl = clus_label s.
Proof.
  unfold MMFFQS. intros H.
  apply mbind_Ok in H as ([] & w0 & Hw0 & H). injection Hw0 as <-.
  apply mbind_Ok in H as ([mat nbr] & w1 & HF & H).
  apply mbind_Ok in H as (n & w2 & Hn & H). apply lift_Ok in Hn as [Hn ->].
  apply mbind_Ok in H as (s & w3 & Hloop & H). apply mret_Ok in H as [[= -> ->] ->].
  apply (mm_loop_reach _ _ _ (mm_init mat nbr)) in Hloop as [Hreach Hq]; [|constructor].
  exists mat, nbr, w1, n, s. split_and!; done.
Qed.
End MMFFQS_turn.

Lemma FFQS_class_pure data labels n_constraints w mat nbr w' :
  FFQS data labels n_constraints w = (Ok (mat, nbr), w') → class_pure labels nbr.
Proof.
  intros H.
  apply FFQS_Ok in H as (n & seed & s & _ & Hseed & Hreach & _ & _ & -> & _).
  apply (fi_pure _ _ _ _ (ffqs_reach_inv data labels n seed s Hseed Hreach)).
Qed.

(** C10.  The label vectors of FFQS and MMFFQS are class-pure at every
    step: in every state the loop of FFQS passes through, in the vector
    FFQS returns, in every state the loop of MMFFQS passes through after
    it, and in the vector MMFFQS returns, two points with the same nonzero
    neighbourhood label have the same true label. *)
Theorem neighbourhoods_class_pure data labels n_constraints :
  (∀ n seed s, seed < length labels → ffqs_reach data labels n seed s →
     class_pure labels (nbr_label s)) ∧
  (∀ w mat nbr w', FFQS data labels n_constraints w = (Ok (mat, nbr), w') →
     class_pure labels nbr ∧
     ∀ n clus s, mm_reach data labels n clus (mm_init mat nbr) s →
       class_pure labels (clus_label s)) ∧
  (∀ w qm cl w', MMFFQS data labels n_constraints w = (Ok (qm, cl), w') →
     class_pure labels cl).
Proof.
  split_and!.
  - intros n seed s Hseed Hreach.
    apply (fi_pure _ _ _ _ (ffqs_reach_inv data labels n seed s Hseed Hreach)).
  - intros w mat nbr w' H. split; [by eapply FFQS_class_pure|].
    intros n clus s Hs. eapply mm_reach_pure; [|exact Hs]. simpl.
    by eapply FFQS_class_pure.
  - intros w qm cl w' H.
    apply MMFFQS_Ok in H as (mat & nbr & w1 & n & s & HFF & _ & Hreach & _ & _ & ->).
    eapply mm_reach_pure; [|exact Hreach]. simpl. by eapply FFQS_class_pure.
Qed.

Lemma neighbourhoods_class_pure_witness :
  class_pure [7; 7; 8; 9]%Z [1; 0; 0; 2] ∧
  (class_pure [7; 7; 8; 9]%Z [1; 1; 3; 2] ∧
   ∀ n clus s,
     mm_reach two_pairs [7; 7; 8; 9]%Z n clus
       (mm_init [[3; 0; 0]; [1; 0; 1]; [2; 0; 0]; [2; 3; 0]; [0; 0; 0]; [0; 0; 0]]%Z
                [1; 1; 3; 2]) s →
     class_pure [7; 7; 8; 9]%Z (clus_label s)) ∧
  class_pure [7; 7; 8; 8]%Z [1; 1; 2; 2].
Proof.
  split; [|split].
  - apply (proj1 (neighbourhoods_class_pure two_pairs [7; 7; 8; 9]%Z (PyInt 3)) 3 0
             (FfqsState [1; 0; 0; 2] 1 [[3; 0; 0]; [0; 0; 0]; [0; 0; 0]]%Z false)).
    + simpl. lia.
    + eapply reach_turn; [apply reach_init | reflexivity | vm_compute; reflexivity].
  - eapply (proj1 (proj2 (neighbourhoods_class_pure two_pairs [7; 7; 8; 9]%Z (PyInt 6)))
              (world_of [0])).
    vm_compute. reflexivity.
  - eapply (proj2 (proj2 (neighbourhoods_class_pure two_pairs [7; 7; 8; 8]%Z (PyInt 6)))
              (world_of [0])).
    vm_compute. reflexivity.
Defined.

(** The second phase of MMFFQS never makes up a label: every nonzero label
    of the vector it returns is one that FFQS had given. *)
Lemma MMFFQS_no_new_label data labels n_constraints w qm cl w' :
  MMFFQS data labels n_constraints w = (Ok (qm, cl), w') →
  ∃ mat nbr w1,
    FFQS data labels n_constraints (World (tape w) (pos w) (trace w ++ [EvAffinity]))
      = (Ok (mat, nbr), w1) ∧
    no_new_label nbr cl.
Proof.
  intros H.
  apply MMFFQS_Ok in H as (mat & nbr & w1 & n & s & HFF & _ & Hreach & _ & _ & ->).
  exists mat, nbr, w1. split; [done|].
  pose proof (FFQS_class_pure _ _ _ _ _ _ _ HFF) as Hpure.
  by destruct (mm_reach_pure data labels _ _ (mm_init mat nbr) _ Hpure Hreach).
Qed.

(** C3 fails on the code.  Five points on a line, three classes, a budget
    of five, FFQS seeded at point 1: FFQS spends the budget and finds two
    of the classes; MMFFQS takes the rows of point 0 for empty, so two
    queries remain, and asks point 4, the only point of the third class,
    against a member of each of the two neighbourhoods (points 1 and 3).
    Both answers are "different" and both are within the budget, yet
    point 4 keeps the label 0: no third neighbourhood is opened. *)
Theorem mmffqs_opens_no_neighbourhood :
  fst (MMFFQS five_on_a_line [8; 7; 8; 8; 9]%Z (PyInt 5) (world_of [1])) =
    Ok ([[2; 1]; [0; 1]; [0; 2]; [4; 1]; [4; 3]]%Z, [2; 1; 2; 2; 0]) ∧
  fst (FFQS five_on_a_line [8; 7; 8; 8; 9]%Z (PyInt 5) (world_of [1])) =
    Ok ([[2; 1; 0]; [0; 1; 0]; [0; 2; 1]; [3; 1; 0]; [3; 0; 1]]%Z, [2; 1; 2; 2; 0]).
Proof. split; vm_compute; reflexivity. Qed.

(** ** The shape of the constraint matrix *)

Lemma assemble_Ok_rows labels n err query_mat w cm w' :
  assemble labels n err query_mat w = (Ok cm, w') →
  ∀ r row, cm !! r = Some row → ∃ q l, query_mat !! r = Some q ∧ row = q ++ [l].
Proof.
  unfold assemble. intros H.
  apply mbind_Ok in H as (link & w1 & _ & H).
  apply mbind_Ok in H as (bs & w2 & _ & H).
  apply mbind_Ok in H as (link' & w3 & _ & H).
  apply mret_Ok in H as [-> _].
  intros r row Hr. apply append_col_lookup in Hr as (q & l & ? & _ & ->). eauto.
Qed.

(** C1 fails on the code for the strategy [ffqs]: FFQS hands back its whole
    three-column matrix (point, member, answer), where MMFFQS cuts its own
    to the two columns of the pair, and the assembler appends the link to
    whatever it gets.  Every row returned for [ffqs] has four entries. *)
Theorem ffqs_constraints_have_four_columns data labels n_constraints err ms w cm big w' :
  get_constraints data labels "ffqs" n_constraints err ms w = (Ok (cm, big), w') →
  Forall (λ row, length row = 4) cm.
Proof.
  unfold get_constraints. simpl String.eqb. cbv iota. intros H.
  apply mbind_Ok in H as (_ & w1 & _ & H).
  apply mbind_Ok in H as ([query_mat big'] & w2 & Hq & H).
  apply mbind_Ok in Hq as ([mat nbr] & w3 & HF & Hq).
  apply mret_Ok in Hq as [[= -> ->] ->].
  apply mbind_Ok in H as (cm' & w4 & Ha & H). apply mret_Ok in H as [[= -> ->] ->].
  apply FFQS_Ok in HF as (n & seed & s & _ & Hseed & Hreach & _ & -> & _).
  pose proof (fi_cols _ _ _ _ (ffqs_reach_inv data labels n seed s Hseed Hreach)) as Hcols.
  apply Forall_lookup. intros r row Hr.
  destruct (assemble_Ok_rows _ _ _ _ _ _ _ Ha r row Hr) as (q & l & Hq & ->).
  rewrite Forall_lookup in Hcols. rewrite length_app, (Hcols r q Hq). done.
Qed.

Lemma ffqs_constraints_have_four_columns_witness :
  Forall (λ row, length row = 4) [[3; 0; 0; 0]; [1; 0; 1; 1]; [2; 0; 0; 0]]%Z.
Proof.
  eapply (ffqs_constraints_have_four_columns two_pairs [7; 7; 8; 9]%Z (Some (PyInt 3))
            0%Q None (world_of [0])).
  vm_compute. reflexivity.
Defined.

(** ** The loops never run out of turns

    [ffqs_scan], [ffqs_loop] and [mm_loop] are given as many turns as the
    source can need: the scan visits each neighbourhood once, and every
    turn of the two outer loops makes at least one query within a budget
    of [n].  Hence [OutOfFuel] is never the outcome. *)

Lemma fuel_free_rbind {A B} (r : result A) (k : A → result B) :
  fuel_free r → (∀ a, r = Ok a → fuel_free (k a)) → fuel_free (rbind r k).
Proof.
  destruct r as [a|e]; simpl; intros Hr Hk; [by apply Hk|].
  unfold fuel_free in *. intros [= ->]. by apply Hr.
Qed.

Lemma fuel_free_mbind {A B} (m : M A) (k : A → M B) w :
  fuel_free (fst (m w)) →
  (∀ a w1, m w = (Ok a, w1) → fuel_free (fst (k a w1))) →
  fuel_free (fst (mbind m k w)).
Proof.
  unfold mbind. destruct (m w) as [[a|e] w1]; simpl; intros Hm Hk; [by apply Hk|].
  unfold fuel_free in *. intros [= ->]. by apply Hm.
Qed.

Lemma fuel_free_at_index {A} (l : list A) i : fuel_free (at_index l i).
Proof. unfold at_index, fuel_free. by destruct (l !! i). Qed.

Lemma fuel_free_set_row mat i row : fuel_free (set_row mat i row).
Proof. unfold set_row, fuel_free. by case_decide. Qed.

Lemma fuel_free_shape_dim n : fuel_free (shape_dim n).
Proof. unfold fuel_free. destruct n as [z|q]; simpl; [by destruct (z <? 0)%Z | done]. Qed.

Lemma fuel_free_reduce_axis0 f block : fuel_free (reduce_axis0 f block).
Proof. unfold fuel_free. by destruct block. Qed.

Lemma fuel_free_argmax v : fuel_free (argmax v).
Proof. unfold fuel_free. by destruct v. Qed.

Lemma fuel_free_argmin v : fuel_free (argmin v).
Proof. unfold fuel_free. by destruct v. Qed.

Lemma fuel_free_mapM {A B} (f : A → result B) l :
  (∀ x, fuel_free (f x)) → fuel_free (mapM f l).
Proof.
  intros Hf. induction l as [|x l IH]; simpl; [done|].
  apply fuel_free_rbind; [done|]. intros y _.
  apply fuel_free_rbind; [done|]. by intros ys _.
Qed.

Lemma fuel_free_randint lo hi w : fuel_free (fst (randint lo hi w)).
Proof. unfold randint. by case_decide. Qed.

Lemma fuel_free_ffqs_scan labels fuel n nbr p c k qc mat :
  max_list nbr + 1 - k ≤ fuel →
  fuel_free (ffqs_scan labels fuel n nbr p c k qc mat).
Proof.
  revert c k qc mat. induction fuel as [|fuel IH]; intros c k qc mat Hfuel;
    rewrite ffqs_scan_unfold; destruct c; simpl; try done;
    case_bool_decide as Hk; try done; [lia|].
  apply fuel_free_rbind; [apply fuel_free_at_index|]. intros lp _.
  apply fuel_free_rbind; [apply fuel_free_at_index|]. intros rep _.
  apply fuel_free_rbind; [apply fuel_free_at_index|]. intros lr _.
  apply fuel_free_rbind; [case_decide; [apply fuel_free_set_row | done]|].
  intros mat' _. apply IH. lia.
Qed.

Lemma fuel_free_ffqs_body data labels n nc s : fuel_free (ffqs_body data labels n nc s).
Proof.
  unfold ffqs_body. cbv zeta.
  apply fuel_free_rbind; [apply fuel_free_reduce_axis0|]. intros min_dist _.
  apply fuel_free_rbind; [apply fuel_free_argmax|]. intros far_ind _.
  apply fuel_free_rbind; [apply fuel_free_at_index|]. intros p _.
  apply fuel_free_rbind; [apply fuel_free_ffqs_scan; lia|].
  by intros [[[c k] qc] mat] _.
Qed.

Lemma fuel_free_ffqs_loop data labels fuel n nc seed s :
  ffqs_inv labels n seed s → n - quer_cnt s ≤ fuel →
  fuel_free (ffqs_loop data labels fuel n nc s).
Proof.
  revert s. induction fuel as [|fuel IH]; intros s Hinv Hfuel; simpl;
    destruct (ffqs_guard n s) eqn:Hg; try done.
  - unfold ffqs_guard in Hg. apply andb_true_iff in Hg as [Hq _].
    apply bool_decide_eq_true in Hq. lia.
  - apply fuel_free_rbind; [apply fuel_free_ffqs_body|]. intros s' Hb.
    destruct (ffqs_body_turn data labels n nc seed s s' Hinv Hg Hb)
      as [Hinv' (p & L & [_ _ _ Hprog _ _])].
    apply IH; [done | lia].
Qed.

Lemma fuel_free_FFQS data labels n_constraints w :
  fuel_free (fst (FFQS data labels n_constraints w)).
Proof.
  unfold FFQS.
  apply fuel_free_mbind; [apply fuel_free_randint|]. intros seed w1 Hseed.
  assert (Hlt : seed < length labels).
  { unfold randint in Hseed. case_decide; [|discriminate]. injection Hseed as <- _.
    pose proof (Nat.mod_upper_bound (tape w (pos w)) (length labels - 0)). lia. }
  apply fuel_free_mbind; [apply fuel_free_shape_dim|]. intros n w2 _.
  apply fuel_free_mbind; [|by intros s w3 _]. simpl.
  apply (fuel_free_ffqs_loop _ _ _ _ _ seed); [by apply ffqs_init_inv | simpl; lia].
Qed.

Lemma fuel_free_mm_queries labels n clus ind_vec q ks cl qc mat :
  fuel_free (mm_queries labels n clus ind_vec q ks cl qc mat).
Proof.
  revert cl qc mat. induction ks as [|k ks IH]; intros cl qc mat; simpl; [done|].
  apply fuel_free_rbind; [apply fuel_free_at_index|]. intros lq _.
  apply fuel_free_rbind; [apply fuel_free_at_index|]. intros rep _.
  apply fuel_free_rbind; [apply fuel_free_at_index|]. intros lr _.
  apply fuel_free_rbind; [apply fuel_free_set_row|]. intros mat' _.
  destruct (bool_decide (lq = lr)).
  - apply fuel_free_rbind; [apply fuel_free_at_index | by intros c _].
  - case_decide; [done | apply IH].
Qed.

Lemma fuel_free_mm_body data labels n clus s w :
  fuel_free (fst (mm_body data labels n clus s w)).
Proof.
  unfold mm_body. cbv zeta.
  apply fuel_free_mbind.
  { destruct (filter _ _); [apply fuel_free_randint|]. unfold lift. simpl.
    apply fuel_free_rbind; [apply fuel_free_reduce_axis0|]. intros sims _.
    apply fuel_free_rbind; [apply fuel_free_argmin|]. intros q_ind _.
    apply fuel_free_at_index. }
  intros q w1 _. apply fuel_free_mbind.
  { unfold lift. simpl. apply fuel_free_mapM. intros c. unfold best_rep. cbv zeta.
    apply fuel_free_rbind; [apply fuel_free_argmax|]. intros sim_ind _.
    apply fuel_free_rbind; [apply fuel_free_at_index|]. intros sim _.
    apply fuel_free_rbind; [apply fuel_free_at_index | by intros rep _]. }
  intros reps w2 _. apply fuel_free_mbind.
  { unfold lift. simpl. apply fuel_free_mapM. intros i. apply fuel_free_at_index. }
  intros ind_vec w3 _. apply fuel_free_mbind.
  { unfold lift. simpl. apply fuel_free_mm_queries. }
  by intros [[cl qc] mat] w4 _.
Qed.

Lemma fuel_free_mm_loop data labels fuel n clus s w :
  clus ≠ [] → n - query_cnt s ≤ fuel →
  fuel_free (fst (mm_loop data labels fuel n clus s w)).
Proof.
  intros Hclus. revert s w. induction fuel as [|fuel IH]; intros s w Hfuel; simpl;
    case_bool_decide as Hq; try done; [lia|].
  apply fuel_free_mbind; [apply fuel_free_mm_body|]. intros s' w1 Hb.
  apply mm_body_spec in Hb as (_ & _ & Hprog & _). specialize (Hprog Hclus).
  apply IH. lia.
Qed.

Lemma np_unique_nonzero_nonempty nbr seed :
  nbr !! seed = Some 1 → np_unique (filter (λ c, c ≠ 0) nbr) ≠ [].
Proof.
  intros Hseed Hnil.
  assert (Hin : 1 ∈ np_unique (filter (λ c, c ≠ 0) nbr)).
  { unfold np_unique. rewrite merge_sort_Permutation, elem_of_remove_dups.
    apply list_elem_of_filter. split; [done|]. by apply list_elem_of_lookup_2 with seed. }
  rewrite Hnil in Hin. by apply elem_of_nil in Hin.
Qed.

Lemma fuel_free_MMFFQS data labels n_constraints w :
  fuel_free (fst (MMFFQS data labels n_constraints w)).
Proof.
  unfold MMFFQS.
  apply fuel_free_mbind; [done|]. intros [] w0 _.
  apply fuel_free_mbind; [apply fuel_free_FFQS|]. intros [mat nbr] w1 HF.
  apply fuel_free_mbind; [apply fuel_free_shape_dim|]. intros n w2 _.
  apply fuel_free_mbind; [|by intros s w3 _].
  apply FFQS_Ok in HF as (n' & seed & s & _ & Hseed & Hreach & _ & _ & -> & _).
  apply fuel_free_mm_loop; [|lia].
  apply (np_unique_nonzero_nonempty _ seed).
  apply (fi_seed _ _ _ _ (ffqs_reach_inv data labels n' seed s Hseed Hreach)).
Qed.

Lemma fuel_free_randint_pairs hi rows w : fuel_free (fst (randint_pairs hi rows w)).
Proof.
  revert w. induction rows as [|r IH]; intros w; simpl; [done|].
  apply fuel_free_mbind; [apply fuel_free_randint|]. intros i w1 _.
  apply fuel_free_mbind; [apply fuel_free_randint|]. intros j w2 _.
  apply fuel_free_mbind; [apply IH | by intros rest w3 _].
Qed.

Lemma fuel_free_choice_of a w : fuel_free (fst (choice_of a w)).
Proof.
  unfold choice_of. apply fuel_free_mbind; [apply fuel_free_randint|].
  intros k w1 _. apply fuel_free_at_index.
Qed.

Lemma fuel_free_merge_walk ch steps s : fuel_free (merge_walk ch steps s).
Proof.
  revert s. induction steps as [|i steps IH]; intros s; simpl; [done|].
  apply fuel_free_rbind; [apply fuel_free_at_index|]. intros [g1 g2] _.
  apply fuel_free_rbind; [apply fuel_free_at_index|]. intros m1 _.
  apply fuel_free_rbind; [apply fuel_free_at_index|]. intros m2 _. apply IH.
Qed.

Lemma fuel_free_acd_fill hist sel i qm w : fuel_free (fst (acd_fill hist sel i qm w)).
Proof.
  revert i qm w. induction sel as [|idx sel IH]; intros i qm w; simpl; [done|].
  apply fuel_free_mbind; [apply fuel_free_at_index|]. intros [g1 g2] w1 _.
  apply fuel_free_mbind; [apply fuel_free_choice_of|]. intros a w2 _.
  apply fuel_free_mbind; [apply fuel_free_choice_of|]. intros b w3 _.
  apply fuel_free_mbind; [apply fuel_free_set_row|]. intros qm' w4 _. apply IH.
Qed.

Lemma fuel_free_active_class_discovery data n_constraints ms w :
  fuel_free (fst (active_class_discovery data n_constraints ms w)).
Proof.
  unfold active_class_discovery. cbv zeta.
  apply fuel_free_mbind; [done|]. intros [] w0 _.
  case_decide; [done|].
  apply fuel_free_mbind; [apply fuel_free_merge_walk|]. intros wk w1 _.
  apply fuel_free_mbind; [apply fuel_free_shape_dim|]. intros n w2 _.
  apply fuel_free_mbind; [apply fuel_free_acd_fill|]. intros qm w3 _.
  case_decide; [|done].
  apply fuel_free_mbind; [apply fuel_free_randint_pairs | by intros pad w4 _].
Qed.

Lemma fuel_free_getitem {A} (l : list A) i : fuel_free (getitem l i).
Proof.
  unfold getitem, fuel_free. cbv zeta.
  destruct (_ <? 0)%Z; [done|]. by destruct (l !! _).
Qed.

Lemma fuel_free_assemble labels n err query_mat w :
  fuel_free (fst (assemble labels n err query_mat w)).
Proof.
  unfold assemble.
  apply fuel_free_mbind.
  { unfold lift. simpl. apply fuel_free_mapM. intros row. unfold true_link.
    apply fuel_free_rbind; [apply fuel_free_at_index|]. intros i _.
    apply fuel_free_rbind; [apply fuel_free_at_index|]. intros j _.
    apply fuel_free_rbind; [apply fuel_free_getitem|]. intros li _.
    apply fuel_free_rbind; [apply fuel_free_getitem | by intros lj _]. }
  intros link w1 _. apply fuel_free_mbind.
  { unfold choice2. apply fuel_free_mbind; [apply fuel_free_shape_dim|].
    intros k w2 _. destruct (_ && _); [|done].
    destruct (bernoulli_draws_run err k w2) as (bs & w3 & -> & _). done. }
  intros bs w2 _. apply fuel_free_mbind; [|by intros link' w3 _].
  unfold lift, flip_masked. simpl. by case_decide.
Qed.

(** X16.  The [while] loops of FFQS and MMFFQS end: every turn of either
    raises or adds at least one to its query count, so [n_constraints]
    turns are enough.  Whatever the input and the random draws,
    [get_constraints] does not end by exhausting the turns its loops were
    given: its outcome is a result or an exception of the source. *)
Lemma fuel_free_get_constraints data labels method n_constraints err ms w :
  fuel_free (fst (get_constraints data labels method n_constraints err ms w)).
Proof.
  unfold get_constraints. cbv zeta.
  apply fuel_free_mbind; [done|]. intros [] w0 _.
  apply fuel_free_mbind.
  { destruct (String.eqb method "acd").
    { apply fuel_free_mbind; [apply fuel_free_active_class_discovery | by intros q w1 _]. }
    destruct (String.eqb method "mmffqs").
    { apply fuel_free_mbind; [apply fuel_free_MMFFQS | by intros [q cl] w1 _]. }
    destruct (String.eqb method "ffqs").
    { apply fuel_free_mbind; [apply fuel_free_FFQS | by intros [q cl] w1 _]. }
    destruct (String.eqb method "rand"); [|done].
    apply fuel_free_mbind; [apply fuel_free_shape_dim|]. intros n w1 _.
    apply fuel_free_mbind; [apply fuel_free_randint_pairs | by intros q w2 _]. }
  intros [query_mat big] w1 _.
  apply fuel_free_mbind; [apply fuel_free_assemble | by intros cm w2 _].
Qed.

(** ** Active class discovery returns on every merge tree *)

Lemma merge_walk_run ch N k i0 s :
  (∀ i g1 g2, ch !! i = Some (g1, g2) → g1 < N + i ∧ g2 < N + i) →
  i0 + k ≤ length ch →
  length (clus_mem s) = N + i0 →
  Forall (λ m, m ≠ []) (clus_mem s) →
  Forall (λ g, g.1 ≠ [] ∧ g.2 ≠ []) (merge_history s) →
  ∃ s', merge_walk ch (seq i0 k) s = Ok s' ∧
    Forall (λ g, g.1 ≠ [] ∧ g.2 ≠ []) (merge_history s').
Proof.
  intros Hch. revert i0 s. induction k as [|k IH]; intros i0 s Hk Hlen Hmem Hhist; simpl.
  - eauto.
  - destruct (lookup_lt_is_Some_2 ch i0 ltac:(lia)) as [[g1 g2] Hg].
    destruct (Hch i0 g1 g2 Hg) as [Hg1 Hg2].
    destruct (lookup_lt_is_Some_2 (clus_mem s) g1 ltac:(lia)) as [m1 Hm1].
    destruct (lookup_lt_is_Some_2 (clus_mem s) g2 ltac:(lia)) as [m2 Hm2].
    unfold at_index. rewrite Hg. simpl. rewrite Hm1. simpl. rewrite Hm2. simpl.
    rewrite Forall_lookup in Hmem.
    pose proof (Hmem g1 m1 Hm1) as Hn1. pose proof (Hmem g2 m2 Hm2) as Hn2.
    apply IH; simpl.
    + lia.
    + rewrite length_app. simpl. lia.
    + apply Forall_app. split; [by apply Forall_lookup|].
      constructor; [|done]. by destruct m1.
    + apply Forall_app. split; [done|]. by constructor.
Qed.

Lemma choice_of_run a w :
  a ≠ [] → ∃ x w', choice_of a w = (Ok x, w').
Proof.
  intros Ha. unfold choice_of.
  assert (Hlen : 0 < length a) by (destruct a; [done | simpl; lia]).
  destruct (randint_run 0 (length a) w Hlen) as (k & Hk & Hkr).
  unfold mbind. rewrite Hk. unfold lift, at_index.
  destruct (lookup_lt_is_Some_2 a k ltac:(lia)) as [x ->]. eauto.
Qed.

Lemma acd_fill_run hist sel i qm w :
  Forall (λ g, g.1 ≠ [] ∧ g.2 ≠ []) hist →
  Forall (λ idx, idx < length hist) sel →
  i + length sel ≤ length qm →
  ∃ qm' w', acd_fill hist sel i qm w = (Ok qm', w').
Proof.
  intros Hhist Hsel. revert i qm w.
  induction Hsel as [|idx sel Hidx _ IH]; intros i qm w Hi; simpl.
  - unfold mret. eauto.
  - destruct (lookup_lt_is_Some_2 hist idx Hidx) as [[g1 g2] Hg].
    rewrite Forall_lookup in Hhist. destruct (Hhist idx _ Hg) as [Hg1 Hg2]. simpl in *.
    unfold mbind at 1. unfold lift, at_index. rewrite Hg.
    destruct (choice_of_run g1 w Hg1) as (a & w1 & Ha). unfold mbind at 1. rewrite Ha.
    destruct (choice_of_run g2 w1 Hg2) as (b & w2 & Hb). unfold mbind at 1. rewrite Hb.
    unfold mbind at 1. unfold set_row. case_decide; [|lia].
    apply IH. rewrite length_insert. lia.
Qed.

Lemma acd_select_in_range ans sizes ms n :
  Forall (λ idx, idx < length sizes) (acd_select ans sizes ms n).
Proof.
  apply Forall_forall. intros idx Hidx. unfold acd_select in Hidx.
  apply (sublist_subseteq _ _ (sublist_take _ _)) in Hidx.
  apply (elem_of_argsort_desc Nat.leb 0
           (ans ((λ s, (- inject_Z (Z.of_nat s))%Q) <$> sizes))).
  destruct ms as [m|]; [|done].
  by apply (sublist_subseteq _ _ (sublist_filter _ _)) in Hidx.
Qed.

(** On the merge tree of at least two points, with an integer budget that
    is not negative, [active_class_discovery] returns. *)
Lemma active_class_discovery_run data n ms w :
  2 ≤ n_points data → valid_children (n_points data) (children data) →
  ∃ qm w', active_class_discovery data (PyInt (Z.of_nat n)) ms w = (Ok qm, w').
Proof.
  intros HN [Hlen Hch]. unfold active_class_discovery. cbv zeta.
  unfold mbind at 1. unfold emit at 1. case_decide; [lia|].
  destruct (merge_walk_run (children data) (n_points data) (n_points data - 1) 0
              (merge_walk_init (n_points data)) Hch) as (wk & Hwk & Hhist).
  { lia. }
  { simpl. rewrite length_fmap, length_seq. lia. }
  { simpl. apply Forall_fmap, Forall_forall. by intros x _. }
  { by constructor. }
  unfold mbind at 1. unfold lift at 1. rewrite Hwk.
  unfold mbind at 1. unfold lift at 1. unfold shape_dim.
  destruct (Z.ltb_spec (Z.of_nat n) 0) as [?|_]; [lia|]. rewrite Nat2Z.id.
  pose proof Hwk as Hspec. apply merge_walk_spec in Hspec as (Hhl & Hsl & _);
    [| done | simpl; rewrite length_replicate; lia | done].
  simpl in Hsl. rewrite length_replicate in Hsl.
  set (sel := acd_select (np_argsort data) (merge_size wk) ms n).
  destruct (acd_fill_run (merge_history wk) sel 0 (zeros n 2)
              (World (tape w) (pos w) (trace w ++ [EvAgglomerative])) Hhist)
    as (qm & w1 & Hfill).
  { eapply Forall_impl; [apply acd_select_in_range|]. simpl. intros idx Hidx. lia. }
  { unfold zeros. rewrite length_replicate. apply acd_select_length. }
  unfold mbind at 1. rewrite Hfill. case_decide.
  - destruct (randint_pairs_run (n_points data) (n - length sel) w1 ltac:(lia))
      as (pad & w2 & Hpad & _).
    unfold mbind, mret. rewrite Hpad. eauto.
  - unfold mret. eauto.
Qed.

(** * Further properties of the code *)

(** ** The assembler: what a returned matrix looks like *)

Lemma shape_dim_Ok n k :
  shape_dim n = Ok k → ∃ z, n = PyInt z ∧ (0 <= z)%Z ∧ k = Z.to_nat z.
Proof.
  destruct n as [z|q]; simpl; [|discriminate].
  destruct (Z.ltb_spec z 0); [discriminate|]. intros [= <-]. eauto.
Qed.

Lemma bernoulli_draws_Ok err k w bs w' :
  bernoulli_draws err k w = (Ok bs, w') → length bs = k.
Proof.
  intros H. destruct (bernoulli_draws_run err k w) as (bs' & w1 & H' & Hlen & _).
  rewrite H in H'. by injection H' as <- _.
Qed.

Lemma flip_link l : l = 0%Z ∨ l = 1%Z → flip l = 0%Z ∨ flip l = 1%Z.
Proof. intros [-> | ->]; [by right | by left]. Qed.

Lemma assemble_Ok_shape labels n err query_mat w cm w' :
  assemble labels n err query_mat w = (Ok cm, w') →
  shape_dim n = Ok (length query_mat) ∧ length cm = length query_mat ∧
  (0 <= err)%Q ∧ (err <= 1)%Q ∧ Forall ends_with_link cm.
Proof.
  unfold assemble. intros H.
  apply mbind_Ok in H as (link & w1 & Hlink & H). apply lift_Ok in Hlink as [Hlink ->].
  apply mbind_Ok in H as (bs & w2 & Hbs & H).
  apply mbind_Ok in H as (link' & w3 & Hf & H). apply lift_Ok in Hf as [Hf ->].
  apply mret_Ok in H as [-> _].
  pose proof (mapM_Ok_length _ _ _ Hlink) as Hll.
  unfold choice2 in Hbs. apply mbind_Ok in Hbs as (k & w4 & Hk & Hbs).
  apply lift_Ok in Hk as [Hk ->].
  destruct (Qle_bool 0 err) eqn:H0; [|discriminate Hbs].
  destruct (Qle_bool err 1) eqn:H1; [|discriminate Hbs]. simpl in Hbs.
  apply Qle_bool_iff in H0, H1. apply bernoulli_draws_Ok in Hbs.
  unfold flip_masked in Hf. case_decide as Hlen; [|discriminate]. injection Hf as <-.
  assert (Hk' : k = length query_mat) by lia. rewrite Hk' in Hk.
  split_and!; try done.
  - unfold append_col. rewrite !length_zip_with. lia.
  - apply Forall_lookup. intros r row Hr.
    apply append_col_lookup in Hr as (q & l & Hq & Hl & ->).
    unfold ends_with_link. rewrite last_snoc.
    apply lookup_zip_with_Some in Hl as (e & t & -> & He & Ht).
    destruct (mapM_Ok_lookup _ _ _ _ _ Hlink Hq) as (t' & Ht' & Htl).
    rewrite Ht in Ht'. injection Ht' as <-.
    apply true_link_Ok in Htl as (i & j & li & lj & _ & _ & _ & _ & ->).
    assert (Hb : Z_of_bool (bool_decide (li = lj)) = 0%Z ∨
                 Z_of_bool (bool_decide (li = lj)) = 1%Z)
      by (destruct (bool_decide (li = lj)); auto).
    destruct e; [|destruct Hb as [-> | ->]; auto].
    destruct (flip_link _ Hb) as [-> | ->]; auto.
Qed.

Lemma get_constraints_dispatch data labels method n_constraints err ms w cm big w' :
  get_constraints data labels method n_constraints err ms w = (Ok (cm, big), w') →
  ∃ n query_mat w1 w2,
    n = match n_constraints with None => true_div2 (length labels) | Some n => n end ∧
    assemble labels n err query_mat w2 = (Ok cm, w') ∧
    w1 = World (tape w) (pos w) (trace w ++ [EvPdist]) ∧
    ((method = "acd" ∧ active_class_discovery data n ms w1 = (Ok query_mat, w2) ∧ big = None) ∨
     (method = "mmffqs" ∧ ∃ cl, MMFFQS data labels n w1 = (Ok (query_mat, cl), w2) ∧
        big = Some (all_pairwise cl)) ∨
     (method = "ffqs" ∧ ∃ cl, FFQS data labels n w1 = (Ok (query_mat, cl), w2) ∧
        big = Some (all_pairwise cl)) ∨
     (method = "rand" ∧ ∃ k, shape_dim n = Ok k ∧
        randint_pairs (length labels) k w1 = (Ok query_mat, w2) ∧ big = None)).
Proof.
  unfold get_constraints. intros H.
  apply mbind_Ok in H as ([] & w1 & Hw1 & H). injection Hw1 as <-.
  apply mbind_Ok in H as ([query_mat big'] & w2 & Hq & H).
  apply mbind_Ok in H as (cm' & w3 & Ha & H). apply mret_Ok in H as [[= -> ->] ->].
  eexists _, query_mat, _, w2. split; [reflexivity|]. split; [exact Ha|]. split; [reflexivity|].
  destruct (String.eqb_spec method "acd") as [->|_].
  { left. apply mbind_Ok in Hq as (q & w4 & Hacd & Hq).
    apply mret_Ok in Hq as [[= -> ->] ->]. done. }
  destruct (String.eqb_spec method "mmffqs") as [->|_].
  { right; left. apply mbind_Ok in Hq as ([q cl] & w4 & Hmm & Hq).
    apply mret_Ok in Hq as [[= -> ->] ->]. eauto. }
  destruct (String.eqb_spec method "ffqs") as [->|_].
  { right; right; left. apply mbind_Ok in Hq as ([q cl] & w4 & Hff & Hq).
    apply mret_Ok in Hq as [[= -> ->] ->]. eauto. }
  destruct (String.eqb_spec method "rand") as [->|_]; [|discriminate Hq].
  right; right; right. apply mbind_Ok in Hq as (k & w4 & Hk & Hq).
  apply lift_Ok in Hk as [Hk ->].
  apply mbind_Ok in Hq as (q & w5 & Hr & Hq). apply mret_Ok in Hq as [[= -> ->] ->]. eauto.
Qed.

(** X1.  [get_constraints] returns only on well-formed arguments: the
    strategy name is one of the four, [n_constraints] was given as an
    integer that is not negative, and the error rate lies in [0, 1].  The
    matrix it returns then has exactly [n_constraints] rows, each ending
    in a link that is 0 or 1, whatever the strategy. *)
Theorem get_constraints_returns_only_if data labels method n_constraints err ms w cm big w' :
  get_constraints data labels method n_constraints err ms w = (Ok (cm, big), w') →
  method ∈ known_methods ∧
  (∃ z, n_constraints = Some (PyInt z) ∧ (0 <= z)%Z ∧ Z.of_nat (length cm) = z) ∧
  (0 <= err)%Q ∧ (err <= 1)%Q ∧
  Forall ends_with_link cm.
Proof.
  intros H.
  apply get_constraints_dispatch in H as (n & qm & w1 & w2 & Hn & Ha & _ & Hm).
  apply assemble_Ok_shape in Ha as (Hk & Hlen & H0 & H1 & Hlink).
  apply shape_dim_Ok in Hk as (z & -> & Hz & Hzk).
  split_and!; try done.
  - unfold known_methods.
    destruct Hm as [(-> & _) | [(-> & _) | [(-> & _) | (-> & _)]]]; repeat constructor.
  - exists z. split_and!; [|done|lia].
    destruct n_constraints as [nc|]; [by rewrite Hn | discriminate Hn].
Qed.

Lemma get_constraints_returns_only_if_witness :
  "mmffqs" ∈ known_methods ∧
  (∃ z, Some (PyInt 5) = Some (PyInt z) ∧ (0 <= z)%Z ∧
     Z.of_nat (length [[2; 1; 0]; [0; 1; 0]; [0; 2; 1]; [4; 1; 0]; [4; 3; 0]]%Z) = z) ∧
  (0 <= 0)%Q ∧ (0 <= 1)%Q ∧
  Forall ends_with_link [[2; 1; 0]; [0; 1; 0]; [0; 2; 1]; [4; 1; 0]; [4; 3; 0]]%Z.
Proof.
  eapply (get_constraints_returns_only_if five_on_a_line [8; 7; 8; 8; 9]%Z "mmffqs"
            (Some (PyInt 5)) 0%Q None (world_of [1])).
  vm_compute. reflexivity.
Defined.

(** ** Active class discovery: the point sets of the merge tree *)

Lemma merge_walk_Forall (P : list nat → Prop) ch steps s s' :
  (∀ a b, P a → P b → P (a ++ b)) →
  merge_walk ch steps s = Ok s' →
  Forall P (clus_mem s) → Forall (λ g, P g.1 ∧ P g.2) (merge_history s) →
  Forall P (clus_mem s') ∧ Forall (λ g, P g.1 ∧ P g.2) (merge_history s').
Proof.
  intros Happ. revert s. induction steps as [|i steps IH]; intros s; simpl.
  - by intros [= <-].
  - intros H Hmem Hhist.
    apply rbind_Ok in H as ([g1 g2] & _ & H).
    apply rbind_Ok in H as (m1 & Hm1 & H). apply at_index_Ok in Hm1.
    apply rbind_Ok in H as (m2 & Hm2 & H). apply at_index_Ok in Hm2.
    rewrite Forall_lookup in Hmem.
    pose proof (Hmem g1 m1 Hm1) as HP1. pose proof (Hmem g2 m2 Hm2) as HP2.
    apply IH in H; [done | |]; simpl.
    + apply Forall_app. split; [by apply Forall_lookup|]. constructor; [|done]. by apply Happ.
    + apply Forall_app. split; [done|]. by constructor.
Qed.

Lemma merge_walk_init_Forall (P : list nat → Prop) N :
  (∀ x, x < N → P [x]) →
  Forall P (clus_mem (merge_walk_init N)) ∧
  Forall (λ g, P g.1 ∧ P g.2) (merge_history (merge_walk_init N)).
Proof.
  intros HP. split; simpl; [|constructor].
  apply Forall_fmap, Forall_forall. intros x Hx. apply elem_of_seq in Hx.
  simpl. apply HP. lia.
Qed.

(** What a successful call hands back, row by row. *)
Lemma active_class_discovery_rows data n_constraints ms w qm w' :
  active_class_discovery data n_constraints ms w = (Ok qm, w') →
  ∃ n, shape_dim n_constraints = Ok n ∧ length qm = n ∧
    Forall (pair_row (n_points data)) qm.
Proof.
  intros H.
  apply active_class_discovery_Ok in H as (n & wk & qm0 & w1 & HN & Hn & Hwk & Hfill & Hpad).
  exists n. split; [done|].
  destruct (merge_walk_Forall (Forall (λ x, x < n_points data)) _ _ _ _
              ltac:(intros a b Ha Hb; by apply Forall_app) Hwk) as [_ Hhist].
  { apply merge_walk_init_Forall. intros x Hx. by repeat constructor. }
  { apply merge_walk_init_Forall. intros x Hx. by repeat constructor. }
  apply acd_fill_spec in Hfill as (Hlen & _ & _ & Hrows & _ & _).
  unfold zeros in Hlen. rewrite length_replicate in Hlen. simpl in Hrows.
  set (sel := acd_select (np_argsort data) (merge_size wk) ms n) in *.
  assert (Hfilled : ∀ k, k < length sel → ∃ row, qm0 !! k = Some row ∧
            pair_row (n_points data) row).
  { intros k Hk. destruct (lookup_lt_is_Some_2 sel k Hk) as [idx Hidx].
    destruct (Hrows k idx Hidx) as (g1 & g2 & a & b & Hg & Ha & Hb & Hrow).
    exists [Z.of_nat a; Z.of_nat b]. split; [done|]. exists a, b.
    rewrite Forall_lookup in Hhist. destruct (Hhist idx _ Hg) as [H1 H2]. simpl in *.
    rewrite Forall_forall in H1, H2. split_and!; [done | by apply H1 | by apply H2]. }
  destruct Hpad as [(Hlt & pad & Hpad & ->) | (Hfull & -> & ->)].
  - apply randint_pairs_Ok in Hpad as (_ & Hpl & Hpr).
    split; [rewrite length_app, length_take; lia|].
    apply Forall_app. split; [|done].
    apply Forall_lookup. intros k row Hk.
    pose proof (lookup_lt_Some _ _ _ Hk) as Hklt. rewrite length_take in Hklt.
    rewrite lookup_take_lt in Hk by lia.
    destruct (Hfilled k ltac:(lia)) as (row' & Hrow' & Hpr').
    rewrite Hk in Hrow'. by injection Hrow' as ->.
  - split; [lia|]. apply Forall_lookup. intros k row Hk.
    pose proof (lookup_lt_Some _ _ _ Hk) as Hklt.
    destruct (Hfilled k ltac:(lia)) as (row' & Hrow' & Hpr').
    rewrite Hk in Hrow'. by injection Hrow' as ->.
Qed.

(** X2.  Every row that [active_class_discovery] returns is a pair of
    point indices of the dataset, whether it comes from a merge or from
    the random padding, and there are [n_constraints] of them. *)
Theorem acd_rows_are_point_pairs data n_constraints ms w qm w' :
  active_class_discovery data n_constraints ms w = (Ok qm, w') →
  Forall (pair_row (n_points data)) qm ∧
  shape_dim n_constraints = Ok (length qm).
Proof.
  intros H. apply active_class_discovery_rows in H as (n & Hn & <- & Hrows). done.
Qed.

Lemma acd_rows_are_point_pairs_witness :
  Forall (pair_row (n_points two_pairs)) [[1; 2]; [3; 0]; [1; 1]; [0; 0]; [0; 0]]%Z ∧
  shape_dim (PyInt 5) = Ok (length [[1; 2]; [3; 0]; [1; 1]; [0; 0]; [0; 0]]%Z).
Proof.
  eapply (acd_rows_are_point_pairs two_pairs (PyInt 5) (Some 2%Z)
            (world_of [1; 2; 3; 0; 1; 1])).
  vm_compute. reflexivity.
Defined.

Lemma assemble_Ok_pairs labels n err query_mat w cm w' :
  assemble labels n err query_mat w = (Ok cm, w') →
  Forall (λ q, 2 ≤ length q) query_mat.
Proof.
  unfold assemble. intros H.
  apply mbind_Ok in H as (link & w1 & Hlink & _). apply lift_Ok in Hlink as [Hlink ->].
  apply Forall_lookup. intros r q Hq.
  destruct (mapM_Ok_lookup _ _ _ _ _ Hlink Hq) as (t & _ & Ht).
  apply true_link_Ok in Ht as (i & j & li & lj & _ & H1 & _).
  apply lookup_lt_Some in H1. lia.
Qed.

(** X3.  For the strategies [rand], [mmffqs] and [acd] every row of the
    returned constraint matrix has three entries, the pair and its link. *)
Theorem three_columns_but_for_ffqs data labels method n_constraints err ms w cm big w' :
  get_constraints data labels method n_constraints err ms w = (Ok (cm, big), w') →
  method ≠ "ffqs" →
  Forall (λ row, length row = 3) cm.
Proof.
  intros H Hne.
  apply get_constraints_dispatch in H as (n & qm & w1 & w2 & _ & Ha & _ & Hm).
  pose proof (assemble_Ok_pairs _ _ _ _ _ _ _ Ha) as Hge.
  assert (Hqm : Forall (λ q, length q = 2) qm).
  { destruct Hm as [(_ & Hacd & _) | [(_ & cl & Hmm & _) | [(-> & _) | (_ & k & _ & Hr & _)]]];
      [| | done |].
    - apply active_class_discovery_rows in Hacd as (_ & _ & _ & Hrows).
      eapply Forall_impl; [exact Hrows|]. by intros row (i & j & -> & _).
    - apply MMFFQS_Ok in Hmm as (mat & nbr & w3 & n' & s & _ & _ & _ & _ & -> & _).
      rewrite Forall_fmap in Hge |- *. eapply Forall_impl; [exact Hge|].
      intros row. simpl. rewrite !length_take. lia.
    - apply randint_pairs_Ok in Hr as (_ & _ & Hrows).
      eapply Forall_impl; [exact Hrows|]. by intros row (i & j & -> & _). }
  apply Forall_lookup. intros r row Hr.
  destruct (assemble_Ok_rows _ _ _ _ _ _ _ Ha r row Hr) as (q & l & Hq & ->).
  rewrite Forall_lookup in Hqm. rewrite length_app, (Hqm r q Hq). done.
Qed.

Lemma three_columns_but_for_ffqs_witness :
  Forall (λ row, length row = 3)
    [[2; 1; 0]; [0; 1; 0]; [0; 2; 1]; [4; 1; 0]; [4; 3; 0]]%Z.
Proof.
  eapply (three_columns_but_for_ffqs five_on_a_line [8; 7; 8; 8; 9]%Z "mmffqs"
            (Some (PyInt 5)) 0%Q None (world_of [1])).
  - vm_compute. reflexivity.
  - discriminate.
Defined.

(** ** Active class discovery from the assembler *)

(** X4.  On the merge tree of a dataset of at least two points, one label
    per point, an integer budget [n >= 0] and an error rate in [0, 1], the
    strategy [acd] always returns: [n] rows of three entries ending in a
    link, and no all-pairs matrix. *)
Theorem acd_returns_on_merge_trees data labels n err ms w :
  2 ≤ n_points data → n_points data = length labels →
  valid_children (n_points data) (children data) →
  (0 <= err)%Q → (err <= 1)%Q →
  ∃ cm w', get_constraints data labels "acd" (Some (PyInt (Z.of_nat n))) err ms w
             = (Ok (cm, None), w') ∧
    length cm = n ∧ Forall (λ row, length row = 3) cm ∧ Forall ends_with_link cm.
Proof.
  intros HN Hlab Hch H0 H1. unfold get_constraints. simpl String.eqb. cbv iota.
  unfold mbind at 1. unfold emit at 1. unfold mbind at 1. unfold mbind at 1.
  destruct (active_class_discovery_run data n ms
              (World (tape w) (pos w) (trace w ++ [EvPdist])) HN Hch) as (qm & w1 & Hacd).
  rewrite Hacd. unfold mret at 1.
  pose proof Hacd as Hrows. apply active_class_discovery_rows in Hrows as (k & Hk & Hlen & Hrows).
  unfold shape_dim in Hk. destruct (Z.ltb_spec (Z.of_nat n) 0) as [?|_]; [lia|].
  injection Hk as Hk. rewrite Nat2Z.id in Hk. subst k.
  destruct (assemble_run labels n err qm w1 H0 H1 Hlen) as (cm & w' & Ha & Hcl & Hlink & Hcols & _).
  { rewrite <- Hlab. eapply Forall_impl; [exact Hrows|]. apply pair_row_starts. }
  unfold mbind, mret. rewrite Ha.
  eexists _, _. split; [reflexivity|]. split_and!; try done.
  apply Forall_lookup. intros r row Hrow.
  destruct (Hcols r row Hrow) as (q & Hq & ->).
  rewrite Forall_lookup in Hrows. by destruct (Hrows r q Hq) as (i & j & -> & _).
Qed.

Lemma acd_returns_on_merge_trees_witness :
  ∃ cm w', get_constraints two_pairs [7; 7; 8; 8]%Z "acd" (Some (PyInt (Z.of_nat 5)))
             (1 # 2)%Q (Some 2%Z) (world_of [1; 2; 3])
           = (Ok (cm, None), w') ∧
    length cm = 5 ∧ Forall (λ row, length row = 3) cm ∧ Forall ends_with_link cm.
Proof.
  apply (acd_returns_on_merge_trees two_pairs [7; 7; 8; 8]%Z 5 (1 # 2)%Q (Some 2%Z)
           (world_of [1; 2; 3])).
  - simpl. lia.
  - reflexivity.
  - split; [reflexivity|]. intros i g1 g2 Hi.
    destruct i as [|[|[|i]]]; simpl in Hi; try discriminate; injection Hi as <- <-; simpl; lia.
  - done.
  - done.
Defined.

(** ** Active class discovery: the size filter *)

Lemma filter_all {A} (P : A → Prop) `{!∀ x, Decision (P x)} (l : list A) :
  (∀ x, x ∈ l → P x) → filter P l = l.
Proof.
  induction l as [|x l IH]; intros Hall; [done|].
  rewrite filter_cons_True by (apply Hall; constructor).
  f_equal. apply IH. intros y Hy. apply Hall. by constructor.
Qed.

Lemma merge_walk_sizes_positive N ch wk :
  merge_walk ch (seq 0 (N - 1)) (merge_walk_init N) = Ok wk →
  Forall (λ sz, 1 ≤ sz) (merge_size wk).
Proof.
  intros Hwk.
  destruct (merge_walk_Forall (λ m, m ≠ []) _ _ _ _
              ltac:(intros a b Ha _; by destruct a) Hwk) as [_ Hhist].
  { by apply (merge_walk_init_Forall (λ m, m ≠ [])). }
  { by apply (merge_walk_init_Forall (λ m, m ≠ [])). }
  apply merge_walk_spec in Hwk as (Hhl & Hsl & Hsz);
    [| done | simpl; rewrite length_replicate; lia | done].
  simpl in Hhl, Hsl. rewrite length_replicate in Hsl.
  apply Forall_lookup. intros i sz Hi.
  pose proof (lookup_lt_Some _ _ _ Hi) as Hlt.
  destruct (lookup_lt_is_Some_2 (merge_history wk) i ltac:(lia)) as [[g1 g2] Hg].
  rewrite (Hsz i g1 g2 Hg) in Hi. injection Hi as <-.
  rewrite Forall_lookup in Hhist. destruct (Hhist i _ Hg) as [H1 H2]. simpl in *.
  destruct g1, g2; simpl; try done; lia.
Qed.

Lemma acd_select_min_samples_le_1 ans sizes m n :
  (m <= 1)%Z → Forall (λ sz, 1 ≤ sz) sizes →
  acd_select ans sizes (Some m) n = acd_select ans sizes None n.
Proof.
  intros Hm Hpos. unfold acd_select. f_equal. apply filter_all.
  intros idx Hidx. apply elem_of_argsort_desc in Hidx.
  destruct (lookup_lt_is_Some_2 sizes idx Hidx) as [sz Hsz]. rewrite Hsz. simpl.
  rewrite Forall_lookup in Hpos. specialize (Hpos idx sz Hsz). simpl in Hpos. lia.
Qed.

(** X5.  Every merge has at least one point on each side, so a
    [min_samples] of 1 or less filters nothing: the call does exactly what
    it does without [min_samples], outcome and random draws alike. *)
Theorem acd_min_samples_at_most_one data n_constraints m w :
  (m <= 1)%Z →
  active_class_discovery data n_constraints (Some m) w =
  active_class_discovery data n_constraints None w.
Proof.
  intros Hm. unfold active_class_discovery. cbv zeta.
  unfold mbind, emit, lift. case_decide; [done|].
  destruct (merge_walk _ _ _) as [wk|e] eqn:Hwk; [|done].
  destruct (shape_dim n_constraints) as [n|e]; [|done].
  rewrite acd_select_min_samples_le_1; [done | done |].
  by eapply merge_walk_sizes_positive.
Qed.

Lemma acd_min_samples_at_most_one_witness :
  active_class_discovery two_pairs (PyInt 3) (Some 1%Z) (world_of [1; 2; 3]) =
  active_class_discovery two_pairs (PyInt 3) None (world_of [1; 2; 3]).
Proof.
  apply (acd_min_samples_at_most_one two_pairs (PyInt 3) 1%Z (world_of [1; 2; 3])). lia.
Defined.

(** ** Farthest-first query search: what the rows record *)

Lemma query_row_insert labels nbr p L row :
  nbr !! p = Some 0 → query_row labels nbr row → query_row labels (<[p := L]> nbr) row.
Proof.
  intros Hp (a & b & la & lb & -> & Hab & Ha & Hb & (ca & Hca & Hca0) & (cb & Hcb & Hcb0)).
  exists a, b, la, lb. split_and!; try done.
  - exists ca. split; [|done]. rewrite list_lookup_insert_ne; [done|]. intros ->. congruence.
  - exists cb. split; [|done]. rewrite list_lookup_insert_ne; [done|]. intros ->. congruence.
Qed.

Lemma ffqs_body_rows data labels n nc seed s s' :
  ffqs_inv labels n seed s →
  ffqs_body data labels n nc s = Ok s' →
  rows_recorded labels s → rows_recorded labels s'.
Proof.
  destruct s as [nbr qc mat0 fa].
  intros [Hlen Hseed Hrows Hcols Hpure Hdist Hhoods [Hcnt1 Hcnt2] Hzero] H Hrec.
  simpl in Hlen, Hseed, Hrows, Hcols, Hpure, Hdist, Hhoods, Hcnt1, Hcnt2, Hzero.
  unfold rows_recorded in Hrec. simpl in Hrec.
  unfold ffqs_body in H. cbv zeta in H.
  apply rbind_Ok in H as (min_dist & _ & H).
  apply rbind_Ok in H as (far_ind & _ & H).
  apply rbind_Ok in H as (p & Hp & H).
  apply at_index_Ok, list_elem_of_lookup_2, elem_of_ind_where in Hp as (c0 & Hp & ->).
  apply rbind_Ok in H as ([[[c k'] qc'] mat'] & Hscan & H).
  apply ffqs_scan_spec in Hscan as [[Hk' Hqc'] Hb Hl Hcs Hf Hr Hs Ha].
  injection H as <-. simpl in *.
  pose proof (lookup_lt_Some _ _ _ Hp) as Hplt.
  set (L := if c then k' - 1 else max_list nbr + 1).
  assert (HL0 : L ≠ 0).
  { unfold L. destruct c; [specialize (Hs eq_refl) | ]; lia. }
  assert (Hnbr' : (if c then <[p := k' - 1]> nbr else <[p := max_list nbr + 1]> nbr)
                  = <[p := L]> nbr) by (unfold L; by destruct c).
  intros r row Hrlt Hrow. simpl in Hrlt, Hrow. rewrite Hnbr'.
  pose proof (lookup_lt_Some _ _ _ Hrow) as Hrn. rewrite Hl, Hrows in Hrn.
  destruct (decide (r < qc)) as [Hold|Hnew].
  - rewrite Hf in Hrow by lia. apply query_row_insert; [done|]. by apply (Hrec r).
  - assert (Hj : 1 ≤ 1 + (r - qc) < k') by lia.
    destruct (Hr (1 + (r - qc)) Hj) as (rep & lp & lr & Hrep & Hlp & Hlr & _ & Hwritten).
    replace (qc + (1 + (r - qc) - 1)) with r in Hwritten by lia.
    rewrite Hwritten in Hrow by lia. injection Hrow as <-.
    apply first_member_Some in Hrep.
    assert (Hne : p ≠ rep) by (intros ->; rewrite Hp in Hrep; injection Hrep; lia).
    exists p, rep, lp, lr. split_and!; try done.
    + exists L. split; [|done]. by apply list_lookup_insert_eq.
    + exists (1 + (r - qc)). split; [|lia]. simpl. by rewrite list_lookup_insert_ne.
Qed.

Lemma ffqs_reach_rows data labels n seed s :
  seed < length labels → ffqs_reach data labels n seed s → rows_recorded labels s.
Proof.
  intros Hseed. induction 1 as [|s s' Hreach IH Hg Hb].
  - intros r row Hr. simpl in Hr. lia.
  - eapply ffqs_body_rows; [|exact Hb|exact IH]. by eapply ffqs_reach_inv.
Qed.

(** X6.  Every row that FFQS has written is an honest record: it pairs
    two different points, both labelled in the returned vector, and its
    third entry is 1 exactly when their true labels are equal.  The rows
    FFQS has not reached are the all-zero rows, so every row of the
    returned matrix is one or the other. *)
Theorem ffqs_rows_are_true_answers data labels n_constraints w mat nbr w' :
  FFQS data labels n_constraints w = (Ok (mat, nbr), w') →
  Forall (λ row, query_row labels nbr row ∨ row = [0; 0; 0]%Z) mat.
Proof.
  intros H.
  apply FFQS_Ok in H as (n & seed & s & _ & Hseed & Hreach & _ & -> & -> & _).
  pose proof (ffqs_reach_inv data labels n seed s Hseed Hreach) as Hinv.
  pose proof (ffqs_reach_rows data labels n seed s Hseed Hreach) as Hrec.
  apply Forall_lookup. intros r row Hrow.
  pose proof (lookup_lt_Some _ _ _ Hrow) as Hrn. rewrite (fi_rows _ _ _ _ Hinv) in Hrn.
  destruct (decide (r < quer_cnt s)) as [Hlt|Hge].
  - left. by apply (Hrec r).
  - right. rewrite (fi_zero _ _ _ _ Hinv) in Hrow by lia. by injection Hrow as <-.
Qed.

Lemma ffqs_rows_are_true_answers_witness :
  Forall (λ row, query_row [7; 7; 8; 9]%Z [1; 1; 3; 2] row ∨ row = [0; 0; 0]%Z)
    [[3; 0; 0]; [1; 0; 1]; [2; 0; 0]; [2; 3; 0]; [0; 0; 0]; [0; 0; 0]]%Z.
Proof.
  eapply (ffqs_rows_are_true_answers two_pairs [7; 7; 8; 9]%Z (PyInt 6) (world_of [0])).
  vm_compute. reflexivity.
Defined.

(** ** Farthest-first query search: neighbourhoods and classes *)

Lemma unique_nbr_size_distinct nbr : unique_nbr_size nbr = distinct_nonzero nbr.
Proof.
  unfold unique_nbr_size, distinct_nonzero, np_unique.
  apply Permutation_length, NoDup_Permutation.
  - apply NoDup_filter. rewrite merge_sort_Permutation. apply NoDup_remove_dups.
  - apply NoDup_remove_dups.
  - intros x. rewrite list_elem_of_filter, merge_sort_Permutation, !elem_of_remove_dups,
      list_elem_of_filter. done.
Qed.

Lemma distinct_nonzero_gapless nbr :
  (∀ c, 1 ≤ c ≤ max_list nbr → ∃ q, nbr !! q = Some c) →
  distinct_nonzero nbr = max_list nbr.
Proof.
  intros Hhoods. unfold distinct_nonzero.
  trans (length (seq 1 (max_list nbr))); [|by rewrite length_seq].
  apply Permutation_length, NoDup_Permutation; [apply NoDup_remove_dups | apply NoDup_seq |].
  intros x. rewrite elem_of_remove_dups, list_elem_of_filter, elem_of_seq. split.
  - intros [Hx Hin]. apply max_list_elem_of_le in Hin. lia.
  - intros Hx. split; [lia|]. destruct (Hhoods x ltac:(lia)) as [q Hq].
    by apply list_elem_of_lookup_2 with q.
Qed.

Lemma hood_classes labels n seed s k :
  ffqs_inv labels n seed s → k ≤ max_list (nbr_label s) →
  ∃ ls : list Z, length ls = k ∧ NoDup ls ∧
    ∀ l, l ∈ ls → ∃ c q, 1 ≤ c ≤ k ∧ nbr_label s !! q = Some c ∧ labels !! q = Some l.
Proof.
  intros Hinv. induction k as [|k IH]; intros Hk.
  - exists []. split_and!; [done | constructor |]. intros l Hl. by apply elem_of_nil in Hl.
  - destruct (IH ltac:(lia)) as (ls & Hlen & Hnd & Hls).
    destruct (fi_hoods _ _ _ _ Hinv (S k) ltac:(lia)) as [q Hq].
    destruct (lookup_lt_is_Some_2 labels q) as [l Hl].
    { rewrite <- (fi_len _ _ _ _ Hinv). by eapply lookup_lt_Some. }
    exists (l :: ls). split_and!.
    + simpl. lia.
    + apply NoDup_cons. split; [|done]. intros Hin.
      destruct (Hls l Hin) as (c & q' & Hc & Hq' & Hl').
      assert (c = S k); [|lia].
      apply (fi_distinct _ _ _ _ Hinv q' q c (S k)); [done | done | lia | lia | congruence].
    + intros l' Hin. apply elem_of_cons in Hin as [->|Hin].
      * exists (S k), q. split_and!; [lia | lia | done | done].
      * destruct (Hls l' Hin) as (c & q' & Hc & Hq' & Hl').
        exists c, q'. split_and!; [lia | lia | done | done].
Qed.

Lemma hoods_le_classes labels n seed s :
  ffqs_inv labels n seed s → max_list (nbr_label s) ≤ length (remove_dups labels).
Proof.
  intros Hinv.
  destruct (hood_classes labels n seed s (max_list (nbr_label s)) Hinv ltac:(done))
    as (ls & <- & Hnd & Hls).
  apply submseteq_length, NoDup_submseteq; [done|].
  intros l Hl. destruct (Hls l Hl) as (c & q & _ & _ & Hq).
  apply elem_of_remove_dups. by apply list_elem_of_lookup_2 with q.
Qed.

(** X7.  In the vector FFQS returns, neighbourhoods and classes match on
    the labelled points: two labelled points carry the same label exactly
    when their true labels are equal.  The labels in use are 1, 2, ... up
    to the largest with no gap, so the largest is the number of
    neighbourhoods, and it never exceeds the number of classes. *)
Theorem ffqs_neighbourhoods_match_classes data labels n_constraints w mat nbr w' :
  FFQS data labels n_constraints w = (Ok (mat, nbr), w') →
  length nbr = length labels ∧
  (∀ p q c c', nbr !! p = Some c → nbr !! q = Some c' → c ≠ 0 → c' ≠ 0 →
     (labels !! p = labels !! q ↔ c = c')) ∧
  (∀ c, 1 ≤ c ≤ max_list nbr → ∃ q, nbr !! q = Some c) ∧
  distinct_nonzero nbr = max_list nbr ∧
  max_list nbr ≤ length (remove_dups labels).
Proof.
  intros H.
  apply FFQS_Ok in H as (n & seed & s & _ & Hseed & Hreach & _ & -> & -> & _).
  pose proof (ffqs_reach_inv data labels n seed s Hseed Hreach) as Hinv.
  split_and!.
  - apply (fi_len _ _ _ _ Hinv).
  - intros p q c c' Hp Hq Hc Hc'. split.
    + by apply (fi_distinct _ _ _ _ Hinv p q).
    + intros <-. by apply (fi_pure _ _ _ _ Hinv p q c).
  - apply (fi_hoods _ _ _ _ Hinv).
  - apply distinct_nonzero_gapless, (fi_hoods _ _ _ _ Hinv).
  - by eapply hoods_le_classes.
Qed.

Lemma ffqs_neighbourhoods_match_classes_witness :
  length [1; 1; 3; 2] = length [7; 7; 8; 9]%Z ∧
  (∀ p q c c', [1; 1; 3; 2] !! p = Some c → [1; 1; 3; 2] !! q = Some c' → c ≠ 0 → c' ≠ 0 →
     ([7; 7; 8; 9]%Z !! p = [7; 7; 8; 9]%Z !! q ↔ c = c')) ∧
  (∀ c, 1 ≤ c ≤ max_list [1; 1; 3; 2] → ∃ q, [1; 1; 3; 2] !! q = Some c) ∧
  distinct_nonzero [1; 1; 3; 2] = max_list [1; 1; 3; 2] ∧
  max_list [1; 1; 3; 2] ≤ length (remove_dups [7; 7; 8; 9]%Z).
Proof.
  eapply (ffqs_neighbourhoods_match_classes two_pairs [7; 7; 8; 9]%Z (PyInt 6) (world_of [0])).
  vm_compute. reflexivity.
Defined.

Lemma ffqs_body_found data labels n nc s s' :
  ffqs_body data labels n nc s = Ok s' →
  found_all s' = true → found_all s = true ∨ unique_nbr_size (nbr_label s') = nc.
Proof.
  unfold ffqs_body. cbv zeta. intros H.
  apply rbind_Ok in H as (min_dist & _ & H).
  apply rbind_Ok in H as (far_ind & _ & H).
  apply rbind_Ok in H as (p & _ & H).
  apply rbind_Ok in H as ([[[c k'] qc'] mat'] & _ & H).
  injection H as <-. simpl. case_decide as Hsize; [by right | by left].
Qed.

Lemma ffqs_reach_found data labels n seed s :
  ffqs_reach data labels n seed s → found_all s = true →
  unique_nbr_size (nbr_label s) = length (remove_dups labels).
Proof.
  induction 1 as [|s s' _ IH Hg Hb]; [discriminate|]. intros Hf.
  destruct (ffqs_body_found _ _ _ _ _ _ Hb Hf) as [Hold|Hnew]; [|done].
  unfold ffqs_guard in Hg. rewrite Hold in Hg. by rewrite andb_false_r in Hg.
Qed.

(** X8.  FFQS stops for one of two reasons only, visible in what it
    returns: either it has one neighbourhood for every class, or the
    budget is spent and every row of its matrix records a query. *)
Theorem ffqs_stops_on_classes_or_budget data labels n_constraints w mat nbr w' :
  FFQS data labels n_constraints w = (Ok (mat, nbr), w') →
  max_list nbr = length (remove_dups labels) ∨ Forall (query_row labels nbr) mat.
Proof.
  intros H.
  apply FFQS_Ok in H as (n & seed & s & _ & Hseed & Hreach & Hg & -> & -> & _).
  pose proof (ffqs_reach_inv data labels n seed s Hseed Hreach) as Hinv.
  unfold ffqs_guard in Hg. apply andb_false_iff in Hg as [Hq|Hf].
  - right. apply bool_decide_eq_false in Hq.
    apply Forall_lookup. intros r row Hrow.
    pose proof (lookup_lt_Some _ _ _ Hrow) as Hrn. rewrite (fi_rows _ _ _ _ Hinv) in Hrn.
    apply (ffqs_reach_rows data labels n seed s Hseed Hreach r); [lia | done].
  - left. apply negb_false_iff in Hf.
    rewrite <- (ffqs_reach_found _ _ _ _ _ Hreach Hf), unique_nbr_size_distinct.
    symmetry. apply distinct_nonzero_gapless, (fi_hoods _ _ _ _ Hinv).
Qed.

Lemma ffqs_stops_on_classes_or_budget_witness :
  max_list [2; 1; 2; 2; 0] = length (remove_dups [8; 7; 8; 8; 9]%Z) ∨
  Forall (query_row [8; 7; 8; 8; 9]%Z [2; 1; 2; 2; 0])
    [[2; 1; 0]; [0; 1; 0]; [0; 2; 1]; [3; 1; 0]; [3; 0; 1]]%Z.
Proof.
  eapply (ffqs_stops_on_classes_or_budget five_on_a_line [8; 7; 8; 8; 9]%Z (PyInt 5)
            (world_of [1])).
  vm_compute. reflexivity.
Defined.

(** ** Farthest-first query search returns on two points or more *)

Lemma reduce_axis0_run f block m :
  block ≠ [] → Forall (λ row, length row = m) block →
  ∃ v, reduce_axis0 f block = Ok v ∧ length v = m.
Proof.
  destruct block as [|r rs]; [done|]. intros _ Hall.
  apply Forall_cons in Hall as [Hr Hrs]. simpl. eexists. split; [reflexivity|].
  revert r Hr. induction Hrs as [|x rs Hx _ IH]; intros r Hr; simpl; [done|].
  apply IH. rewrite length_zip_with. lia.
Qed.

Lemma arg_best_bound better best besti i v :
  besti < i → arg_best better best besti i v < i + length v.
Proof.
  revert best besti i. induction v as [|x v IH]; intros best besti i Hb; simpl; [lia|].
  destruct (better x best).
  - pose proof (IH x i (S i) ltac:(lia)). lia.
  - pose proof (IH best besti (S i) ltac:(lia)). lia.
Qed.

Lemma argmax_run v : v ≠ [] → ∃ i, argmax v = Ok i ∧ i < length v.
Proof.
  destruct v as [|x v]; [done|]. intros _. simpl. eexists. split; [reflexivity|].
  pose proof (arg_best_bound (λ a b, negb (Qle_bool a b)) x 0 1 v ltac:(lia)). lia.
Qed.

Lemma ffqs_scan_run labels fuel n nbr p k qc mat :
  max_list nbr + 1 - k ≤ fuel → 1 ≤ k →
  length nbr = length labels → p < length labels → length mat = n →
  (∀ c, 1 ≤ c ≤ max_list nbr → ∃ q, nbr !! q = Some c) →
  ∃ r, ffqs_scan labels fuel n nbr p false k qc mat = Ok r.
Proof.
  intros Hfuel Hk Hlen Hp Hmat Hhoods.
  revert k qc mat Hfuel Hk Hmat. induction fuel as [|fuel IH]; intros k qc mat Hfuel Hk Hmat;
    rewrite ffqs_scan_unfold; simpl negb; rewrite andb_true_l;
    case_bool_decide as Hkm; try (by eexists); [lia|].
  cbv zeta.
  destruct (lookup_lt_is_Some_2 labels p Hp) as [lp Hlp].
  unfold at_index at 1. rewrite Hlp. simpl.
  destruct (Hhoods k ltac:(lia)) as [q Hq].
  destruct (first_member_is_Some nbr k q Hq) as [rep Hrep].
  unfold first_member in Hrep. rewrite head_lookup in Hrep.
  unfold at_index at 1. rewrite Hrep. simpl.
  assert (Hreplt : rep < length labels).
  { apply list_elem_of_lookup_2, elem_of_ind_where in Hrep as (c & Hc & _).
    rewrite <- Hlen. by eapply lookup_lt_Some. }
  destruct (lookup_lt_is_Some_2 labels rep Hreplt) as [lr Hlr].
  unfold at_index at 1. rewrite Hlr. simpl.
  destruct (decide (qc < n)) as [Hq'|Hq'].
  - unfold set_row. case_decide; [|lia]. simpl.
    destruct (bool_decide (lp = lr)) eqn:Hans.
    + rewrite ffqs_scan_unfold. simpl. by eexists.
    + apply IH; [lia | lia | by rewrite length_insert].
  - simpl. destruct (bool_decide (lp = lr)) eqn:Hans.
    + rewrite ffqs_scan_unfold. simpl. by eexists.
    + apply IH; [lia | lia | done].
Qed.

Lemma ffqs_body_run data labels n nc seed s :
  ffqs_inv labels n seed s → (∃ p, nbr_label s !! p = Some 0) →
  ∃ s', ffqs_body data labels n nc s = Ok s'.
Proof.
  intros Hinv [p0 Hp0]. unfold ffqs_body. cbv zeta.
  set (nbr := nbr_label s).
  set (cand := ind_where (λ c, c = 0) nbr).
  set (nbr_ind := ind_where (λ c, 0 < c) nbr).
  assert (Hcand : p0 ∈ cand) by (apply elem_of_ind_where; eauto).
  assert (Hnbr : seed ∈ nbr_ind).
  { apply elem_of_ind_where. exists 1. split; [apply (fi_seed _ _ _ _ Hinv) | lia]. }
  destruct (reduce_axis0_run qmin (pdist_block (dist data) nbr_ind cand) (length cand))
    as (min_dist & -> & Hmd).
  { unfold pdist_block. destruct nbr_ind; [by apply elem_of_nil in Hnbr | done]. }
  { unfold pdist_block. apply Forall_fmap, Forall_forall. intros a _. simpl.
    by rewrite length_fmap. }
  simpl. destruct (argmax_run min_dist) as (far_ind & -> & Hfar).
  { destruct min_dist; [|done]. destruct cand; [by apply elem_of_nil in Hcand | done]. }
  simpl. destruct (lookup_lt_is_Some_2 cand far_ind ltac:(lia)) as [p Hp].
  unfold at_index at 1. rewrite Hp. simpl.
  apply list_elem_of_lookup_2, elem_of_ind_where in Hp as (c & Hpc & _).
  destruct (ffqs_scan_run labels (max_list nbr) n nbr p 1 (quer_cnt s) (constraint_mat s))
    as ([[[c' k'] qc'] mat'] & ->).
  - lia.
  - lia.
  - apply (fi_len _ _ _ _ Hinv).
  - rewrite <- (fi_len _ _ _ _ Hinv). by eapply lookup_lt_Some.
  - apply (fi_rows _ _ _ _ Hinv).
  - apply (fi_hoods _ _ _ _ Hinv).
  - simpl. by eexists.
Qed.

Lemma class_hoods labels n seed s (ls : list Z) :
  ffqs_inv labels n seed s → 0 ∉ nbr_label s →
  NoDup ls → (∀ l, l ∈ ls → l ∈ labels) →
  ∃ cs : list nat, length cs = length ls ∧ NoDup cs ∧
    ∀ c, c ∈ cs → c ≠ 0 ∧
      ∃ q l, l ∈ ls ∧ nbr_label s !! q = Some c ∧ labels !! q = Some l.
Proof.
  intros Hinv Hno. induction 1 as [|l ls Hl Hnd IH]; intros Hin.
  - exists []. split_and!; [done | constructor |]. intros c Hc. by apply elem_of_nil in Hc.
  - destruct IH as (cs & Hlen & Hcs & Hprop).
    { intros l' Hl'. apply Hin. by constructor. }
    destruct (list_elem_of_lookup_1 labels l (Hin l ltac:(constructor))) as [q Hq].
    destruct (lookup_lt_is_Some_2 (nbr_label s) q) as [c Hc].
    { rewrite (fi_len _ _ _ _ Hinv). by eapply lookup_lt_Some. }
    assert (Hc0 : c ≠ 0).
    { intros ->. apply Hno. by apply list_elem_of_lookup_2 with q. }
    exists (c :: cs). split_and!.
    + simpl. lia.
    + apply NoDup_cons. split; [|done]. intros Hcin.
      destruct (Hprop c Hcin) as (_ & q' & l' & Hl' & Hq' & Hlab').
      apply Hl. replace l with l'; [done|].
      pose proof (fi_pure _ _ _ _ Hinv q q' c Hc Hq' Hc0) as Heq. congruence.
    + intros c' Hc'. apply elem_of_cons in Hc' as [->|Hc'].
      * split; [done|]. exists q, l. split_and!; [constructor | done | done].
      * destruct (Hprop c' Hc') as (Hc'0 & q' & l' & Hl' & Hq' & Hlab').
        split; [done|]. exists q', l'. split_and!; [by constructor | done | done].
Qed.

Lemma all_assigned_all_classes labels n seed s :
  ffqs_inv labels n seed s → 0 ∉ nbr_label s →
  max_list (nbr_label s) = length (remove_dups labels).
Proof.
  intros Hinv Hno. apply Nat.le_antisymm; [by eapply hoods_le_classes|].
  destruct (class_hoods labels n seed s (remove_dups labels) Hinv Hno) as (cs & <- & Hnd & Hcs).
  { apply NoDup_remove_dups. }
  { intros l. by rewrite elem_of_remove_dups. }
  trans (length (seq 1 (max_list (nbr_label s)))); [|by rewrite length_seq].
  apply submseteq_length, NoDup_submseteq; [done|].
  intros c Hc. destruct (Hcs c Hc) as (Hc0 & q & l & _ & Hq & _).
  apply elem_of_seq. apply lookup_le_max_list in Hq. lia.
Qed.

Lemma ffqs_body_not_found data labels n nc s s' :
  ffqs_body data labels n nc s = Ok s' →
  found_all s' = false → unique_nbr_size (nbr_label s') ≠ nc.
Proof.
  unfold ffqs_body. cbv zeta. intros H.
  apply rbind_Ok in H as (min_dist & _ & H).
  apply rbind_Ok in H as (far_ind & _ & H).
  apply rbind_Ok in H as (p & _ & H).
  apply rbind_Ok in H as ([[[c k'] qc'] mat'] & _ & H).
  injection H as <-. simpl. by case_decide.
Qed.

(** While FFQS goes on, some point is still unassigned. *)
Lemma ffqs_reach_unassigned data labels n seed s :
  2 ≤ length labels → seed < length labels →
  ffqs_reach data labels n seed s → found_all s = false →
  ∃ p, nbr_label s !! p = Some 0.
Proof.
  intros HN Hseed Hreach Hf.
  pose proof (ffqs_reach_inv data labels n seed s Hseed Hreach) as Hinv.
  destruct (decide (0 ∈ nbr_label s)) as [Hin|Hno]; [by apply list_elem_of_lookup_1|].
  exfalso. destruct Hreach as [|s s' Hreach Hg Hb].
  - apply Hno. simpl.
    apply list_elem_of_lookup_2 with (if decide (seed = 0) then 1 else 0).
    rewrite list_lookup_insert_ne by (case_decide; lia).
    apply lookup_replicate_2. case_decide; lia.
  - apply (ffqs_body_not_found _ _ _ _ _ _ Hb Hf).
    rewrite unique_nbr_size_distinct, (distinct_nonzero_gapless _ (fi_hoods _ _ _ _ Hinv)).
    by eapply all_assigned_all_classes.
Qed.

Lemma ffqs_loop_run data labels fuel n seed s :
  2 ≤ length labels → seed < length labels →
  ffqs_reach data labels n seed s → n - quer_cnt s ≤ fuel →
  ∃ f, ffqs_loop data labels fuel n (length (remove_dups labels)) s = Ok f.
Proof.
  intros HN Hseed. revert s. induction fuel as [|fuel IH]; intros s Hreach Hfuel; simpl;
    destruct (ffqs_guard n s) eqn:Hg; try (by eexists).
  - unfold ffqs_guard in Hg. apply andb_true_iff in Hg as [Hq _].
    apply bool_decide_eq_true in Hq. lia.
  - pose proof (ffqs_reach_inv data labels n seed s Hseed Hreach) as Hinv.
    pose proof Hg as Hg'. unfold ffqs_guard in Hg'. apply andb_true_iff in Hg' as [_ Hf].
    apply negb_true_iff in Hf.
    destruct (ffqs_body_run data labels n (length (remove_dups labels)) seed s Hinv)
      as [s' Hb]; [by eapply ffqs_reach_unassigned|].
    rewrite Hb. simpl.
    destruct (ffqs_body_turn data labels n _ seed s s' Hinv Hg Hb)
      as [_ (p & L & [_ _ _ Hprog _ _])].
    apply IH; [by eapply reach_turn | lia].
Qed.

Lemma FFQS_run data labels n w :
  2 ≤ length labels →
  ∃ mat nbr w', FFQS data labels (PyInt (Z.of_nat n)) w = (Ok (mat, nbr), w').
Proof.
  intros HN. unfold FFQS.
  destruct (randint_run 0 (length labels) w ltac:(lia)) as (seed & Hseed & Hlt).
  unfold mbind at 1. rewrite Hseed.
  unfold mbind at 1. unfold lift at 1. unfold shape_dim.
  destruct (Z.ltb_spec (Z.of_nat n) 0) as [?|_]; [lia|]. rewrite Nat2Z.id.
  destruct (ffqs_loop_run data labels n n seed (ffqs_init labels seed n) HN ltac:(lia))
    as [f Hf]; [constructor | simpl; lia |].
  unfold mbind, lift, mret. rewrite Hf. eauto.
Qed.

(** X9.  On a label vector of at least two points, with an integer budget
    [n >= 0] and an error rate in [0, 1], the strategy [ffqs] always
    returns; its matrix has [n] rows of four entries ending in a link. *)
Theorem ffqs_returns_on_two_points data labels n err ms w :
  2 ≤ length labels → (0 <= err)%Q → (err <= 1)%Q →
  ∃ cm big w', get_constraints data labels "ffqs" (Some (PyInt (Z.of_nat n))) err ms w
                 = (Ok (cm, big), w') ∧
    length cm = n ∧ Forall (λ row, length row = 4) cm ∧ Forall ends_with_link cm.
Proof.
  intros HN H0 H1. unfold get_constraints. simpl String.eqb. cbv iota.
  unfold mbind at 1. unfold emit at 1. unfold mbind at 1. unfold mbind at 1.
  destruct (FFQS_run data labels n (World (tape w) (pos w) (trace w ++ [EvPdist])) HN)
    as (mat & nbr & w1 & HF).
  rewrite HF. unfold mret at 1.
  apply FFQS_Ok in HF as (n' & seed & s & Hn & Hseed & Hreach & _ & -> & -> & _).
  unfold shape_dim in Hn. destruct (Z.ltb_spec (Z.of_nat n) 0) as [?|_]; [lia|].
  injection Hn as Hn. rewrite Nat2Z.id in Hn. subst n'.
  pose proof (ffqs_reach_inv data labels n seed s Hseed Hreach) as Hinv.
  pose proof (ffqs_reach_rows data labels n seed s Hseed Hreach) as Hrec.
  destruct (assemble_run labels n err (constraint_mat s) w1 H0 H1 (fi_rows _ _ _ _ Hinv))
    as (cm & w' & Ha & Hcl & Hlink & Hcols & _).
  { apply Forall_lookup. intros r row Hrow.
    pose proof (lookup_lt_Some _ _ _ Hrow) as Hrn. rewrite (fi_rows _ _ _ _ Hinv) in Hrn.
    destruct (decide (r < quer_cnt s)) as [Hlt|Hge].
    - destruct (Hrec r row Hlt Hrow) as (p & q & lp & lq & -> & _ & Hp & Hq & _).
      exists p, q. split_and!; [done | done | by eapply lookup_lt_Some | by eapply lookup_lt_Some].
    - rewrite (fi_zero _ _ _ _ Hinv) in Hrow by lia. injection Hrow as <-.
      exists 0, 0. split_and!; [done | done | lia | lia]. }
  unfold mbind, mret. rewrite Ha.
  eexists _, _, _. split; [reflexivity|]. split_and!; try done.
  apply Forall_lookup. intros r row Hrow.
  destruct (Hcols r row Hrow) as (q & Hq & ->).
  pose proof (fi_cols _ _ _ _ Hinv) as Hc. rewrite Forall_lookup in Hc.
  by rewrite (Hc r q Hq).
Qed.

Lemma ffqs_returns_on_two_points_witness :
  ∃ cm big w', get_constraints two_pairs [7; 7; 8; 9]%Z "ffqs" (Some (PyInt (Z.of_nat 3)))
                 (1 # 4)%Q None (world_of [0])
               = (Ok (cm, big), w') ∧
    length cm = 3 ∧ Forall (λ row, length row = 4) cm ∧ Forall ends_with_link cm.
Proof.
  apply (ffqs_returns_on_two_points two_pairs [7; 7; 8; 9]%Z 3 (1 # 4)%Q None (world_of [0]));
    [simpl; lia | done | done].
Defined.

(** ** A single point *)

Lemma FFQS_single data l n w :
  FFQS data [l] (PyInt (Z.of_nat (S n))) w =
    (Err ValueError, World (tape w) (S (pos w)) (trace w)).
Proof.
  unfold FFQS, mbind, randint, lift. simpl length.
  case_decide; [|lia]. rewrite Nat.sub_0_r, Nat.mod_1_r.
  unfold shape_dim. destruct (Z.ltb_spec (Z.of_nat (S n)) 0) as [?|_]; [lia|].
  rewrite Nat2Z.id. unfold ffqs_init. simpl replicate. simpl length.
  change (<[0 + 0 := 1]> [0]) with [1].
  simpl ffqs_loop. reflexivity.
Qed.

(** X10.  On a dataset of a single point the strategies [ffqs] and
    [mmffqs] raise as soon as the budget allows one query: the seed is the
    only point, no candidate is left, and the farthest-point search has
    nothing to take a maximum of. *)
Theorem single_point_raises data l method n err ms w :
  method = "ffqs" ∨ method = "mmffqs" → 1 ≤ n →
  fst (get_constraints data [l] method (Some (PyInt (Z.of_nat n))) err ms w)
    = Err ValueError.
Proof.
  intros Hm Hn. destruct n as [|n]; [lia|].
  unfold get_constraints. destruct Hm as [-> | ->]; simpl String.eqb; cbv iota.
  - unfold mbind at 1. unfold emit at 1. unfold mbind at 1. unfold mbind at 1.
    by rewrite FFQS_single.
  - unfold mbind at 1. unfold emit at 1. unfold mbind at 1. unfold mbind at 1.
    unfold MMFFQS. unfold mbind at 1. unfold emit at 1. unfold mbind at 1.
    by rewrite FFQS_single.
Qed.

Lemma single_point_raises_witness :
  fst (get_constraints (line_data [5]%Z []) [7]%Z "mmffqs" (Some (PyInt (Z.of_nat 2)))
         0%Q None (world_of []))
    = Err ValueError.
Proof.
  apply (single_point_raises (line_data [5]%Z []) 7%Z "mmffqs" 2 0%Q None (world_of []));
    [by right | lia].
Defined.

(** ** Minimax farthest-first query search: rows and labels *)

Lemma mm_queries_rows labels n clus ind_vec q ks cl qc mat cl' qc' mat' :
  mm_queries labels n clus ind_vec q ks cl qc mat = Ok (cl', qc', mat') →
  Forall (triple_row (length labels)) mat → Forall (triple_row (length labels)) mat'.
Proof.
  revert cl qc mat. induction ks as [|k ks IH]; intros cl qc mat; simpl.
  - by intros [= <- <- <-].
  - intros H Hmat.
    apply rbind_Ok in H as (lq & Hlq & H). apply at_index_Ok in Hlq.
    apply rbind_Ok in H as (rep & Hrep & H).
    apply rbind_Ok in H as (lr & Hlr & H). apply at_index_Ok in Hlr.
    apply rbind_Ok in H as (mat1 & Hmat1 & H). apply set_row_Ok in Hmat1 as [_ ->].
    assert (Hmat1 : Forall (triple_row (length labels))
              (<[qc := [Z.of_nat q; Z.of_nat rep; Z_of_bool (bool_decide (lq = lr))]]> mat)).
    { apply Forall_insert; [done|]. eexists q, rep, _.
      split_and!; [done | by eapply lookup_lt_Some | by eapply lookup_lt_Some]. }
    destruct (bool_decide (lq = lr)).
    + apply rbind_Ok in H as (c & _ & H). by injection H as <- <- <-.
    + destruct (decide (S qc = n)); [by injection H as <- <- <- | by eapply IH].
Qed.

Lemma mm_body_rows data labels n clus s w s' w' :
  mm_body data labels n clus s w = (Ok s', w') →
  Forall (triple_row (length labels)) (mm_mat s) →
  Forall (triple_row (length labels)) (mm_mat s').
Proof.
  unfold mm_body. intros H. cbv zeta in H.
  apply mbind_Ok in H as (q & w1 & _ & H).
  apply mbind_Ok in H as (reps & w2 & _ & H).
  apply mbind_Ok in H as (ind_vec & w3 & _ & H).
  apply mbind_Ok in H as ([[cl qc] mat] & w4 & Hq & H).
  apply lift_Ok in Hq as [Hq ->]. apply mret_Ok in H as [-> ->]. simpl.
  by eapply mm_queries_rows.
Qed.

Lemma one_hood_per_class_mm_step labels cl cl' :
  one_hood_per_class labels cl →
  (cl' = cl ∨ ∃ q rep c, cl' = <[q := c]> cl ∧ cl !! rep = Some c ∧
     labels !! q = labels !! rep) →
  one_hood_per_class labels cl'.
Proof.
  intros Hone [->|(q & rep & c & -> & Hrep & Hlab)]; [done|].
  destruct (decide (q < length cl)) as [Hlt|Hge]; [|by rewrite list_insert_ge by lia].
  intros a b ca cb Ha Hb Hca Hcb Heq.
  destruct (decide (a = q)) as [->|Haq]; destruct (decide (b = q)) as [->|Hbq].
  - congruence.
  - rewrite list_lookup_insert_eq in Ha by done. injection Ha as <-.
    rewrite list_lookup_insert_ne in Hb by done.
    apply (Hone rep b c cb); [done | done | done | done | congruence].
  - rewrite list_lookup_insert_eq in Hb by done. injection Hb as <-.
    rewrite list_lookup_insert_ne in Ha by done.
    apply (Hone a rep ca c); [done | done | done | done | congruence].
  - rewrite list_lookup_insert_ne in Ha, Hb by done. by apply (Hone a b).
Qed.

Lemma mm_reach_state data labels n clus s0 s :
  mm_reach data labels n clus s0 s →
  one_hood_per_class labels (clus_label s0) →
  Forall (triple_row (length labels)) (mm_mat s0) →
  one_hood_per_class labels (clus_label s) ∧
  length (clus_label s) = length (clus_label s0) ∧
  Forall (triple_row (length labels)) (mm_mat s) ∧
  length (mm_mat s) = length (mm_mat s0).
Proof.
  intros Hreach Hone Hmat. induction Hreach as [|s s' w w' _ (IH1 & IH2 & IH3 & IH4) Hb].
  - done.
  - pose proof (mm_body_rows _ _ _ _ _ _ _ _ Hb IH3) as Hrows.
    apply mm_body_spec in Hb as (Hcl & _ & _ & Hlen).
    split_and!; [by eapply one_hood_per_class_mm_step | | done | lia].
    destruct Hcl as [->|(q & rep & c & -> & _)]; [done | by rewrite length_insert].
Qed.

Lemma FFQS_rows_triples data labels n_constraints w mat nbr w' :
  FFQS data labels n_constraints w = (Ok (mat, nbr), w') →
  Forall (triple_row (length labels)) mat ∧ shape_dim n_constraints = Ok (length mat) ∧
  one_hood_per_class labels nbr ∧ length nbr = length labels.
Proof.
  intros H.
  apply FFQS_Ok in H as (n & seed & s & Hn & Hseed & Hreach & _ & -> & -> & _).
  pose proof (ffqs_reach_inv data labels n seed s Hseed Hreach) as Hinv.
  pose proof (ffqs_reach_rows data labels n seed s Hseed Hreach) as Hrec.
  split_and!.
  - apply Forall_lookup. intros r row Hrow.
    pose proof (lookup_lt_Some _ _ _ Hrow) as Hrn. rewrite (fi_rows _ _ _ _ Hinv) in Hrn.
    destruct (decide (r < quer_cnt s)) as [Hlt|Hge].
    + destruct (Hrec r row Hlt Hrow) as (p & q & lp & lq & -> & _ & Hp & Hq & _).
      eexists p, q, _. split_and!; [done | by eapply lookup_lt_Some | by eapply lookup_lt_Some].
    + rewrite (fi_zero _ _ _ _ Hinv) in Hrow by lia. injection Hrow as <-.
      exists 0, 0, 0%Z. split_and!; [done | lia | lia].
  - by rewrite (fi_rows _ _ _ _ Hinv).
  - intros p q c c'. apply (fi_distinct _ _ _ _ Hinv).
  - apply (fi_len _ _ _ _ Hinv).
Qed.

(** X11.  MMFFQS returns [n_constraints] rows, each a pair of point
    indices of the dataset, so the assembler can look every one of them
    up. *)
Theorem mmffqs_rows_are_point_pairs data labels n_constraints w qm cl w' :
  MMFFQS data labels n_constraints w = (Ok (qm, cl), w') →
  shape_dim n_constraints = Ok (length qm) ∧
  Forall (pair_row (length labels)) qm.
Proof.
  intros H.
  apply MMFFQS_Ok in H as (mat & nbr & w1 & n & s & HFF & _ & Hreach & _ & -> & _).
  apply FFQS_rows_triples in HFF as (Hmat & Hn & Hone & _).
  destruct (mm_reach_state _ _ _ _ _ _ Hreach Hone Hmat) as (_ & _ & Hrows & Hlen).
  simpl in Hlen. split.
  - by rewrite length_fmap, Hlen.
  - apply Forall_fmap. eapply Forall_impl; [exact Hrows|].
    intros row (i & j & l & -> & Hi & Hj). by exists i, j.
Qed.

Lemma mmffqs_rows_are_point_pairs_witness :
  shape_dim (PyInt 5) = Ok (length [[2; 1]; [0; 1]; [0; 2]; [4; 1]; [4; 3]]%Z) ∧
  Forall (pair_row (length [8; 7; 8; 8; 9]%Z)) [[2; 1]; [0; 1]; [0; 2]; [4; 1]; [4; 3]]%Z.
Proof.
  eapply (mmffqs_rows_are_point_pairs five_on_a_line [8; 7; 8; 8; 9]%Z (PyInt 5)
            (world_of [1])).
  vm_compute. reflexivity.
Defined.

(** X12.  The second phase of MMFFQS keeps neighbourhoods and classes
    matched and makes up no label: in the vector MMFFQS returns, two
    labelled points carry the same label exactly when their true labels
    are equal, and every nonzero label is one that FFQS had given. *)
Theorem mmffqs_neighbourhoods_match_classes data labels n_constraints w qm cl w' :
  MMFFQS data labels n_constraints w = (Ok (qm, cl), w') →
  length cl = length labels ∧
  (∀ p q c c', cl !! p = Some c → cl !! q = Some c' → c ≠ 0 → c' ≠ 0 →
     (labels !! p = labels !! q ↔ c = c')) ∧
  ∃ mat nbr w1,
    FFQS data labels n_constraints (World (tape w) (pos w) (trace w ++ [EvAffinity]))
      = (Ok (mat, nbr), w1) ∧
    no_new_label nbr cl.
Proof.
  intros H.
  apply MMFFQS_Ok in H as (mat & nbr & w1 & n & s & HFF & _ & Hreach & _ & _ & ->).
  pose proof (FFQS_class_pure _ _ _ _ _ _ _ HFF) as Hpure.
  pose proof HFF as HF2. apply FFQS_rows_triples in HF2 as (Hmat & _ & Hone & Hlen).
  destruct (mm_reach_state _ _ _ _ _ _ Hreach Hone Hmat) as (Hone' & Hlen' & _ & _).
  destruct (mm_reach_pure data labels _ _ (mm_init mat nbr) _ Hpure Hreach) as [Hpure' Hnew].
  simpl in Hlen'. split_and!.
  - congruence.
  - intros p q c c' Hp Hq Hc Hc'. split.
    + by apply (Hone' p q).
    + intros <-. by apply (Hpure' p q c).
  - exists mat, nbr, w1. done.
Qed.

Lemma mmffqs_neighbourhoods_match_classes_witness :
  length [2; 1; 2; 2; 0] = length [8; 7; 8; 8; 9]%Z ∧
  (∀ p q c c', [2; 1; 2; 2; 0] !! p = Some c → [2; 1; 2; 2; 0] !! q = Some c' →
     c ≠ 0 → c' ≠ 0 →
     ([8; 7; 8; 8; 9]%Z !! p = [8; 7; 8; 8; 9]%Z !! q ↔ c = c')) ∧
  ∃ mat nbr w1,
    FFQS five_on_a_line [8; 7; 8; 8; 9]%Z (PyInt 5)
      (World (tape (world_of [1])) (pos (world_of [1])) (trace (world_of [1]) ++ [EvAffinity]))
      = (Ok (mat, nbr), w1) ∧
    no_new_label nbr [2; 1; 2; 2; 0].
Proof.
  eapply (mmffqs_neighbourhoods_match_classes five_on_a_line [8; 7; 8; 8; 9]%Z (PyInt 5)
            (world_of [1])).
  vm_compute. reflexivity.
Defined.

(** ** The assembler: noise *)



(** X14.  Flipping is its own inverse: the same error mask applied to the
    flipped links gives the links back, as long as they are 0 or 1. *)
Theorem flip_masked_twice error_ind link link' :
  Forall (λ l, l = 0%Z ∨ l = 1%Z) link →
  flip_masked error_ind link = Ok link' →
  flip_masked error_ind link' = Ok link.
Proof.
  intros Hl. unfold flip_masked. case_decide as Hlen; [|discriminate]. intros [= <-].
  rewrite length_zip_with. case_decide; [|lia]. f_equal.
  clear H. revert error_ind Hlen. induction Hl as [|l link Hl0 _ IH]; intros [|e es] Hlen;
    simpl in *; try done.
  injection Hlen as Hlen. rewrite (IH es Hlen). f_equal.
  destruct e; [|done]. by destruct Hl0 as [-> | ->].
Qed.

Lemma flip_masked_twice_witness :
  flip_masked [true; false; true] [0; 0; 1]%Z = Ok [1; 0; 0]%Z.
Proof.
  apply (flip_masked_twice [true; false; true] [1; 0; 0]%Z [0; 0; 1]%Z).
  - repeat (apply List.Forall_cons; [auto|]). apply List.Forall_nil.
  - reflexivity.
Defined.

(** X15.  For the strategy [ffqs] with no noise, the extra third column
    carries nothing new: on every row FFQS wrote, it equals the link in
    the fourth; the rows FFQS left unused come back as (0, 0, 0, 1). *)
Theorem ffqs_answer_column_repeats_link data labels n_constraints err ms w cm big w' :
  get_constraints data labels "ffqs" n_constraints err ms w = (Ok (cm, big), w') →
  (err == 0)%Q →
  Forall (λ row, (∃ p q a, row = [p; q; a; a]) ∨ row = [0; 0; 0; 1]%Z) cm.
Proof.
  intros H Herr.
  pose proof H as Hd.
  apply get_constraints_dispatch in Hd as (n & qm & w1 & w2 & _ & Ha & _ & Hm).
  destruct Hm as [(Hm & _) | [(Hm & _) | [(_ & cl & HF & _) | (Hm & _)]]];
    try discriminate Hm.
  pose proof (proj1 (assemble_rows _ _ _ _ _ _ _ Ha) Herr) as Hrep.
  apply FFQS_Ok in HF as (n' & seed & s & _ & Hseed & Hreach & _ & -> & _).
  pose proof (ffqs_reach_inv data labels n' seed s Hseed Hreach) as Hinv.
  pose proof (ffqs_reach_rows data labels n' seed s Hseed Hreach) as Hrec.
  apply Forall_lookup. intros r row Hr.
  rewrite Forall_lookup in Hrep. specialize (Hrep r row Hr).
  destruct (assemble_Ok_rows _ _ _ _ _ _ _ Ha r row Hr) as (q & l & Hq & ->).
  destruct Hrep as (i & j & li & lj & H0 & H1 & Hi & Hj & Hlast).
  rewrite last_snoc in Hlast. injection Hlast as ->.
  pose proof (lookup_lt_Some _ _ _ Hq) as Hrn. rewrite (fi_rows _ _ _ _ Hinv) in Hrn.
  destruct (decide (r < quer_cnt s)) as [Hlt|Hge].
  - left. destruct (Hrec r q Hlt Hq) as (a & b & la & lb & -> & _ & Hla & Hlb & _).
    simpl in H0, H1. injection H0 as <-. injection H1 as <-.
    destruct (getitem_nat labels a ltac:(by eapply lookup_lt_Some)) as (x & Hx & Hx').
    destruct (getitem_nat labels b ltac:(by eapply lookup_lt_Some)) as (y & Hy & Hy').
    assert (li = la) as -> by congruence. assert (lj = lb) as -> by congruence.
    by eexists _, _, _.
  - right. rewrite (fi_zero _ _ _ _ Hinv) in Hq by lia. injection Hq as <-.
    simpl in H0, H1. injection H0 as <-. injection H1 as <-.
    rewrite Hi in Hj. injection Hj as <-. simpl. by rewrite bool_decide_eq_true_2.
Qed.

Lemma ffqs_answer_column_repeats_link_witness :
  Forall (λ row, (∃ p q a, row = [p; q; a; a]) ∨ row = [0; 0; 0; 1]%Z)
    [[3; 1; 0; 0]; [0; 0; 0; 1]; [0; 0; 0; 1]]%Z.
Proof.
  eapply (ffqs_answer_column_repeats_link two_pairs [7; 7; 8; 8]%Z (Some (PyInt 3)) 0%Q
            None (world_of [1])).
  - vm_compute. reflexivity.
  - reflexivity.
Defined.

(** ** Minimax farthest-first query search: an empty skeleton *)

(** X17.  MMFFQS takes the skeleton from the rows of FFQS whose first
    entry is not 0.  When there is no such row (FFQS asked about point 0
    only, as when point 0 is the farthest from the seed and the two make
    up all classes) and the budget is at least 1, the skeleton is empty,
    the block of affinities to it has no row, and the maximum over it
    raises: MMFFQS does not return. *)
Theorem mmffqs_raises_on_empty_skeleton data labels n_constraints n w mat nbr w1 :
  FFQS data labels n_constraints (World (tape w) (pos w) (trace w ++ [EvAffinity]))
    = (Ok (mat, nbr), w1) →
  explore_rows mat = [] →
  shape_dim n_constraints = Ok n → 1 ≤ n →
  MMFFQS data labels n_constraints w = (Err ValueError, w1).
Proof.
  intros HF Hexp Hn Hn1. unfold MMFFQS.
  unfold mbind at 1. unfold emit at 1. unfold mbind at 1. rewrite HF.
  unfold mbind at 1. unfold lift at 1. rewrite Hn.
  apply FFQS_Ok in HF as (n' & seed & s & _ & Hseed & _).
  unfold mbind at 1. destruct n as [|n]; [lia|].
  unfold mm_init. rewrite Hexp. simpl mm_loop.
  unfold mbind at 1. unfold mm_body. cbv zeta. simpl skeleton_ind.
  assert (Hin : seed ∈ filter (λ i, i ∉ np_unique []) (seq 0 (length labels))).
  { apply list_elem_of_filter. split; [|apply elem_of_seq; lia].
    unfold np_unique. simpl. apply not_elem_of_nil. }
  destruct (filter (λ i, i ∉ np_unique []) (seq 0 (length labels))) as [|c cand].
  - by apply elem_of_nil in Hin.
  - unfold np_unique at 1. simpl. reflexivity.
Qed.

Lemma mmffqs_raises_on_empty_skeleton_witness :
  MMFFQS (line_data [9; 0; 1]%Z []) [8; 7; 7]%Z (PyInt 4) (world_of [1]) =
    (Err ValueError, World (tape (world_of [1])) 1 [EvAffinity]).
Proof.
  eapply (mmffqs_raises_on_empty_skeleton (line_data [9; 0; 1]%Z []) [8; 7; 7]%Z (PyInt 4) 4
            (world_of [1])).
  - vm_compute. reflexivity.
  - reflexivity.
  - reflexivity.
  - lia.
Defined.
